(** * NBT editor core: codec, tree utilities, add-child and history

    A shallow embedding of the TypeScript sources

      - [types.ts], in [src/unnamed/part_000]
          (TagType, NBTTag, NBTFile),
      - [utils/nbtParser.ts]
          (parseLong, NBTParser, NBTWriter),
      - [utils/treeUtils.ts], in [src/unnamed/part_002]
          (cloneTag, flattenTree, deleteNodesByPaths),
      - [components/NBTNode.tsx]
          (handleAddChild),
      - [App.tsx], the second half of [src/components/PlayerPreview.tsx]
          (pushHistory, handleUndo, handleRedo, handleFileUpload, closeFile,
           updateActiveFileRoot, handleSelect, deleteSelected),

    followed by the properties of the codec, of bulk deletion and of the
    undo/redo history.

    Conventions of the embedding.
      - A JS [number] that holds an integer is a [Z]; a [bigint] is a [Z]
        under another constructor.  The 32-bit operators ([&], [>>]) go
        through [ToInt32], [Number(bigint)] rounds to a double.
      - A Float / Double payload is carried by the IEEE-754 word that
        [DataView.getFloat32] / [getFloat64] read.
      - An [ArrayBuffer] is a [list byte]; [DataView] getters and typed
        array views throw [RangeError] outside of it.
      - [this.offset] and [this.buffer] are threaded explicitly.
      - Exceptions are the [Throw] results of an error monad.
      - The platform services [TextEncoder], [TextDecoder] and [pako] are
        parameters of the development ([Platform]). *)

From Stdlib Require Import ZArith List Lia Bool.
From Stdlib Require Import Strings.String Strings.Byte.
From stdpp Require Import base tactics option list gmap strings pretty.

Local Open Scope Z_scope.

(** ** Results and exceptions *)

Inductive exn : Type :=
| RangeError        (* DataView / typed-array access outside the buffer *)
| TypeError         (* a property of [undefined] / [null], [x.map] on a non-array *)
| InvalidGzip       (* [new Error("Invalid GZIP format")] *)
| Unmodelled        (* JS goes on with a coercion the embedding does not cover *)
| OutOfFuel.        (* the recursion bound of the embedding, not a JS error *)

Inductive result (A : Type) : Type :=
| Ok (a : A)
| Throw (e : exn).
Arguments Ok {A} a.
Arguments Throw {A} e.

Definition bind {A B} (m : result A) (k : A -> result B) : result B :=
  match m with
  | Ok a => k a
  | Throw e => Throw e
  end.

Definition rmap {A B} (f : A -> B) (m : result A) : result B :=
  bind m (fun a => Ok (f a)).

Notation "'let!' x ':=' m 'in' k" := (bind m (fun x => k))
  (at level 10, x pattern, m at level 100, k at level 200).

(** [xs.map(f)] where [f] may throw: the first exception wins. *)
Definition mapM {A B} (f : A -> result B) : list A -> result (list B) :=
  fix go (l : list A) : result (list B) :=
    match l with
    | [] => Ok []
    | x :: xs => let! y := f x in let! ys := go xs in Ok (y :: ys)
    end.

(** [xs.map((x, idx) => f(x, idx))], indices counted from [i]. *)
Definition mapiM {A B} (f : A -> nat -> result B) : list A -> nat -> result (list B) :=
  fix go (l : list A) (i : nat) : result (list B) :=
    match l with
    | [] => Ok []
    | x :: xs => let! y := f x i in let! ys := go xs (S i) in Ok (y :: ys)
    end.

(** A counted loop that threads [this.offset] and pushes onto an array:
    [for (let i = 0; i < n; i++) value.push(step())]. *)
Definition repeatM {A} (step : Z -> result (A * Z)) :
    nat -> list A -> Z -> result (list A * Z) :=
  fix go (n : nat) (acc : list A) (offset : Z) : result (list A * Z) :=
    match n with
    | O => Ok (acc, offset)
    | S n' => let! (a, offset') := step offset in go n' (acc ++ [a]) offset'
    end.

(** ** Numbers *)

Definition wrap_signed (w : Z) (z : Z) : Z :=
  let m := z mod 2 ^ w in
  if m <? 2 ^ (w - 1) then m else m - 2 ^ w.

(** ECMAScript [ToInt32] on an integral number. *)
Definition ToInt32 (z : Z) : Z := wrap_signed 32 z.

(** [a & b] and [a >> n] on numbers. *)
Definition js_and (a b : Z) : Z := Z.land (ToInt32 a) (ToInt32 b).
Definition js_sar (a n : Z) : Z := Z.shiftr (ToInt32 a) (n mod 32).

(** [Number(b)] for a bigint [b]: the nearest double, ties to even
    (magnitudes beyond the double range are not needed here). *)
Definition Number (b : Z) : Z :=
  let a := Z.abs b in
  if a <? 2 ^ 53 then b
  else
    let e := Z.log2 a - 52 in
    let q := a / 2 ^ e in
    let r := a mod 2 ^ e in
    let half := 2 ^ (e - 1) in
    let q' := if r <? half then q
              else if half <? r then q + 1
              else if Z.even q then q else q + 1 in
    Z.sgn b * (q' * 2 ^ e).

(** ** Bytes and the DataView *)

Definition byte_val (b : byte) : Z := Z.of_N (Byte.to_N b).

(** Storing a number into a [Uint8Array] keeps its low eight bits. *)
Definition u8 (z : Z) : byte :=
  match Byte.of_N (Z.to_N (z mod 256)) with
  | Some b => b
  | None => "000"%byte
  end.

(** The bytes [offset .. offset + len) of a buffer; this is the bounds check
    of every [DataView] getter and of [new Uint8Array(buffer, offset, len)]. *)
Definition bytesAt (buffer : list byte) (offset len : Z) : result (list byte) :=
  if (0 <=? offset) && (0 <=? len) && (offset + len <=? Z.of_nat (length buffer))
  then Ok (take (Z.to_nat len) (drop (Z.to_nat offset) buffer))
  else Throw RangeError.

(** Big-endian value of a byte sequence. *)
Definition be_unsigned (bs : list byte) : Z :=
  fold_left (fun acc b => acc * 256 + byte_val b) bs 0.

Definition to_signed (w : Z) (z : Z) : Z :=
  if z <? 2 ^ (w - 1) then z else z - 2 ^ w.

Definition getUint8 (view : list byte) (offset : Z) : result Z :=
  rmap be_unsigned (bytesAt view offset 1).
Definition getInt8 (view : list byte) (offset : Z) : result Z :=
  rmap (fun bs => to_signed 8 (be_unsigned bs)) (bytesAt view offset 1).
Definition getUint16 (view : list byte) (offset : Z) : result Z :=
  rmap be_unsigned (bytesAt view offset 2).
Definition getInt16 (view : list byte) (offset : Z) : result Z :=
  rmap (fun bs => to_signed 16 (be_unsigned bs)) (bytesAt view offset 2).
Definition getInt32 (view : list byte) (offset : Z) : result Z :=
  rmap (fun bs => to_signed 32 (be_unsigned bs)) (bytesAt view offset 4).
(** The IEEE-754 word under a float. *)
Definition getFloat32 (view : list byte) (offset : Z) : result Z :=
  rmap be_unsigned (bytesAt view offset 4).
Definition getFloat64 (view : list byte) (offset : Z) : result Z :=
  rmap be_unsigned (bytesAt view offset 8).

(** ** types.ts *)

Module TagType.
Abbreviation End := 0%Z (only parsing).
Abbreviation Byte := 1%Z (only parsing).
Abbreviation Short := 2%Z (only parsing).
Abbreviation Int := 3%Z (only parsing).
Abbreviation Long := 4%Z (only parsing).
Abbreviation Float := 5%Z (only parsing).
Abbreviation Double := 6%Z (only parsing).
Abbreviation ByteArray := 7%Z (only parsing).
Abbreviation String := 8%Z (only parsing).
Abbreviation List := 9%Z (only parsing).
Abbreviation Compound := 10%Z (only parsing).
Abbreviation IntArray := 11%Z (only parsing).
Abbreviation LongArray := 12%Z (only parsing).
End TagType.

(** The [value: any] of a tag, by the shapes the program builds. *)
Inductive Value (T : Type) : Type :=
| VUndefined
| VNull
| VNumber (n : Z)                       (* integral number *)
| VBigInt (n : Z)                       (* bigint *)
| VFloat (w : Z)                        (* number read from a 32-bit IEEE word *)
| VDouble (w : Z)                       (* number read from a 64-bit IEEE word *)
| VString (s : string)
| VNumArray (a : list Z)                (* array of numbers *)
| VBigArray (a : list Z)                (* array of bigints *)
| VList (itemType : Z) (list : list T)  (* { itemType, list } *)
| VTags (children : list T).            (* array of tags; also the literal [[]] *)
Arguments VUndefined {T}.
Arguments VNull {T}.
Arguments VNumber {T} n.
Arguments VBigInt {T} n.
Arguments VFloat {T} w.
Arguments VDouble {T} w.
Arguments VString {T} s.
Arguments VNumArray {T} a.
Arguments VBigArray {T} a.
Arguments VList {T} itemType list.
Arguments VTags {T} children.

Inductive NBTTag : Type :=
  mkTag { type : Z; name : option string; value : Value NBTTag }.

(** ** utils/nbtParser.ts: parseLong *)

Definition parseLong (view : list byte) (offset : Z) : result Z :=
  let! high := getInt32 view offset in
  let! low := getInt32 view (offset + 4) in
  Ok (Z.lor (Z.shiftl high 32) (Z.land low 0xFFFFFFFF)).

(** ** Platform services

    [TextEncoder.encode], [TextDecoder.decode] (UTF-8), [pako.ungzip] (which
    throws on a bad stream) and [pako.gzip]. *)
Record Platform : Type := mkPlatform {
  TextEncoder_encode : string -> list byte;
  TextDecoder_decode : list byte -> string;
  pako_ungzip : list byte -> option (list byte);
  pako_gzip : list byte -> list byte
}.

(** A platform to run the definitions on concrete, ASCII-only inputs: text is
    its own byte sequence and no stream inflates. *)
Definition ascii_platform : Platform :=
  {| TextEncoder_encode := list_byte_of_string;
     TextDecoder_decode := string_of_list_byte;
     pako_ungzip := fun _ => None;
     pako_gzip := fun bs => bs |}.

(** [arr[0] === 0x1f && arr[1] === 0x8b]; an index past the end reads
    [undefined]. *)
Definition hasGzipMagic (arr : list byte) : bool :=
  match arr with
  | b0 :: b1 :: _ => (byte_val b0 =? 0x1f) && (byte_val b1 =? 0x8b)
  | _ => false
  end.

(** A second platform to run the compressed path on: its [gzip] only frames
    the bytes behind the magic number and its [ungzip] takes the frame off. *)
Definition framing_platform : Platform :=
  {| TextEncoder_encode := list_byte_of_string;
     TextDecoder_decode := string_of_list_byte;
     pako_ungzip := fun bs => if hasGzipMagic bs then Some (drop 2 bs) else None;
     pako_gzip := fun bs => x1f :: x8b :: bs |}.

Section Codec.

Variable P : Platform.

(** ** utils/nbtParser.ts: class NBTParser

    [buffer] is [this.buffer] (and [this.view] over it); every method takes
    [this.offset] and returns the new one. *)

Definition readString (buffer : list byte) (offset : Z) : result (string * Z) :=
  let! len := getUint16 buffer offset in
  let offset := offset + 2 in
  let! strBuffer := bytesAt buffer offset len in
  let str := TextDecoder_decode P strBuffer in
  Ok (str, offset + len).

Fixpoint readTag (fuel : nat) (buffer : list byte)
    (isRoot : bool) (forcedType : option Z) (forcedName : option string)
    (offset : Z) {struct fuel} : result (NBTTag * Z) :=
  match fuel with
  | O => Throw OutOfFuel
  | S fuel =>
    let! (type, offset) :=
      match forcedType with
      | None => let! t := getUint8 buffer offset in Ok (t, offset + 1)
      | Some t => Ok (t, offset)
      end in
    if type =? TagType.End then Ok (mkTag type None VNull, offset)
    else
      let! (name, offset) :=
        match forcedName with
        | None =>
            if isRoot then
              let! (s, offset) := readString buffer offset in Ok (Some s, offset)
            else match forcedType with
                 | None =>
                     let! (s, offset) := readString buffer offset in
                     Ok (Some s, offset)
                 | Some _ => Ok (None, offset)
                 end
        | Some n => Ok (Some n, offset)
        end in
      let! (value, offset) :=
        match type with
        | TagType.Byte =>
            let! v := getInt8 buffer offset in Ok (VNumber v, offset + 1)
        | TagType.Short =>
            let! v := getInt16 buffer offset in Ok (VNumber v, offset + 2)
        | TagType.Int =>
            let! v := getInt32 buffer offset in Ok (VNumber v, offset + 4)
        | TagType.Long =>
            let! v := parseLong buffer offset in Ok (VBigInt v, offset + 8)
        | TagType.Float =>
            let! v := getFloat32 buffer offset in Ok (VFloat v, offset + 4)
        | TagType.Double =>
            let! v := getFloat64 buffer offset in Ok (VDouble v, offset + 8)
        | TagType.ByteArray =>
            let! lenByte := getInt32 buffer offset in
            let offset := offset + 4 in
            (* new Int8Array(this.buffer, this.offset, lenByte) *)
            let! bs := bytesAt buffer offset lenByte in
            Ok (VNumArray (map (fun b => to_signed 8 (byte_val b)) bs),
                offset + lenByte)
        | TagType.String =>
            let! (s, offset) := readString buffer offset in Ok (VString s, offset)
        | TagType.List =>
            let! itemType := getUint8 buffer offset in
            let offset := offset + 1 in
            let! listLen := getInt32 buffer offset in
            let offset := offset + 4 in
            let! (list, offset) :=
              repeatM (readTag fuel buffer false (Some itemType) None)
                      (Z.to_nat listLen) [] offset in
            Ok (VList itemType list, offset)
        | TagType.Compound =>
            readCompound fuel buffer [] offset
        | TagType.IntArray =>
            let! lenInt := getInt32 buffer offset in
            let offset := offset + 4 in
            let! (a, offset) :=
              repeatM (fun offset => let! v := getInt32 buffer offset in
                                     Ok (v, offset + 4))
                      (Z.to_nat lenInt) [] offset in
            Ok (VNumArray a, offset)
        | TagType.LongArray =>
            let! lenLong := getInt32 buffer offset in
            let offset := offset + 4 in
            let! (a, offset) :=
              repeatM (fun offset => let! v := parseLong buffer offset in
                                     Ok (v, offset + 8))
                      (Z.to_nat lenLong) [] offset in
            Ok (VBigArray a, offset)
        | _ => Ok (VUndefined, offset)
        end in
      Ok (mkTag type name value, offset)
  end

(** The [while (true)] of the Compound case; [value] is the array built so
    far. *)
with readCompound (fuel : nat) (buffer : list byte)
    (value : list NBTTag) (offset : Z) {struct fuel}
    : result (Value NBTTag * Z) :=
  match fuel with
  | O => Throw OutOfFuel
  | S fuel =>
    let! nextType := getUint8 buffer offset in
    if nextType =? TagType.End then Ok (VTags value, offset + 1)
    else
      let! (t, offset) := readTag fuel buffer false None None offset in
      readCompound fuel buffer (value ++ [t]) offset
  end.

(** [NBTParser.parse], from the bytes of the file on. *)
Definition parse (fuel : nat) (arr : list byte) : result (NBTTag * bool) :=
  let! (finalBuffer, isCompressed) :=
    if hasGzipMagic arr then
      match pako_ungzip P arr with
      | Some inflated => Ok (inflated, true)
      | None => Throw InvalidGzip
      end
    else Ok (arr, false) in
  let! (root, _) := readTag fuel finalBuffer true None None 0 in
  Ok (root, isCompressed).

(** The first part of [readTag] on its own (up to the [switch]), for a call
    with [forcedName = null]: the kind of the tag, its name and the offset of
    its payload. *)
Definition readHeader (buffer : list byte) (isRoot : bool) (forcedType : option Z)
    (offset : Z) : result (Z * option string * Z) :=
  let! (type, offset) :=
    match forcedType with
    | None => let! t := getUint8 buffer offset in Ok (t, offset + 1)
    | Some t => Ok (t, offset)
    end in
  if type =? TagType.End then Ok (type, None, offset)
  else
    let! (name, offset) :=
      if isRoot then
        let! (s, offset) := readString buffer offset in Ok (Some s, offset)
      else match forcedType with
           | None =>
               let! (s, offset) := readString buffer offset in
               Ok (Some s, offset)
           | Some _ => Ok (None, offset)
           end in
    Ok (type, name, offset).

(** ** utils/nbtParser.ts: class NBTWriter

    [buffer] is [this.buffer : number[]]; every method returns it extended. *)

Definition writeByte (b : Z) (buffer : list Z) : list Z :=
  buffer ++ [js_and b 0xFF].

Definition writeShort (s : Z) (buffer : list Z) : list Z :=
  buffer ++ [js_and (js_sar s 8) 0xFF; js_and s 0xFF].

Definition writeInt (i : Z) (buffer : list Z) : list Z :=
  buffer ++ [js_and (js_sar i 24) 0xFF; js_and (js_sar i 16) 0xFF;
             js_and (js_sar i 8) 0xFF; js_and i 0xFF].

Definition writeLong (l : Z) (buffer : list Z) : list Z :=
  let high := Number (Z.shiftr l 32) in
  let low := Number (Z.land l 0xFFFFFFFF) in
  let buffer := writeInt high buffer in
  writeInt low buffer.

(** Byte [i] of a [len]-byte scratch [DataView] that holds the word [w]. *)
Definition scratch_getUint8 (len : Z) (w : Z) (i : Z) : Z :=
  Z.land (Z.shiftr w (8 * (len - 1 - i))) 0xFF.

(** [setFloat32(0, f)], then [writeByte(view.getUint8(i))] for [i < 4]. *)
Definition writeFloat (w : Z) (buffer : list Z) : list Z :=
  fold_left (fun buffer i => writeByte (scratch_getUint8 4 w i) buffer)
            [0; 1; 2; 3] buffer.

Definition writeDouble (w : Z) (buffer : list Z) : list Z :=
  fold_left (fun buffer i => writeByte (scratch_getUint8 8 w i) buffer)
            [0; 1; 2; 3; 4; 5; 6; 7] buffer.

Definition writeString (s : string) (buffer : list Z) : list Z :=
  let bytes := TextEncoder_encode P s in
  let buffer := writeShort (Z.of_nat (length bytes)) buffer in
  fold_left (fun buffer b => writeByte (byte_val b) buffer) bytes buffer.

(** [for (const x of xs) step(x)] over the growing buffer. *)
Definition forOf {A} (step : A -> list Z -> result (list Z)) :
    list A -> list Z -> result (list Z) :=
  fix go (xs : list A) (buffer : list Z) : result (list Z) :=
    match xs with
    | [] => Ok buffer
    | x :: xs' => let! buffer := step x buffer in go xs' buffer
    end.

Fixpoint writeTag (tag : NBTTag) (isRoot skipHeader : bool) (buffer : list Z)
    {struct tag} : result (list Z) :=
  match tag with
  | mkTag type name value =>
    let buffer :=
      if skipHeader then buffer
      else
        let buffer := writeByte type buffer in
        match name with
        | Some n => writeString n buffer
        | None => if isRoot then writeString "" buffer else buffer
        end in
    match type with
    | TagType.Byte =>
        match value with
        | VNumber v => Ok (writeByte v buffer)
        | _ => Throw Unmodelled
        end
    | TagType.Short =>
        match value with
        | VNumber v => Ok (writeShort v buffer)
        | _ => Throw Unmodelled
        end
    | TagType.Int =>
        match value with
        | VNumber v => Ok (writeInt v buffer)
        | _ => Throw Unmodelled
        end
    | TagType.Long =>
        (* this.writeLong(BigInt(tag.value)) *)
        match value with
        | VBigInt v | VNumber v => Ok (writeLong v buffer)
        | _ => Throw Unmodelled
        end
    | TagType.Float =>
        match value with
        | VFloat w => Ok (writeFloat w buffer)
        | _ => Throw Unmodelled
        end
    | TagType.Double =>
        match value with
        | VDouble w => Ok (writeDouble w buffer)
        | _ => Throw Unmodelled
        end
    | TagType.ByteArray =>
        match value with
        | VNumArray a =>
            let buffer := writeInt (Z.of_nat (length a)) buffer in
            Ok (fold_left (fun buffer b => writeByte b buffer) a buffer)
        | _ => Throw Unmodelled
        end
    | TagType.String =>
        match value with
        | VString s => Ok (writeString s buffer)
        | _ => Throw Unmodelled
        end
    | TagType.List =>
        match value with
        | VList itemType list =>
            let buffer := writeByte itemType buffer in
            let buffer := writeInt (Z.of_nat (length list)) buffer in
            forOf (fun item buffer => writeTag item false true buffer)
                  list buffer
        | _ => Throw TypeError
        end
    | TagType.Compound =>
        match value with
        | VTags children =>
            let! buffer :=
              forOf (fun child buffer => writeTag child false false buffer)
                    children buffer in
            Ok (writeByte TagType.End buffer)
        | VNumArray _ | VBigArray _ | VString _ =>
            Throw Unmodelled               (* writeTag over numbers or characters *)
        | _ => Throw TypeError             (* not iterable *)
        end
    | TagType.IntArray =>
        match value with
        | VNumArray a =>
            let buffer := writeInt (Z.of_nat (length a)) buffer in
            Ok (fold_left (fun buffer i => writeInt i buffer) a buffer)
        | _ => Throw Unmodelled
        end
    | TagType.LongArray =>
        match value with
        | VBigArray a | VNumArray a =>
            let buffer := writeInt (Z.of_nat (length a)) buffer in
            Ok (fold_left (fun buffer l => writeLong l buffer) a buffer)
        | _ => Throw Unmodelled
        end
    | _ => Ok buffer
    end
  end.

(** [NBTWriter.write(root, compress)]. *)
Definition write (root : NBTTag) (compress : bool) : result (list byte) :=
  let! buffer := writeTag root true false [] in
  let bytes := map u8 buffer in
  Ok (if compress then pako_gzip P bytes else bytes).

(** ** Trees representable in the format

    What the round trip is stated for: every payload has the shape and the
    range of its kind, lengths fit their prefixes, text survives the
    platform's UTF-8 codec, a Compound child is named and is not an End tag,
    a List child is unnamed and of the declared element kind. *)

Definition in_range (lo hi : Z) (z : Z) : bool := (lo <=? z) && (z <? hi).

Definition text_ok (s : string) : bool :=
  bool_decide (TextDecoder_decode P (TextEncoder_encode P s) = s)
  && (Z.of_nat (length (TextEncoder_encode P s)) <? 2 ^ 16).

Definition name_ok (n : option string) : bool :=
  match n with
  | Some s => text_ok s
  | None => false
  end.

Definition is_None {A} (o : option A) : bool :=
  match o with
  | Some _ => false
  | None => true
  end.

Fixpoint wf_value (tag : NBTTag) : bool :=
  match tag with
  | mkTag ty _ v =>
    match ty, v with
    | TagType.End, VNull => true
    | TagType.Byte, VNumber v => in_range (- 2 ^ 7) (2 ^ 7) v
    | TagType.Short, VNumber v => in_range (- 2 ^ 15) (2 ^ 15) v
    | TagType.Int, VNumber v => in_range (- 2 ^ 31) (2 ^ 31) v
    | TagType.Long, VBigInt v => in_range (- 2 ^ 63) (2 ^ 63) v
    | TagType.Float, VFloat w => in_range 0 (2 ^ 32) w
    | TagType.Double, VDouble w => in_range 0 (2 ^ 64) w
    | TagType.ByteArray, VNumArray a =>
        (Z.of_nat (length a) <? 2 ^ 31) && forallb (in_range (- 2 ^ 7) (2 ^ 7)) a
    | TagType.String, VString s => text_ok s
    | TagType.List, VList itemType list =>
        in_range 0 13 itemType && (Z.of_nat (length list) <? 2 ^ 31)
        && forallb (fun item => (type item =? itemType) && is_None (name item)
                                && wf_value item) list
    | TagType.Compound, VTags children =>
        forallb (fun child => negb (type child =? TagType.End)
                              && name_ok (name child) && wf_value child) children
    | TagType.IntArray, VNumArray a =>
        (Z.of_nat (length a) <? 2 ^ 31) && forallb (in_range (- 2 ^ 31) (2 ^ 31)) a
    | TagType.LongArray, VBigArray a =>
        (Z.of_nat (length a) <? 2 ^ 31) && forallb (in_range (- 2 ^ 63) (2 ^ 63)) a
    | _, _ => false
    end
  end.

(** The root is named, unless it is an End tag. *)
Definition wf_root (root : NBTTag) : bool :=
  wf_value root
  && (if type root =? TagType.End then is_None (name root) else name_ok (name root)).

End Codec.

(** Recursion depth that [readTag] needs to read a tree back. *)
Fixpoint tagFuel (tag : NBTTag) : nat :=
  match tag with
  | mkTag _ _ value =>
    match value with
    | VList _ l | VTags l => S (S (list_sum (map (fun c => S (tagFuel c)) l)))
    | _ => 1%nat
    end
  end.

(** A Compound holds an array of tags and a List holds [{ itemType, list }],
    all the way down: the run-time shape that the tree utilities rely on. *)
Fixpoint shaped (tag : NBTTag) : bool :=
  match tag with
  | mkTag type _ value =>
    if type =? TagType.Compound then
      match value with
      | VTags children => forallb shaped children
      | _ => false
      end
    else if type =? TagType.List then
      match value with
      | VList _ list => forallb shaped list
      | _ => false
      end
    else true
  end.

(** ** Notions used by the proofs *)

Definition childrenOf (v : Value NBTTag) : list NBTTag :=
  match v with
  | VList _ l | VTags l => l
  | _ => []
  end.

(** [step] reads [x] back from the bytes of [w], wherever they stand in a
    buffer. *)
Definition ReadsAs {A} (step : list byte -> Z -> result (A * Z)) (x : A) (w : list Z) : Prop :=
  forall B pre rest off,
    B = pre ++ map u8 w ++ rest -> off = Z.of_nat (length pre) ->
    step B off = Ok (x, off + Z.of_nat (length w)).

(** The writer emits [w] for [t] and the reader reads [t'] back from it. *)
Definition Encodes (P : Platform) (t : NBTTag) (isRoot skip : bool) (forced : option Z)
    (t' : NBTTag) (w : list Z) : Prop :=
  (forall buf, writeTag P t isRoot skip buf = Ok (buf ++ w)) /\
  (forall fuel, (tagFuel t <= fuel)%nat ->
     ReadsAs (fun B off => readTag P fuel B isRoot forced None off) t' w).

Definition PayloadOk (P : Platform) (t : NBTTag) : Prop :=
  wf_value P t = true ->
  exists w, Encodes P t false true (Some (type t)) (mkTag (type t) None (value t)) w.

(** *** Truncated buffers

    [Stable m off lo]: a reader [m] that starts at [off] and succeeds on a
    buffer ends at or after [lo], gives the same result on every truncation
    that keeps what it read, and throws [RangeError] on a shorter one (unless
    it read nothing at all). *)
Definition Stable {A} (m : list byte -> result (A * Z)) (off lo : Z) : Prop :=
  forall B a off', m B = Ok (a, off') ->
    lo <= off' /\
    forall k : nat,
      (off' <= Z.of_nat k -> m (take k B) = Ok (a, off')) /\
      (Z.of_nat k < off' ->
         m (take k B) = Throw RangeError \/
         (off' = off /\ m (take k B) = Ok (a, off'))).

(** [StableFrom m lim]: as [Stable], for truncations that keep the first
    [lim] bytes, which [m] is known to have read. *)
Definition StableFrom {A} (m : list byte -> result (A * Z)) (lim : Z) : Prop :=
  forall B a off', m B = Ok (a, off') ->
    lim <= off' /\
    forall k : nat, lim <= Z.of_nat k ->
      (off' <= Z.of_nat k -> m (take k B) = Ok (a, off')) /\
      (Z.of_nat k < off' -> m (take k B) = Throw RangeError).

(** ** utils/treeUtils.ts *)

(** Deep clone to ensure immutability in history. *)
Fixpoint cloneTag (tag : NBTTag) : result NBTTag :=
  match tag with
  | mkTag type name value =>
    match value with
    | VTags children =>                    (* Array.isArray(tag.value) *)
        if type =? TagType.Compound
        then let! cs := mapM cloneTag children in Ok (mkTag type name (VTags cs))
        else Ok tag                        (* [...tag.value] *)
    | VNumArray _ | VBigArray _ =>
        if type =? TagType.Compound
        then Throw Unmodelled              (* cloneTag over numbers *)
        else Ok tag                        (* [...tag.value] *)
    | VList itemType list =>               (* a non-null object *)
        if type =? TagType.List
        then let! l := mapM cloneTag list in
             Ok (mkTag type name (VList itemType l))
        else Ok tag
    | _ => Ok tag                          (* { ...tag } *)
    end
  end.

(** [`${x}`] for a [string | null]. *)
Definition template (n : option string) : string :=
  match n with
  | Some s => s
  | None => "null"
  end.

(** [`${parentPath}.${child.name}`] and [`${parentPath}[${idx}]`]. *)
Definition compoundPath (parentPath : string) (child : NBTTag) : string :=
  parentPath +:+ "." +:+ template (name child).
Definition listPath (parentPath : string) (idx : nat) : string :=
  parentPath +:+ "[" +:+ pretty idx +:+ "]".

(** Flatten tree to paths, in visual order. *)
Fixpoint flattenTree (tag : NBTTag) (parentPath : string) : result (list string) :=
  match tag with
  | mkTag type name value =>
    if type =? TagType.Compound then
      match value with
      | VTags children =>
          let! ps := mapM (fun child =>
                             flattenTree child (compoundPath parentPath child))
                          children in
          Ok (parentPath :: concat ps)
      | VNumArray _ | VBigArray _ => Throw Unmodelled   (* flattenTree over numbers *)
      | _ => Throw TypeError                            (* no [forEach] *)
      end
    else if type =? TagType.List then
      match value with
      | VList _ list =>
          let! ps := mapiM (fun child idx =>
                              flattenTree child (listPath parentPath idx))
                           list 0%nat in
          Ok (parentPath :: concat ps)
      | _ => Throw TypeError
      end
    else Ok [parentPath]
  end.

(** [.filter(child => child !== null)]. *)
Definition filterNonNull {A} (l : list (option A)) : list A := omap id l.

(** The local [recursiveDelete] of [deleteNodesByPaths]. *)
Fixpoint recursiveDelete (pathsToDelete : gset string)
    (tag : NBTTag) (currentPath : string) : result (option NBTTag) :=
  match tag with
  | mkTag type name value =>
    if bool_decide (currentPath ∈ pathsToDelete) then Ok None
    else if type =? TagType.Compound then
      match value with
      | VTags children =>
          let! newValue :=
            mapM (fun child =>
                    recursiveDelete pathsToDelete child
                                    (compoundPath currentPath child))
                 children in
          Ok (Some (mkTag type name (VTags (filterNonNull newValue))))
      | VNumArray _ | VBigArray _ => Throw Unmodelled   (* recursiveDelete over numbers *)
      | _ => Throw TypeError                            (* no [map] *)
      end
    else if type =? TagType.List then
      match value with
      | VList itemType list =>
          let! newList :=
            mapiM (fun child idx =>
                     recursiveDelete pathsToDelete child
                                     (listPath currentPath idx))
                  list 0%nat in
          Ok (Some (mkTag type name (VList itemType (filterNonNull newList))))
      | _ => Throw TypeError
      end
    else Ok (Some tag)
  end.

(** Delete nodes that match the set of paths. *)
Definition deleteNodesByPaths (root : NBTTag) (pathsToDelete : gset string)
    : result NBTTag :=
  let! clone := cloneTag root in
  let! result := recursiveDelete pathsToDelete clone "root" in
  Ok (match result with
      | Some r => r
      | None => mkTag (type root) (name root) (VTags [])
      end).

(** ** Bulk deletion as the specification words it *)

Definition mapi {A B} (f : A -> nat -> B) : list A -> nat -> list B :=
  fix go (l : list A) (i : nat) : list B :=
    match l with
    | [] => []
    | x :: xs => f x i :: go xs (S i)
    end.

Inductive Labelled : Type :=
  LNode (path : string) (node : NBTTag) (kids : list Labelled).

Definition lpath (n : Labelled) : string :=
  match n with LNode p _ _ => p end.

Fixpoint annotate (tag : NBTTag) (path : string) : Labelled :=
  match tag with
  | mkTag ty _ v =>
    LNode path tag
      (if ty =? TagType.Compound then
         match v with
         | VTags children => map (fun c => annotate c (compoundPath path c)) children
         | _ => []
         end
       else if ty =? TagType.List then
         match v with
         | VList _ l => mapi (fun c idx => annotate c (listPath path idx)) l 0%nat
         | _ => []
         end
       else [])
  end.

Fixpoint labels (n : Labelled) : list string :=
  match n with
  | LNode p _ kids => p :: concat (map labels kids)
  end.

(** Children whose path is in the set are dropped whole; the others are
    kept, in order, and pruned in turn. *)
Definition survivors (S : gset string) (pr : Labelled -> Labelled) :
    list Labelled -> list Labelled :=
  fix go (ks : list Labelled) : list Labelled :=
    match ks with
    | [] => []
    | k :: ks' =>
        if bool_decide (lpath k ∈ S) then go ks' else pr k :: go ks'
    end.

Fixpoint prune (S : gset string) (n : Labelled) : Labelled :=
  match n with
  | LNode p t kids => LNode p t (survivors S (prune S) kids)
  end.

Fixpoint rebuild (n : Labelled) : NBTTag :=
  match n with
  | LNode _ t kids =>
    match t with
    | mkTag ty nm v =>
      if ty =? TagType.Compound then mkTag ty nm (VTags (map rebuild kids))
      else if ty =? TagType.List then
        match v with
        | VList itemType _ => mkTag ty nm (VList itemType (map rebuild kids))
        | _ => t
        end
      else t
    end
  end.

(** Bulk delete by path set: every node is labelled with its current path,
    the children whose label is in the set are dropped with their subtrees,
    the surviving children are collected again in their order.  The root
    itself is never deleted by this operation, whatever the set holds.  (The
    specification leaves the syntax of a path open: the labels are built from
    the segments that [flattenTree] uses.) *)
Definition spec_bulk_delete (root : NBTTag) (S : gset string) : NBTTag :=
  rebuild (prune S (annotate root "root")).

(** ** components/NBTNode.tsx: handleAddChild

    The result is the argument of [onUpdate], or [None] when [onUpdate] is
    not called. *)
Definition handleAddChild (tag : NBTTag) (parentType : Z) : result (option NBTTag) :=
  if type tag =? TagType.Compound then
    let newTag := mkTag TagType.String (Some "new_tag") (VString "value") in
    match value tag with
    | VTags children =>
        Ok (Some (mkTag (type tag) (name tag) (VTags (children ++ [newTag]))))
    | VNumArray _ | VBigArray _ | VString _ => Throw Unmodelled
    | _ => Throw TypeError                 (* not iterable *)
    end
  else if type tag =? TagType.List then
    match value tag with
    | VList itemType list =>
        let defaultValue := VNumber 0 in
        let defaultValue :=
          if itemType =? TagType.String then VString "" else defaultValue in
        let defaultValue :=
          if itemType =? TagType.Compound then VTags [] else defaultValue in
        let newTag := mkTag itemType None defaultValue in
        let newList := list ++ [newTag] in
        Ok (Some (mkTag (type tag) (name tag) (VList itemType newList)))
    | _ => Throw TypeError
    end
  else Ok None.

(** ** App.tsx: history management *)

Module App.

Record NBTFile : Type := mkFile {
  id : string;
  filename : string;
  root : NBTTag;
  isCompressed : bool;
  isModified : bool;
  undoStack : list NBTTag;
  redoStack : list NBTTag
}.

(** The React state of [App] that history and bulk deletion touch. *)
Record State : Type := mkState {
  files : list NBTFile;
  activeFileId : option string;
  selectedPaths : gset string
}.

(** [arr.slice(-n)]. *)
Definition sliceLast {A} (n : nat) (l : list A) : list A :=
  drop (length l - n)%nat l.

(** [files.find(f => f.id === activeFileId)]. *)
Definition activeFile (s : State) : option NBTFile :=
  match activeFileId s with
  | Some fid => find (fun f => String.eqb (id f) fid) (files s)
  | None => None
  end.

Definition pushHistory (fileId : string) (newRoot : NBTTag) (prev : list NBTFile)
    : result (list NBTFile) :=
  mapM (fun f =>
          if negb (String.eqb (id f) fileId) then Ok f
          else
            let! c := cloneTag (root f) in
            let newUndo := sliceLast 50 (undoStack f ++ [c]) in
            Ok {| id := id f; filename := filename f; root := newRoot;
                  isCompressed := isCompressed f; isModified := true;
                  undoStack := newUndo; redoStack := [] |})
       prev.

(** [!activeFileId] for a [string | null]: [null] and the empty string are
    falsy. *)
Definition noActiveFileId (a : option string) : bool :=
  match a with
  | None => true
  | Some fid => String.eqb fid ""
  end.

Definition updateActiveFileRoot (newRoot : NBTTag) (s : State) : result State :=
  match activeFileId s with
  | None => Ok s
  | Some fid =>
      if noActiveFileId (activeFileId s) then Ok s
      else
        let! fs := pushHistory fid newRoot (files s) in
        Ok {| files := fs; activeFileId := activeFileId s;
              selectedPaths := selectedPaths s |}
  end.

Definition handleUndo (s : State) : result State :=
  match activeFile s with
  | None => Ok s
  | Some activeFile =>
    match last (undoStack activeFile) with
    | None => Ok s                         (* undoStack.length === 0 *)
    | Some prevRoot =>
        let newUndo := removelast (undoStack activeFile) in
        let! c := cloneTag (root activeFile) in
        let newRedo := redoStack activeFile ++ [c] in
        Ok {| files :=
                map (fun f =>
                       if String.eqb (id f) (id activeFile)
                       then {| id := id f; filename := filename f;
                               root := prevRoot;
                               isCompressed := isCompressed f;
                               isModified := true;
                               undoStack := newUndo; redoStack := newRedo |}
                       else f)
                    (files s);
              activeFileId := activeFileId s;
              selectedPaths := selectedPaths s |}
    end
  end.

Definition handleRedo (s : State) : result State :=
  match activeFile s with
  | None => Ok s
  | Some activeFile =>
    match last (redoStack activeFile) with
    | None => Ok s                         (* redoStack.length === 0 *)
    | Some nextRoot =>
        let newRedo := removelast (redoStack activeFile) in
        let! c := cloneTag (root activeFile) in
        let newUndo := undoStack activeFile ++ [c] in
        Ok {| files :=
                map (fun f =>
                       if String.eqb (id f) (id activeFile)
                       then {| id := id f; filename := filename f;
                               root := nextRoot;
                               isCompressed := isCompressed f;
                               isModified := true;
                               undoStack := newUndo; redoStack := newRedo |}
                       else f)
                    (files s);
              activeFileId := activeFileId s;
              selectedPaths := selectedPaths s |}
    end
  end.

(** [deleteSelected]; [confirmed] is the answer to the [confirm] dialog. *)
Definition deleteSelected (confirmed : bool) (s : State) : result State :=
  match activeFile s with
  | None => Ok s
  | Some activeFile =>
    if (size (selectedPaths s) =? 0)%nat then Ok s
    else if negb confirmed then Ok s
    else
      let! newRoot := deleteNodesByPaths (root activeFile) (selectedPaths s) in
      let! s' := updateActiveFileRoot newRoot s in
      Ok {| files := files s'; activeFileId := activeFileId s';
            selectedPaths := ∅ |}
  end.

(** The entry that [handleFileUpload] pushes for a parsed file. *)
Definition newFile (fid fname : string) (r : NBTTag) (compressed : bool) : NBTFile :=
  {| id := fid; filename := fname; root := r; isCompressed := compressed;
     isModified := false; undoStack := []; redoStack := [] |}.

(** [handleFileUpload], after parsing: the new entries are appended and the
    first one becomes active when no file was. *)
Definition filesOpened (parsed : list (string * string * NBTTag * bool)) (s : State) : State :=
  let newFiles := map (fun '(fid, fname, r, c) => newFile fid fname r c) parsed in
  {| files := files s ++ newFiles;
     activeFileId :=
       match newFiles with
       | f :: _ => if noActiveFileId (activeFileId s) then Some (id f)
                   else activeFileId s
       | [] => activeFileId s
       end;
     selectedPaths := selectedPaths s |}.


(** [closeFile]. *)
Definition closeFile (fid : string) (s : State) : State :=
  let newFiles := List.filter (fun f => negb (String.eqb (id f) fid)) (files s) in
  {| files := newFiles;
     activeFileId :=
       match activeFileId s with
       | Some a => if String.eqb a fid then option_map id (last newFiles) else Some a
       | None => None
       end;
     selectedPaths := selectedPaths s |}.


(** What a user can do to the documents, one event at a time: upload files,
    close a tab, click a tab ([setActiveFileId]), change the selection
    ([handleSelect], [invertSelection], clear: any set of paths), commit an
    edited tree, delete the selection, undo, redo. *)
Inductive step : State -> State -> Prop :=
| step_open parsed s : step s (filesOpened parsed s)
| step_close fid s : step s (closeFile fid s)
| step_activate fid s :
    step s {| files := files s; activeFileId := Some fid;
              selectedPaths := selectedPaths s |}
| step_select paths s :
    step s {| files := files s; activeFileId := activeFileId s;
              selectedPaths := paths |}
| step_commit newRoot s s' : updateActiveFileRoot newRoot s = Ok s' -> step s s'
| step_delete s s' : deleteSelected true s = Ok s' -> step s s'
| step_undo s s' : handleUndo s = Ok s' -> step s s'
| step_redo s s' : handleRedo s = Ok s' -> step s s'.

Definition initial : State :=
  {| files := []; activeFileId := None; selectedPaths := ∅ |}.

Inductive reachable : State -> Prop :=
| reachable_initial : reachable initial
| reachable_step s s' : reachable s -> step s s' -> reachable s'.


(** A run of commits. *)
Fixpoint commits (roots : list NBTTag) (s : State) : result State :=
  match roots with
  | [] => Ok s
  | r :: roots' => let! s' := updateActiveFileRoot r s in commits roots' s'
  end.

(** The effect of a commit, an undo and a redo on one entry of [files]. *)
Definition committed (newRoot : NBTTag) (f : NBTFile) : NBTFile :=
  {| id := id f; filename := filename f; root := newRoot;
     isCompressed := isCompressed f; isModified := true;
     undoStack := sliceLast 50 (undoStack f ++ [root f]); redoStack := [] |}.

Definition bounded (f : NBTFile) : Prop :=
  (length (undoStack f) + length (redoStack f) <= 50)%nat.
Definition rootsShaped (s : State) : Prop :=
  Forall (fun g => shaped (root g) = true) (files s).
Definition undone (f : NBTFile) (prevRoot : NBTTag) : NBTFile :=
  {| id := id f; filename := filename f; root := prevRoot;
     isCompressed := isCompressed f; isModified := true;
     undoStack := removelast (undoStack f);
     redoStack := redoStack f ++ [root f] |}.
Definition redone (f : NBTFile) (nextRoot : NBTTag) : NBTFile :=
  {| id := id f; filename := filename f; root := nextRoot;
     isCompressed := isCompressed f; isModified := true;
     undoStack := undoStack f ++ [root f];
     redoStack := removelast (redoStack f) |}.
Definition allBounded (s : State) : Prop := Forall bounded (files s).

End App.

(** ** Sample documents

    The scenario of the specification, a Compound named [""] with one Int
    child [XpLevel = 5], and its bytes; a Compound with two children of the
    same name; a session with one open document. *)

Definition xpLevel : NBTTag :=
  mkTag TagType.Compound (Some "")
        (VTags [mkTag TagType.Int (Some "XpLevel") (VNumber 5)]).

Definition xpLevelBytes : list byte :=
  map u8 [10; 0; 0; 3; 0; 7; 88; 112; 76; 101; 118; 101; 108; 0; 0; 0; 5; 0].

Definition scores : NBTTag :=
  mkTag TagType.Compound (Some "")
        (VTags [mkTag TagType.List (Some "l")
                  (VList TagType.Int [mkTag TagType.Int None (VNumber 1);
                                      mkTag TagType.Int None (VNumber 2)])]).

Definition twins : NBTTag :=
  mkTag TagType.Compound (Some "")
        (VTags [mkTag TagType.Int (Some "a") (VNumber 1);
                mkTag TagType.Int (Some "a") (VNumber 2)]).

Definition session (root : NBTTag) (selection : gset string) : App.State :=
  {| App.files := [App.newFile "1" "level.dat" root false];
     App.activeFileId := Some "1";
     App.selectedPaths := selection |}.

(** ** components/NBTNode.tsx: the recursion handlers

    As for [handleAddChild], the result is the argument of [onUpdate], or
    [None] when [onUpdate] is not called.  [index] is the position that the
    rendering [map] gave to the child. *)

Definition handleChildUpdate (tag : NBTTag) (index : nat) (updatedChild : NBTTag)
    : result (option NBTTag) :=
  (* const newValue = [...tag.value]; *)
  match value tag with
  | VTags newValue =>
      if type tag =? TagType.List then Throw TypeError     (* [...undefined] *)
      else if type tag =? TagType.Compound then
        if (index <? length newValue)%nat
        then Ok (Some (mkTag (type tag) (name tag)
                         (VTags (<[index := updatedChild]> newValue))))
        else Throw Unmodelled              (* the array grows, with holes *)
      else Ok None
  | VNumArray _ | VBigArray _ | VString _ =>
      if type tag =? TagType.List then Throw TypeError     (* [...undefined] *)
      else if type tag =? TagType.Compound then Throw Unmodelled
      else Ok None
  | _ => Throw TypeError                   (* not iterable *)
  end.

Definition handleChildDelete (tag : NBTTag) (index : nat) : result (option NBTTag) :=
  if type tag =? TagType.List then
    match value tag with
    | VList itemType list =>
        (* newList.splice(index, 1) *)
        let newList := delete index list in
        Ok (Some (mkTag (type tag) (name tag) (VList itemType newList)))
    | _ => Throw TypeError                 (* [...undefined], or [null.list] *)
    end
  else if type tag =? TagType.Compound then
    match value tag with
    | VTags children =>
        let newValue := delete index children in
        Ok (Some (mkTag (type tag) (name tag) (VTags newValue)))
    | VNumArray _ | VBigArray _ | VString _ => Throw Unmodelled
    | _ => Throw TypeError                 (* not iterable *)
    end
  else Ok None.

(** The children that an expanded node renders:
    [(tag.value as NBTTag[]).map(...)] for a Compound and
    [(tag.value.list as NBTTag[]).map(...)] for a List, and none for the other
    kinds.  A value without [map] (or without [list]) makes the render
    throw. *)
Definition renderedChildren (tag : NBTTag) : result (list NBTTag) :=
  if type tag =? TagType.Compound then
    match value tag with
    | VTags children => Ok children
    | VNumArray _ | VBigArray _ => Throw Unmodelled   (* a node for each number *)
    | _ => Throw TypeError                            (* no [map] *)
    end
  else if type tag =? TagType.List then
    match value tag with
    | VList _ list => Ok list
    | _ => Throw TypeError                 (* [undefined.map], or [null.list] *)
    end
  else Ok [].

(** The child node that the render's [map] passes [idx], if there is one. *)
Definition childAt (tag : NBTTag) (idx : nat) : option NBTTag :=
  match renderedChildren tag with
  | Ok children => children !! idx
  | Throw _ => None
  end.

(** The node rendered at [indices] below [tag]: one child index per level. *)
Fixpoint nodeAt (tag : NBTTag) (indices : list nat) : option NBTTag :=
  match indices with
  | [] => Some tag
  | idx :: rest =>
      match childAt tag idx with
      | Some child => nodeAt child rest
      | None => None
      end
  end.

(** What reaches the [onUpdate] of [tag] when the node at [indices] below it
    calls its own [onUpdate] with [updated]: every ancestor was rendered with
    [onUpdate={(updated) => handleChildUpdate(idx, updated)}]. *)
Fixpoint bubble (tag : NBTTag) (indices : list nat) (updated : NBTTag)
    : result (option NBTTag) :=
  match indices with
  | [] => Ok (Some updated)
  | idx :: rest =>
      match childAt tag idx with
      | Some child =>
          let! r := bubble child rest updated in
          match r with
          | Some child' => handleChildUpdate tag idx child'
          | None => Ok None
          end
      | None => Ok None                    (* no such node on the screen *)
      end
  end.

(** [handleSave]: the edited name and text replace those of the tag.  The
    conversions of the platform are parameters: [parseInt] and [parseFloat]
    give [None] for [NaN], [BigInt] gives [None] where it throws a
    [SyntaxError].  The result is [None] when the handler ends in its [catch]
    ([alert], no [onUpdate]). *)
Record Conversions : Type := mkConversions {
  parseInt : string -> option Z;
  toBigInt : string -> option Z;
  parseFloat : string -> option Z          (* the double, as its IEEE-754 word *)
}.

Definition handleSave (C : Conversions) (tag : NBTTag) (editName editValue : string)
    : option NBTTag :=
  let newValue : option (Value NBTTag) :=
    if (type tag =? TagType.Byte) || (type tag =? TagType.Short)
       || (type tag =? TagType.Int)
    then option_map VNumber (parseInt C editValue)
    else if type tag =? TagType.Long
    then option_map VBigInt (toBigInt C editValue)
    else if (type tag =? TagType.Float) || (type tag =? TagType.Double)
    then option_map VDouble (parseFloat C editValue)
    else Some (VString editValue) in
  match newValue with
  | Some v => Some (mkTag (type tag) (Some editName) v)
  | None => None
  end.

(** Some proper ancestor of the node at [indices] below [tag], [tag]
    included, is a List. *)
Fixpoint belowList (tag : NBTTag) (indices : list nat) : bool :=
  match indices with
  | [] => false
  | idx :: rest =>
      (type tag =? TagType.List)
      || match childAt tag idx with
         | Some child => belowList child rest
         | None => false
         end
  end.

(** A player document for the examples: an experience level and an inventory
    of one stack. *)
Definition stoneStack : NBTTag :=
  mkTag TagType.Compound None
    (VTags [mkTag TagType.String (Some "id") (VString "minecraft:stone");
            mkTag TagType.Byte (Some "Count") (VNumber 64);
            mkTag TagType.Byte (Some "Slot") (VNumber 0)]).

Definition player : NBTTag :=
  mkTag TagType.Compound (Some "")
    (VTags [mkTag TagType.Int (Some "XpLevel") (VNumber 5);
            mkTag TagType.List (Some "Inventory")
                  (VList TagType.Compound [stoneStack])]).

(** Conversions for the examples: they know the texts below and nothing
    else. *)
Definition sampleConversions : Conversions :=
  {| parseInt := fun s => if String.eqb s "300" then Some 300 else None;
     toBigInt := fun s => if String.eqb s "9223372036854775808"
                          then Some 9223372036854775808 else None;
     parseFloat := fun _ => None |}.

(** ** App.tsx: selection, saving and the events of a session *)

Module Editor.
Import App.

(** The React state around the documents: [lastClickedPath] and the text of
    the search box stand beside [files], [activeFileId] and
    [selectedPaths]. *)
Record Session : Type := mkSession {
  app : State;
  lastClickedPath : option string
}.

Definition withSelection (paths : gset string) (s : State) : State :=
  {| files := files s; activeFileId := activeFileId s; selectedPaths := paths |}.

Inductive SelectType : Type := single | toggle | range.

(** [arr.indexOf(x)]: the first index of [x], [None] for [-1]. *)
Fixpoint indexOf (arr : list string) (x : string) : option nat :=
  match arr with
  | [] => None
  | y :: arr' =>
      if String.eqb y x then Some 0%nat else option_map S (indexOf arr' x)
  end.

(** [arr.slice(start, end)] for indices within the array. *)
Definition slice {A} (start stop : nat) (arr : list A) : list A :=
  take (stop - start) (drop start arr).

Definition handleSelect (path : string) (type : SelectType) (s : Session)
    : result Session :=
  match type with
  | single =>
      Ok {| app := withSelection {[ path ]} (app s);
            lastClickedPath := Some path |}
  | toggle =>
      let newSet :=
        if bool_decide (path ∈ selectedPaths (app s))
        then selectedPaths (app s) ∖ {[ path ]}
        else selectedPaths (app s) ∪ {[ path ]} in
      Ok {| app := withSelection newSet (app s); lastClickedPath := Some path |}
  | range =>
      match activeFile (app s), lastClickedPath s with
      | Some activeFile, Some lastClickedPath =>
          if String.eqb lastClickedPath "" then Ok s     (* falsy *)
          else
            let! allPaths := flattenTree (root activeFile) "root" in
            match indexOf allPaths lastClickedPath, indexOf allPaths path with
            | Some startIdx, Some endIdx =>
                let range := slice (Nat.min startIdx endIdx)
                                   (Nat.max startIdx endIdx + 1) allPaths in
                let newSet := selectedPaths (app s) ∪ list_to_set range in
                Ok {| app := withSelection newSet (app s);
                      lastClickedPath := Some lastClickedPath |}
            | _, _ => Ok s
            end
      | _, _ => Ok s
      end
  end.

Definition invertSelection (s : State) : result State :=
  match activeFile s with
  | None => Ok s
  | Some activeFile =>
      let! allPaths := flattenTree (root activeFile) "root" in
      let newSet : gset string :=
        list_to_set
          (List.filter (fun p => negb (String.eqb p "root")
                                 && negb (bool_decide (p ∈ selectedPaths s)))
                       allPaths) in
      Ok (withSelection newSet s)
  end.

(** [n] times Ctrl-Z. *)
Fixpoint undos (n : nat) (s : State) : result State :=
  match n with
  | O => Ok s
  | S n' => let! s' := handleUndo s in undos n' s'
  end.

Section Files.

Variable P : Platform.

(** [handleFileUpload] is [async]: it waits for [NBTParser.parse] on each
    file and ends, after the last [await], with
    [setFiles(prev => [...prev, ...newFiles])], which acts on the state [s] of
    that moment, and with
    [if (newFiles.length > 0 && !activeFileId) setActiveFileId(newFiles[0].id)],
    where [activeFileId] is the constant of the closure: the active id of
    the render in which the files were chosen, here [chosenWith].  Each
    uploaded file comes with the id that [crypto.randomUUID()] gives it; a
    file that does not parse is left out (after an [alert]).  [fuel] bounds
    the depth of the trees read. *)
Definition handleFileUpload (fuel : nat)
    (uploads : list (string * string * list byte))
    (chosenWith : option string) (s : State) : State :=
  let newFiles :=
    map (fun '(fid, fname, r, c) => newFile fid fname r c)
        (omap (fun '(fid, fname, bytes) =>
                 match parse P fuel bytes with
                 | Ok (r, c) => Some (fid, fname, r, c)
                 | Throw _ => None
                 end) uploads) in
  {| files := files s ++ newFiles;
     activeFileId :=
       match newFiles with
       | f :: _ => if noActiveFileId chosenWith then Some (id f) else activeFileId s
       | [] => activeFileId s
       end;
     selectedPaths := selectedPaths s |}.

(** [handleSaveFile]: the bytes handed to the download, if any, and the new
    state; when the writer throws there is an [alert] and nothing changes. *)
Definition handleSaveFile (file : NBTFile) (s : State) : option (list byte) * State :=
  match write P (root file) (isCompressed file) with
  | Ok bytes =>
      (Some bytes,
       {| files :=
            map (fun f =>
                   if String.eqb (id f) (id file)
                   then {| id := id f; filename := filename f; root := root f;
                           isCompressed := isCompressed f; isModified := false;
                           undoStack := undoStack f; redoStack := redoStack f |}
                   else f)
                (files s);
          activeFileId := activeFileId s;
          selectedPaths := selectedPaths s |})
  | Throw _ => (None, s)
  end.

(** The editor between two events: the React state, and the calls of
    [handleFileUpload] that wait for their files, each with the active id its
    closure holds and the files chosen. *)
Record Running : Type := mkRunning {
  session : Session;
  pending : list (option string * list (string * string * list byte))
}.

(** The events of a session, each with the handler it runs.  An upload is
    two events: the files are chosen ([handleFileUpload] starts and runs up
    to its first [await]), and later the files have been read (it resumes
    after its last [await]); any other event may come in between. *)
Inductive Event : Type :=
| ChooseFiles (uploads : list (string * string * list byte))
| FilesRead (k : nat)                      (* the upload at this place in [pending] *)
| Save                                     (* the button is off without a document *)
| CloseTab (tab : nat)                     (* the X of the tab at this position *)
| ClickTab (tab : nat)
| ClickRow (path : string) (type : SelectType)
| InvertSelection
| ClearSelection
| Commit (newRoot : NBTTag)                (* [onUpdate] of the root node *)
| DeleteSelected (confirmed : bool)
| Undo
| Redo.

Definition withApp (s : Session) (a : State) : Session :=
  {| app := a; lastClickedPath := lastClickedPath s |}.

Definition handle (fuel : nat) (e : Event) (r : Running) : result Running :=
  let s := session r in
  let go (m : result Session) : result Running :=
    rmap (fun s' => mkRunning s' (pending r)) m in
  match e with
  | ChooseFiles uploads =>
      Ok (mkRunning s (pending r ++ [(activeFileId (app s), uploads)]))
  | FilesRead k =>
      match pending r !! k with
      | Some (chosenWith, uploads) =>
          Ok (mkRunning (withApp s (handleFileUpload fuel uploads chosenWith (app s)))
                        (delete k (pending r)))
      | None => Ok r
      end
  | Save =>
      match activeFile (app s) with
      | Some file => go (Ok (withApp s (snd (handleSaveFile file (app s)))))
      | None => Ok r
      end
  | CloseTab tab =>
      match files (app s) !! tab with
      | Some file => go (Ok (withApp s (closeFile (id file) (app s))))
      | None => Ok r
      end
  | ClickTab tab =>
      match files (app s) !! tab with
      | Some file =>
          go (Ok (withApp s {| files := files (app s); activeFileId := Some (id file);
                               selectedPaths := selectedPaths (app s) |}))
      | None => Ok r
      end
  | ClickRow path type => go (handleSelect path type s)
  | InvertSelection => go (rmap (withApp s) (invertSelection (app s)))
  | ClearSelection => go (Ok (withApp s (withSelection ∅ (app s))))
  | Commit newRoot => go (rmap (withApp s) (updateActiveFileRoot newRoot (app s)))
  | DeleteSelected confirmed =>
      go (rmap (withApp s) (deleteSelected confirmed (app s)))
  | Undo => go (rmap (withApp s) (handleUndo (app s)))
  | Redo => go (rmap (withApp s) (handleRedo (app s)))
  end.

Fixpoint run (fuel : nat) (events : list Event) (r : Running) : result Running :=
  match events with
  | [] => Ok r
  | e :: events' => let! r' := handle fuel e r in run fuel events' r'
  end.

End Files.

Definition start : Running :=
  {| session := {| app := initial; lastClickedPath := None |}; pending := [] |}.

(** The runs in which nothing happens while an upload reads its files: the
    files are read right after they are chosen. *)
Fixpoint uploadsAtOnce (events : list Event) : bool :=
  match events with
  | [] => true
  | ChooseFiles _ :: rest =>
      match rest with
      | FilesRead 0 :: rest' => uploadsAtOnce rest'
      | _ => false
      end
  | FilesRead _ :: _ => false
  | _ :: rest => uploadsAtOnce rest
  end.

(** The active id is the id of an open tab. *)
Definition activeAmongOpen (s : State) : Prop :=
  forall a, activeFileId s = Some a -> exists f, In f (files s) /\ id f = a.

(** A tab is open if and only if one is active, and the active id is the id
    of an open tab. *)
Definition activeIsOpen (s : State) : Prop :=
  match activeFileId s with
  | Some a => exists f, In f (files s) /\ id f = a
  | None => files s = []
  end.

End Editor.

(** A session for the examples: two documents, the first one active, edited
    once and undone once. *)
Definition edited : App.State :=
  {| App.files :=
       [ {| App.id := "1"; App.filename := "level.dat"; App.root := twins;
            App.isCompressed := false; App.isModified := true;
            App.undoStack := [xpLevel]; App.redoStack := [player] |};
         App.newFile "2" "map.dat" player false ];
     App.activeFileId := Some "1";
     App.selectedPaths := {[ "root.a" ]} |}.

(** A reader that succeeds on a buffer gives the same result on every
    extension of that buffer. *)
Definition Extends {A} (m : list byte -> result A) : Prop :=
  forall B E a, m B = Ok a -> m (B ++ E) = Ok a.

(** A tree of known kinds whose texts survive the platform's UTF-8 codec and
    fit the 16-bit length prefix ([text_ok]): what a decoded tree needs,
    beyond what the decoder itself ensures, to be written back. *)
Fixpoint plain (P : Platform) (tag : NBTTag) : bool :=
  match tag with
  | mkTag ty nm v =>
      in_range 0 13 ty
      && match nm with
         | Some s => text_ok P s
         | None => true
         end
      && match v with
         | VString s => text_ok P s
         | VList itemType list => in_range 0 13 itemType && forallb (plain P) list
         | VTags children => forallb (plain P) children
         | _ => true
         end
  end.

(** ** components/NBTNode.tsx: the search

    Lower-casing and the text of a number are the platform's. *)
Record Texts : Type := mkTexts {
  toLowerCase : string -> string;
  numberText : Value NBTTag -> string      (* [String(v)] for a number or bigint *)
}.

(** [s.includes(searchString)]. *)
Fixpoint includes (s searchString : string) : bool :=
  String.prefix searchString s
  || match s with
     | EmptyString => false
     | String _ s' => includes s' searchString
     end.

(** [xs.some(p)] where [p] may throw. *)
Definition someM {A} (p : A -> result bool) : list A -> result bool :=
  fix go (xs : list A) : result bool :=
    match xs with
    | [] => Ok false
    | x :: xs' => let! b := p x in if b then Ok true else go xs'
    end.

(** [String(v)] for a [v] that is not an object. *)
Definition toText (T : Texts) (v : Value NBTTag) : string :=
  match v with
  | VString s => s
  | VUndefined => "undefined"
  | _ => numberText T v
  end.

(** [v !== null && typeof v !== 'object' &&
     String(v).toLowerCase().includes(term)]. *)
Definition valueMatches (T : Texts) (v : Value NBTTag) (term : string) : bool :=
  match v with
  | VNull | VNumArray _ | VBigArray _ | VList _ _ | VTags _ => false
  | _ => includes (toLowerCase T (toText T v)) term
  end.

Fixpoint checkMatch (T : Texts) (t : NBTTag) (term : string) {struct t} : result bool :=
  if String.eqb term EmptyString then Ok false
  else
    let termLower := toLowerCase T term in
    match t with
    | mkTag type name value =>
      if match name with
         | Some n => negb (String.eqb n EmptyString)
                     && includes (toLowerCase T n) termLower
         | None => false
         end
      then Ok true
      else if valueMatches T value termLower then Ok true
      else if type =? TagType.List then
        match value with
        | VList _ list => someM (fun c => checkMatch T c term) list
        | VUndefined | VNull => Throw TypeError      (* [t.value.list] *)
        | _ => Ok false                              (* no [list] *)
        end
      else if type =? TagType.Compound then
        match value with
        | VTags children => someM (fun c => checkMatch T c term) children
        | VNumArray a | VBigArray a =>
            (* a number has no [name], [value] or [type] *)
            someM (fun _ => Ok (valueMatches T VUndefined termLower)) a
        | _ => Ok false                              (* not an array *)
        end
      else Ok false
    end.

(** The [isDirectMatch] of a node: it is drawn with a yellow ring. *)
Definition isDirectMatch (T : Texts) (tag : NBTTag) (searchTerm : string) : bool :=
  if String.eqb searchTerm EmptyString then false
  else
    let term := toLowerCase T searchTerm in
    let nameMatch :=
      match name tag with
      | Some n => includes (toLowerCase T n) term
      | None => false
      end in
    let valMatch := valueMatches T (value tag) term in
    nameMatch || valMatch.

(** Lower-casing of the letters A to Z, and integers in decimal. *)
Definition asciiTexts : Texts :=
  {| toLowerCase :=
       fix lower (s : string) : string :=
         match s with
         | EmptyString => EmptyString
         | String c s' =>
             let n := Ascii.nat_of_ascii c in
             String (if (65 <=? n)%nat && (n <=? 90)%nat
                     then Ascii.ascii_of_nat (n + 32) else c)
                    (lower s')
         end;
     numberText := fun v => match v with
                            | VNumber n | VBigInt n => pretty n
                            | _ => "NaN"
                            end |}.

(** ** components/PlayerPreview.tsx *)

(** [for] each element, a step that may throw, over a state. *)
Definition forEachM {A St} (step : St -> A -> result St) : list A -> St -> result St :=
  fix go (xs : list A) (st : St) : result St :=
    match xs with
    | [] => Ok st
    | x :: xs' => let! st := step st x in go xs' st
    end.

(** [xs.find(p)] where [p] may throw. *)
Definition findM {A} (p : A -> result bool) : list A -> result (option A) :=
  fix go (xs : list A) : result (option A) :=
    match xs with
    | [] => Ok None
    | x :: xs' => let! b := p x in if b then Ok (Some x) else go xs'
    end.

(** [t.name === s]. *)
Definition named (s : string) (t : NBTTag) : bool :=
  match name t with
  | Some n => String.eqb n s
  | None => false
  end.

(** [v === s] for a string [s]. *)
Definition is_string (v : Value NBTTag) (s : string) : bool :=
  match v with
  | VString x => String.eqb x s
  | _ => false
  end.

(** The number held by an IEEE-754 word of [ebits] exponent bits and [mbits]
    fraction bits is [+0], [-0] or [NaN]. *)
Definition zero_or_nan (ebits mbits w : Z) : bool :=
  let fraction := w mod 2 ^ mbits in
  let exponent := (w / 2 ^ mbits) mod 2 ^ ebits in
  ((exponent =? 0) && (fraction =? 0))
  || ((exponent =? 2 ^ ebits - 1) && negb (fraction =? 0)).

(** ECMAScript [ToBoolean]. *)
Definition truthy (v : Value NBTTag) : bool :=
  match v with
  | VUndefined | VNull => false
  | VNumber n | VBigInt n => negb (n =? 0)
  | VFloat w => negb (zero_or_nan 8 23 w)
  | VDouble w => negb (zero_or_nan 11 52 w)
  | VString s => negb (String.eqb s EmptyString)
  | VNumArray _ | VBigArray _ | VList _ _ | VTags _ => true
  end.

(** [v || d]. *)
Definition orElse (v d : Value NBTTag) : Value NBTTag :=
  if truthy v then v else d.

(** [t?.value]. *)
Definition valueOf (t : option NBTTag) : Value NBTTag :=
  match t with
  | Some t => value t
  | None => VUndefined
  end.

Module PlayerPreview.

Record Item : Type := mkItem {
  id : Value NBTTag;
  count : Value NBTTag;
  slot : Value NBTTag;                     (* [VUndefined] without a Slot tag *)
  tag : option NBTTag
}.

Definition findTag (tag : NBTTag) (name : string) : result (option NBTTag) :=
  if negb (type tag =? TagType.Compound) then Ok None
  else
    match value tag with
    | VTags children => Ok (List.find (named name) children)
    | VNumArray _ | VBigArray _ => Ok None   (* a number has no [name] *)
    | _ => Throw TypeError                   (* no [find] *)
    end.

Definition parseItems (listTag : option NBTTag) : result (list Item) :=
  match listTag with
  | None => Ok []
  | Some listTag =>
      if negb (type listTag =? TagType.List) then Ok []
      else
        match value listTag with
        | VList _ list =>
            mapM (fun itemTag =>
                    let! idTag := findTag itemTag "id" in
                    let! countTag := findTag itemTag "Count" in
                    let! slotTag := findTag itemTag "Slot" in
                    let! tagTag := findTag itemTag "tag" in
                    let rawId := orElse (valueOf idTag) (VString "air") in
                    Ok {| id := rawId;
                          count := orElse (valueOf countTag) (VNumber 0);
                          slot := valueOf slotTag;
                          tag := tagTag |})
                 list
        | _ => Throw TypeError               (* [undefined.map], or [null.list] *)
        end
  end.

(** What [useMemo] returns for [parsedData]. *)
Record ParsedData : Type := mkParsedData {
  health : Value NBTTag;
  maxHealth : Value NBTTag;
  food : Value NBTTag;
  xp : Value NBTTag;
  armor : gmap Z Item;                     (* [{[key: number]: Item}] *)
  inventory : list (option Item);          (* [None] is [null] *)
  hotbar : list (option Item);
  offhand : option Item;
  curiosItems : list (Value NBTTag * list Item)
}.

(** The four containers of section 3. *)
Record Cells : Type := mkCells {
  c_armor : gmap Z Item;
  c_inventory : list (option Item);
  c_hotbar : list (option Item);
  c_offhand : option Item
}.

(** The body of [allItems.forEach]. *)
Definition placeItem (cells : Cells) (item : Item) : result Cells :=
  match slot item with
  | VUndefined => Ok cells
  | VNumber n =>
      if (100 <=? n) && (n <=? 103)
      then Ok (mkCells (<[n := item]> (c_armor cells)) (c_inventory cells)
                       (c_hotbar cells) (c_offhand cells))
      else if n =? -106
      then Ok (mkCells (c_armor cells) (c_inventory cells) (c_hotbar cells) (Some item))
      else if (0 <=? n) && (n <=? 8)
      then Ok (mkCells (c_armor cells) (c_inventory cells)
                       (<[Z.to_nat n := Some item]> (c_hotbar cells)) (c_offhand cells))
      else if (9 <=? n) && (n <=? 35)
      then Ok (mkCells (c_armor cells)
                       (<[Z.to_nat (n - 9) := Some item]> (c_inventory cells))
                       (c_hotbar cells) (c_offhand cells))
      else Ok cells
  | VBigInt n =>                           (* the property key of [101n] is ["101"] *)
      if (100 <=? n) && (n <=? 103)
      then Ok (mkCells (<[n := item]> (c_armor cells)) (c_inventory cells)
                       (c_hotbar cells) (c_offhand cells))
      else if (0 <=? n) && (n <=? 8)
      then Ok (mkCells (c_armor cells) (c_inventory cells)
                       (<[Z.to_nat n := Some item]> (c_hotbar cells)) (c_offhand cells))
      else if (9 <=? n) && (n <=? 35)
      then Throw TypeError                 (* [item.slot - 9] mixes bigint and number *)
      else Ok cells
  | _ => Throw Unmodelled                  (* compared after a conversion to number *)
  end.

(** The body of [curiosList.value.list.forEach]: what it pushes, if
    anything. *)
Definition curiosOf (slotTypeTag : NBTTag) : result (option (Value NBTTag * list Item)) :=
  let! identifierTag := findTag slotTypeTag "Identifier" in
  let identifier := valueOf identifierTag in
  let! stacksHandler := findTag slotTypeTag "StacksHandler" in
  match stacksHandler with
  | None => Ok None
  | Some stacksHandler =>
      let! stacksCompound := findTag stacksHandler "Stacks" in
      match stacksCompound with
      | None => Ok None
      | Some stacksCompound =>
          let! itemsList := findTag stacksCompound "Items" in
          match itemsList with
          | None => Ok None
          | Some itemsList =>
              if type itemsList =? TagType.List then
                let! itemsInSlot := parseItems (Some itemsList) in
                let validItems :=
                  List.filter (fun i => truthy (id i)
                                        && negb (is_string (id i) "minecraft:air")
                                        && negb (is_string (id i) "air"))
                              itemsInSlot in
                if (0 <? length validItems)%nat
                then Ok (Some (orElse identifier (VString "unknown"), validItems))
                else Ok None
              else Ok None
          end
      end
  end.

Definition parsedData (root : NBTTag) : result ParsedData :=
  (* 1 *)
  let! healthTag := findTag root "Health" in
  let! health :=
    if truthy (valueOf healthTag) then Ok (valueOf healthTag)
    else let! healF := findTag root "HealF" in
         Ok (orElse (valueOf healF) (VNumber 20)) in
  let! foodLevel := findTag root "foodLevel" in
  let food := orElse (valueOf foodLevel) (VNumber 20) in
  let! xpLevel := findTag root "XpLevel" in
  let xp := orElse (valueOf xpLevel) (VNumber 0) in
  (* 2 *)
  let! attributes := findTag root "Attributes" in
  let! maxHealth :=
    match attributes with
    | None => Ok (VNumber 20)
    | Some attributes =>
        if type attributes =? TagType.List then
          match value attributes with
          | VList _ list =>
              let! healthAttr :=
                findM (fun a => let! nameTag := findTag a "Name" in
                                Ok (is_string (valueOf nameTag)
                                              "minecraft:generic.max_health"))
                      list in
              match healthAttr with
              | Some healthAttr =>
                  let! base := findTag healthAttr "Base" in
                  Ok (orElse (valueOf base) (VNumber 20))
              | None => Ok (VNumber 20)
              end
          | _ => Throw TypeError             (* [undefined.find], or [null.list] *)
          end
        else Ok (VNumber 20)
    end in
  (* 3 *)
  let! inventoryTag := findTag root "Inventory" in
  let! allItems := parseItems inventoryTag in
  let! cells := forEachM placeItem allItems
                         (mkCells ∅ (replicate 27 None) (replicate 9 None) None) in
  (* 4 *)
  let! forgeCaps := findTag root "ForgeCaps" in
  let! curiosItems :=
    match forgeCaps with
    | None => Ok []
    | Some forgeCaps =>
        let! curiosInv := findTag forgeCaps "curios:inventory" in
        match curiosInv with
        | None => Ok []
        | Some curiosInv =>
            let! curiosList := findTag curiosInv "Curios" in
            match curiosList with
            | None => Ok []
            | Some curiosList =>
                if type curiosList =? TagType.List then
                  match value curiosList with
                  | VList _ list =>
                      let! pushed := mapM curiosOf list in Ok (omap (fun x => x) pushed)
                  | _ => Throw TypeError     (* [undefined.forEach], or [null.list] *)
                  end
                else Ok []
            end
        end
    end in
  Ok {| health := health; maxHealth := maxHealth; food := food; xp := xp;
        armor := c_armor cells; inventory := c_inventory cells;
        hotbar := c_hotbar cells; offhand := c_offhand cells;
        curiosItems := curiosItems |}.

(** The item's slot is the number (or bigint) [k]. *)
Definition slotIs (k : Z) (item : Item) : bool :=
  match slot item with
  | VNumber n | VBigInt n => n =? k
  | _ => false
  end.

(** The item's slot is the number [k]. *)
Definition slotIsNumber (k : Z) (item : Item) : bool :=
  match slot item with
  | VNumber n => n =? k
  | _ => false
  end.

(** The cell that the last item with the slot [k] takes, if there is one. *)
Definition lastOr {A} (found : option Item) (f : Item -> A) (before : A) : A :=
  match found with
  | Some item => f item
  | None => before
  end.

End PlayerPreview.

(** A survival player: no food left, a stone stack in the first cell of the
    hotbar and a later stack in the same slot. *)
Definition dirtStack : NBTTag :=
  mkTag TagType.Compound None
    (VTags [mkTag TagType.String (Some "id") (VString "minecraft:dirt");
            mkTag TagType.Byte (Some "Count") (VNumber 3);
            mkTag TagType.Byte (Some "Slot") (VNumber 0)]).

Definition starving : NBTTag :=
  mkTag TagType.Compound (Some EmptyString)
    (VTags [mkTag TagType.Int (Some "foodLevel") (VNumber 0);
            mkTag TagType.List (Some "Inventory")
                  (VList TagType.Compound [stoneStack; dirtStack])]).

(** ** Tactics for the preview *)

(** Split on the tests of a slot number that [H] still holds. *)
Ltac slot_cases H :=
  repeat match type of H with
         | context [(?a <=? ?b) && (?c <=? ?d)] =>
             destruct (Z.leb_spec a b); destruct (Z.leb_spec c d); cbn [andb] in H
         | context [?a =? ?b] => destruct (Z.eqb_spec a b)
         end.

(** Take the next stage of a sequence of steps that has succeeded. *)
Ltac stage H x E :=
  match type of H with
  | bind ?m _ = Ok _ =>
      destruct m as [x|] eqn:E; [cbn [bind] in H|discriminate H]
  end.

(** ** Proof tactics *)

Create Rewrite HintDb frame_len.

Ltac frame := subst; rewrite ?concat_cons; rewrite ?map_app; rewrite <- ?app_assoc;
  autorewrite with frame_len;
  first [reflexivity | lia | simpl; lia | f_equal; lia ].

Ltac kind_cases ty H :=
  destruct ty as [|ty|ty];
  [ cbn in H; try discriminate H
  | do 4 (try (destruct ty as [ty|ty|]; cbn in H; try discriminate H))
    | cbn in H; try discriminate H ].

Ltac read_step := cbn [readTag readCompound Z.eqb Pos.eqb bind].
Ltac write_step := cbn [writeTag bind].

Ltac fuel_pos fuel Hf :=
  destruct fuel as [|fuel]; [simpl in Hf; lia|].

Ltac pos_cases p := do 4 (try destruct p as [p|p|]).

(** * Proofs *)

(** ** Bytes and wrap-around arithmetic *)

Lemma byte_val_range b : 0 <= byte_val b < 256.
Proof.
  unfold byte_val. pose proof (Byte.to_N_bounded b). lia.
Qed.

Lemma byte_val_u8 z : byte_val (u8 z) = z mod 256.
Proof.
  unfold byte_val, u8.
  pose proof (Z.mod_pos_bound z 256 ltac:(lia)) as Hr.
  destruct (Byte.of_N (Z.to_N (z mod 256))) as [b|] eqn:E.
  - apply Byte.to_of_N in E. rewrite E. lia.
  - apply Byte.of_N_None_iff in E. lia.
Qed.

Lemma u8_byte_val b : u8 (byte_val b) = b.
Proof.
  unfold u8, byte_val. pose proof (Byte.to_N_bounded b).
  rewrite Z.mod_small by lia. rewrite N2Z.id, Byte.of_to_N. reflexivity.
Qed.

(** *** Wrap-around arithmetic *)

Lemma wrap_signed_congr w z : 0 < w -> exists c, wrap_signed w z = z + c * 2 ^ w.
Proof.
  intros Hw. unfold wrap_signed.
  assert (0 < 2 ^ w) by (apply Z.pow_pos_nonneg; lia).
  pose proof (Z.div_mod z (2 ^ w) ltac:(lia)) as Hd.
  destruct (z mod 2 ^ w <? 2 ^ (w - 1)).
  - exists (- (z / 2 ^ w)). lia.
  - exists (- (z / 2 ^ w) - 1). lia.
Qed.

Lemma wrap_signed_small w z :
  0 < w -> - 2 ^ (w - 1) <= z < 2 ^ (w - 1) -> wrap_signed w z = z.
Proof.
  intros Hw Hz. unfold wrap_signed.
  assert (Hp : 2 ^ w = 2 * 2 ^ (w - 1)).
  { rewrite <- Z.pow_succ_r by lia. f_equal. lia. }
  assert (0 < 2 ^ (w - 1)) by (apply Z.pow_pos_nonneg; lia).
  destruct (Z.neg_nonneg_cases z) as [Hneg|Hpos].
  - assert (z mod 2 ^ w = z + 2 ^ w) as ->.
    { symmetry. apply (Z.mod_unique_pos _ _ (-1)); lia. }
    destruct (Z.ltb_spec (z + 2 ^ w) (2 ^ (w - 1))); lia.
  - rewrite Z.mod_small by lia.
    destruct (Z.ltb_spec z (2 ^ (w - 1))); lia.
Qed.

Lemma wrap_signed_to_signed w z :
  wrap_signed w z = to_signed w (z mod 2 ^ w).
Proof. reflexivity. Qed.

Lemma shifted_byte_congr x c k :
  0 <= k <= 24 -> ((x + c * 2 ^ 32) / 2 ^ k) mod 256 = (x / 2 ^ k) mod 256.
Proof.
  intros Hk.
  assert (E : c * 2 ^ 32 = (c * 2 ^ (24 - k) * 256) * 2 ^ k).
  { replace 256 with (2 ^ 8) by reflexivity.
    rewrite <- !Z.mul_assoc, <- !Z.pow_add_r by lia. do 2 f_equal. lia. }
  rewrite E, Z.div_add by (apply Z.pow_nonzero; lia).
  rewrite Z.mul_comm with (m := 256), Z.add_comm, Z.mul_comm.
  rewrite Z.mul_comm.
  rewrite Z.add_comm.
  rewrite <- Z.add_mod_idemp_r by lia.
  rewrite Z.mul_comm, Z.mod_mul by lia. f_equal. lia.
Qed.

Lemma js_and_0xFF a : js_and a 0xFF = a mod 256.
Proof.
  unfold js_and. change (ToInt32 0xFF) with (Z.ones 8).
  rewrite Z.land_ones by lia. change (2 ^ 8) with 256.
  destruct (wrap_signed_congr 32 a ltac:(lia)) as [c Hc].
  unfold ToInt32. rewrite Hc.
  pose proof (shifted_byte_congr a c 0 ltac:(lia)) as H.
  change (2 ^ 0) with 1 in H. now rewrite !Z.div_1_r in H.
Qed.

Lemma js_sar_byte a k :
  0 <= k <= 24 -> js_and (js_sar a k) 0xFF = (a / 2 ^ k) mod 256.
Proof.
  intros Hk. rewrite js_and_0xFF. unfold js_sar.
  rewrite (Z.mod_small k 32) by lia.
  rewrite Z.shiftr_div_pow2 by lia.
  destruct (wrap_signed_congr 32 a ltac:(lia)) as [c Hc].
  unfold ToInt32. rewrite Hc. now apply shifted_byte_congr.
Qed.

Lemma split_low_byte x k :
  0 <= k -> x mod 2 ^ (k + 8) = (x / 2 ^ k) mod 256 * 2 ^ k + x mod 2 ^ k.
Proof.
  intros Hk. rewrite Z.pow_add_r by lia. change (2 ^ 8) with 256.
  assert (0 < 2 ^ k) by (apply Z.pow_pos_nonneg; lia).
  rewrite Z.rem_mul_r by lia. lia.
Qed.

Lemma Number_exact b : Z.abs b < 2 ^ 53 -> Number b = b.
Proof.
  intros Hb. unfold Number.
  destruct (Z.ltb_spec (Z.abs b) (2 ^ 53)); [reflexivity | lia].
Qed.

Lemma lor_shiftl_low a b n :
  0 <= n -> 0 <= b < 2 ^ n -> Z.lor (Z.shiftl a n) b = a * 2 ^ n + b.
Proof.
  intros Hn Hb.
  assert (Hland : Z.land (Z.shiftl a n) b = 0).
  { apply Z.bits_inj'. intros i Hi.
    rewrite Z.land_spec, Z.bits_0.
    destruct (Z.lt_ge_cases i n) as [Hlt|Hge].
    - now rewrite Z.shiftl_spec_low.
    - assert (Z.testbit b i = false) as ->; [|apply andb_false_r].
      destruct (Z.eq_dec b 0) as [->|Hnz]; [apply Z.bits_0|].
      apply Z.bits_above_log2; [lia|].
      assert (Z.log2 b < n) by (apply Z.log2_lt_pow2; lia). lia. }
  pose proof (Z.add_lor_land (Z.shiftl a n) b) as H.
  rewrite Hland in H. rewrite Z.shiftl_mul_pow2 in H by lia.
  rewrite Z.shiftl_mul_pow2 by lia. lia.
Qed.

(** *** Buffers *)

Lemma bytesAt_frame (pre w rest : list byte) off n :
  off = Z.of_nat (length pre) -> n = Z.of_nat (length w) ->
  bytesAt (pre ++ w ++ rest) off n = Ok w.
Proof.
  intros -> ->. unfold bytesAt.
  rewrite !length_app.
  replace ((0 <=? Z.of_nat (length pre)) && (0 <=? Z.of_nat (length w)) &&
           (Z.of_nat (length pre) + Z.of_nat (length w) <=?
            Z.of_nat (length pre + (length w + length rest)))) with true.
  2:{ symmetry. rewrite !andb_true_iff, !Z.leb_le. lia. }
  rewrite !Nat2Z.id, drop_app_length, take_app_length. reflexivity.
Qed.

Lemma be_unsigned_1 a : be_unsigned [a] = byte_val a.
Proof. reflexivity. Qed.
Lemma be_unsigned_2 a b : be_unsigned [a; b] = byte_val a * 256 + byte_val b.
Proof. reflexivity. Qed.
Lemma be_unsigned_4 a b c d :
  be_unsigned [a; b; c; d] =
  ((byte_val a * 256 + byte_val b) * 256 + byte_val c) * 256 + byte_val d.
Proof. reflexivity. Qed.

Lemma be_unsigned_app l1 l2 :
  be_unsigned (l1 ++ l2) = be_unsigned l1 * 256 ^ Z.of_nat (length l2) + be_unsigned l2.
Proof.
  unfold be_unsigned. rewrite fold_left_app.
  generalize (fold_left (fun acc b => acc * 256 + byte_val b) l1 0) as x.
  induction l2 as [|b l2 IH] using rev_ind; intros x.
  - simpl. lia.
  - rewrite !fold_left_app. simpl. rewrite IH.
    rewrite length_app. simpl.
    rewrite Nat2Z.inj_add, Z.pow_add_r by lia. simpl Z.of_nat.
    change (256 ^ 1) with 256.
    assert (E : fold_left (fun acc b0 => acc * 256 + byte_val b0) l2 0 =
            be_unsigned l2) by reflexivity.
    lia.
Qed.

Lemma mod_256_idem x : (x mod 256) mod 256 = x mod 256.
Proof. apply Z.mod_mod. lia. Qed.

Lemma writeByte_app b buffer : writeByte b buffer = buffer ++ writeByte b [].
Proof. reflexivity. Qed.
Lemma writeShort_app s buffer : writeShort s buffer = buffer ++ writeShort s [].
Proof. reflexivity. Qed.
Lemma writeInt_app i buffer : writeInt i buffer = buffer ++ writeInt i [].
Proof. reflexivity. Qed.
Lemma writeLong_app l buffer : writeLong l buffer = buffer ++ writeLong l [].
Proof.
  unfold writeLong. rewrite (writeInt_app _ (writeInt _ buffer)).
  rewrite (writeInt_app _ buffer), (writeInt_app _ (writeInt _ [])).
  now rewrite app_assoc.
Qed.

Lemma writeByte_nil b : writeByte b [] = [b mod 256].
Proof. unfold writeByte. now rewrite js_and_0xFF. Qed.

Lemma writeShort_nil s : writeShort s [] = [(s / 2 ^ 8) mod 256; s mod 256].
Proof. unfold writeShort. now rewrite js_sar_byte, js_and_0xFF by lia. Qed.

Lemma writeInt_nil i :
  writeInt i [] = [(i / 2 ^ 24) mod 256; (i / 2 ^ 16) mod 256;
                   (i / 2 ^ 8) mod 256; i mod 256].
Proof. unfold writeInt. now rewrite !js_sar_byte, js_and_0xFF by lia. Qed.

Lemma getUint8_writeByte pre rest b off :
  off = Z.of_nat (length pre) ->
  getUint8 (pre ++ map u8 (writeByte b []) ++ rest) off = Ok (b mod 256).
Proof.
  intros Hoff. unfold getUint8.
  rewrite (bytesAt_frame pre _ rest off 1) by (rewrite ?writeByte_nil; auto).
  rewrite writeByte_nil. simpl. unfold be_unsigned. simpl.
  now rewrite byte_val_u8, mod_256_idem.
Qed.

Lemma getInt8_writeByte pre rest b off :
  off = Z.of_nat (length pre) ->
  getInt8 (pre ++ map u8 (writeByte b []) ++ rest) off = Ok (wrap_signed 8 b).
Proof.
  intros Hoff. unfold getInt8.
  rewrite (bytesAt_frame pre _ rest off 1) by (rewrite ?writeByte_nil; auto).
  rewrite writeByte_nil. simpl. unfold be_unsigned. simpl.
  now rewrite byte_val_u8, mod_256_idem.
Qed.

Lemma be_unsigned_short s :
  be_unsigned (map u8 (writeShort s [])) = s mod 2 ^ 16.
Proof.
  rewrite writeShort_nil. simpl map. rewrite be_unsigned_2, !byte_val_u8, !mod_256_idem.
  pose proof (split_low_byte s 8 ltac:(lia)) as H1. change (8 + 8) with 16 in H1.
  pose proof (Z.mod_pos_bound s (2 ^ 8) ltac:(lia)).
  change (2 ^ 8) with 256 in *. lia.
Qed.

Lemma be_unsigned_int i :
  be_unsigned (map u8 (writeInt i [])) = i mod 2 ^ 32.
Proof.
  rewrite writeInt_nil. simpl map. rewrite be_unsigned_4, !byte_val_u8, !mod_256_idem.
  pose proof (split_low_byte i 24 ltac:(lia)) as H1. change (24 + 8) with 32 in H1.
  pose proof (split_low_byte i 16 ltac:(lia)) as H2. change (16 + 8) with 24 in H2.
  pose proof (split_low_byte i 8 ltac:(lia)) as H3. change (8 + 8) with 16 in H3.
  change (2 ^ 8) with 256 in *. change (2 ^ 16) with 65536 in *.
  change (2 ^ 24) with 16777216 in *. lia.
Qed.

Lemma getUint16_writeShort pre rest s off :
  off = Z.of_nat (length pre) ->
  getUint16 (pre ++ map u8 (writeShort s []) ++ rest) off = Ok (s mod 2 ^ 16).
Proof.
  intros Hoff. unfold getUint16.
  rewrite (bytesAt_frame pre _ rest off 2) by auto.
  unfold rmap. cbn [bind]. now rewrite be_unsigned_short.
Qed.

Lemma getInt16_writeShort pre rest s off :
  off = Z.of_nat (length pre) ->
  getInt16 (pre ++ map u8 (writeShort s []) ++ rest) off = Ok (wrap_signed 16 s).
Proof.
  intros Hoff. unfold getInt16.
  rewrite (bytesAt_frame pre _ rest off 2) by auto.
  unfold rmap. cbn [bind]. now rewrite be_unsigned_short.
Qed.

Lemma getInt32_writeInt pre rest i off :
  off = Z.of_nat (length pre) ->
  getInt32 (pre ++ map u8 (writeInt i []) ++ rest) off = Ok (wrap_signed 32 i).
Proof.
  intros Hoff. unfold getInt32.
  rewrite (bytesAt_frame pre _ rest off 4) by auto.
  unfold rmap. cbn [bind]. now rewrite be_unsigned_int.
Qed.

Lemma parseLong_writeLong pre rest v off :
  off = Z.of_nat (length pre) ->
  - 2 ^ 63 <= v < 2 ^ 63 ->
  parseLong (pre ++ map u8 (writeLong v []) ++ rest) off = Ok v.
Proof.
  intros Hoff Hv. unfold parseLong, writeLong.
  rewrite (writeInt_app _ (writeInt _ [])), map_app, <- app_assoc.
  rewrite getInt32_writeInt by auto. cbn [bind].
  rewrite (app_assoc pre).
  rewrite getInt32_writeInt.
  2:{ rewrite length_app, length_map, writeInt_nil. simpl. lia. }
  cbn [bind]. f_equal.
  rewrite Z.shiftr_div_pow2 by lia.
  change 0xFFFFFFFF with (Z.ones 32). rewrite !Z.land_ones by lia.
  assert (Hhigh : - 2 ^ 31 <= v / 2 ^ 32 < 2 ^ 31).
  { split.
    - apply Z.div_le_lower_bound; lia.
    - apply Z.div_lt_upper_bound; lia. }
  pose proof (Z.mod_pos_bound v (2 ^ 32) ltac:(lia)) as Hlow.
  rewrite !Number_exact by lia.
  rewrite (wrap_signed_small 32 (v / 2 ^ 32)) by (simpl; lia).
  destruct (wrap_signed_congr 32 (v mod 2 ^ 32) ltac:(lia)) as [c ->].
  rewrite Z.mod_add by lia. rewrite Z.mod_mod by lia.
  rewrite lor_shiftl_low by lia.
  pose proof (Z.div_mod v (2 ^ 32) ltac:(lia)). lia.
Qed.

(** ** Reading back what the writer pushed *)

(** *** Reading back what the writer pushed, at any place of a buffer *)

Lemma length_writeByte b : length (writeByte b []) = 1%nat.
Proof. reflexivity. Qed.
Lemma length_writeShort s : length (writeShort s []) = 2%nat.
Proof. reflexivity. Qed.
Lemma length_writeInt i : length (writeInt i []) = 4%nat.
Proof. reflexivity. Qed.
Lemma length_writeLong v : length (writeLong v []) = 8%nat.
Proof. reflexivity. Qed.
Lemma length_writeFloat w : length (writeFloat w []) = 4%nat.
Proof. reflexivity. Qed.
Lemma length_writeDouble w : length (writeDouble w []) = 8%nat.
Proof. reflexivity. Qed.

#[local] Hint Rewrite @length_app @length_map length_writeByte length_writeShort
  length_writeInt length_writeLong length_writeFloat length_writeDouble : frame_len.

Lemma fold_writeByte {A} (f : A -> Z) l buffer :
  fold_left (fun buffer b => writeByte (f b) buffer) l buffer =
  buffer ++ map (fun b => f b mod 256) l.
Proof.
  revert buffer. induction l as [|x l IH]; intros buffer; simpl.
  - now rewrite app_nil_r.
  - rewrite IH, writeByte_app, writeByte_nil, <- app_assoc. reflexivity.
Qed.

Lemma u8_byte_val_mod b : u8 (byte_val b mod 256) = b.
Proof.
  pose proof (byte_val_range b). rewrite Z.mod_small by lia. apply u8_byte_val.
Qed.

Lemma writeFloat_app w buffer : writeFloat w buffer = buffer ++ writeFloat w [].
Proof. unfold writeFloat. now rewrite !fold_writeByte. Qed.
Lemma writeDouble_app w buffer : writeDouble w buffer = buffer ++ writeDouble w [].
Proof. unfold writeDouble. now rewrite !fold_writeByte. Qed.

Lemma scratch_byte len w i :
  0 <= i < len -> scratch_getUint8 len w i = (w / 2 ^ (8 * (len - 1 - i))) mod 256.
Proof.
  intros Hi. unfold scratch_getUint8. change 0xFF with (Z.ones 8).
  rewrite Z.land_ones, Z.shiftr_div_pow2 by lia. reflexivity.
Qed.

Lemma be_unsigned_float w :
  be_unsigned (map u8 (writeFloat w [])) = w mod 2 ^ 32.
Proof.
  unfold writeFloat. rewrite fold_writeByte. simpl map.
  rewrite !scratch_byte by lia.
  change (8 * (4 - 1 - 0)) with 24. change (8 * (4 - 1 - 1)) with 16.
  change (8 * (4 - 1 - 2)) with 8. change (8 * (4 - 1 - 3)) with 0.
  rewrite be_unsigned_4, !byte_val_u8, !mod_256_idem.
  pose proof (split_low_byte w 24 ltac:(lia)) as H1. change (24 + 8) with 32 in H1.
  pose proof (split_low_byte w 16 ltac:(lia)) as H2. change (16 + 8) with 24 in H2.
  pose proof (split_low_byte w 8 ltac:(lia)) as H3. change (8 + 8) with 16 in H3.
  rewrite Z.div_1_r.
  change (2 ^ 0) with 1 in *.
  change (2 ^ 8) with 256 in *. change (2 ^ 16) with 65536 in *.
  change (2 ^ 24) with 16777216 in *. lia.
Qed.

Lemma be_unsigned_double w :
  be_unsigned (map u8 (writeDouble w [])) = w mod 2 ^ 64.
Proof.
  unfold writeDouble. rewrite fold_writeByte. simpl map.
  rewrite !scratch_byte by lia.
  change (8 * (8 - 1 - 0)) with 56. change (8 * (8 - 1 - 1)) with 48.
  change (8 * (8 - 1 - 2)) with 40. change (8 * (8 - 1 - 3)) with 32.
  change (8 * (8 - 1 - 4)) with 24. change (8 * (8 - 1 - 5)) with 16.
  change (8 * (8 - 1 - 6)) with 8. change (8 * (8 - 1 - 7)) with 0.
  unfold be_unsigned. simpl fold_left. rewrite !byte_val_u8, !mod_256_idem.
  pose proof (split_low_byte w 56 ltac:(lia)) as H1. change (56 + 8) with 64 in H1.
  pose proof (split_low_byte w 48 ltac:(lia)) as H2. change (48 + 8) with 56 in H2.
  pose proof (split_low_byte w 40 ltac:(lia)) as H3. change (40 + 8) with 48 in H3.
  pose proof (split_low_byte w 32 ltac:(lia)) as H4. change (32 + 8) with 40 in H4.
  pose proof (split_low_byte w 24 ltac:(lia)) as H5. change (24 + 8) with 32 in H5.
  pose proof (split_low_byte w 16 ltac:(lia)) as H6. change (16 + 8) with 24 in H6.
  pose proof (split_low_byte w 8 ltac:(lia)) as H7. change (8 + 8) with 16 in H7.
  rewrite Z.div_1_r.
  change (2 ^ 0) with 1 in *.
  change (2 ^ 8) with 256 in *. change (2 ^ 16) with 65536 in *.
  change (2 ^ 24) with 16777216 in *. change (2 ^ 32) with 4294967296 in *.
  change (2 ^ 40) with 1099511627776 in *.
  change (2 ^ 48) with 281474976710656 in *.
  change (2 ^ 56) with 72057594037927936 in *.
  change (2 ^ 64) with 18446744073709551616 in *.
  lia.
Qed.

Lemma bytesAt_at B (pre w rest : list byte) off n :
  B = pre ++ w ++ rest -> off = Z.of_nat (length pre) -> n = Z.of_nat (length w) ->
  bytesAt B off n = Ok w.
Proof. intros -> ? ?. now apply bytesAt_frame. Qed.

Lemma getUint8_at B pre rest b off :
  B = pre ++ map u8 (writeByte b []) ++ rest -> off = Z.of_nat (length pre) ->
  getUint8 B off = Ok (b mod 256).
Proof. intros -> ?. now apply getUint8_writeByte. Qed.

Lemma getInt8_at B pre rest b off :
  B = pre ++ map u8 (writeByte b []) ++ rest -> off = Z.of_nat (length pre) ->
  getInt8 B off = Ok (wrap_signed 8 b).
Proof. intros -> ?. now apply getInt8_writeByte. Qed.

Lemma getUint16_at B pre rest s off :
  B = pre ++ map u8 (writeShort s []) ++ rest -> off = Z.of_nat (length pre) ->
  getUint16 B off = Ok (s mod 2 ^ 16).
Proof. intros -> ?. now apply getUint16_writeShort. Qed.

Lemma getInt16_at B pre rest s off :
  B = pre ++ map u8 (writeShort s []) ++ rest -> off = Z.of_nat (length pre) ->
  getInt16 B off = Ok (wrap_signed 16 s).
Proof. intros -> ?. now apply getInt16_writeShort. Qed.

Lemma getInt32_at B pre rest i off :
  B = pre ++ map u8 (writeInt i []) ++ rest -> off = Z.of_nat (length pre) ->
  getInt32 B off = Ok (wrap_signed 32 i).
Proof. intros -> ?. now apply getInt32_writeInt. Qed.

Lemma parseLong_at B pre rest v off :
  B = pre ++ map u8 (writeLong v []) ++ rest -> off = Z.of_nat (length pre) ->
  - 2 ^ 63 <= v < 2 ^ 63 ->
  parseLong B off = Ok v.
Proof. intros -> ? ?. now apply parseLong_writeLong. Qed.

Lemma getFloat32_at B pre rest w off :
  B = pre ++ map u8 (writeFloat w []) ++ rest -> off = Z.of_nat (length pre) ->
  getFloat32 B off = Ok (w mod 2 ^ 32).
Proof.
  intros -> ?. unfold getFloat32.
  rewrite (bytesAt_frame pre _ rest off 4) by auto.
  unfold rmap. cbn [bind]. now rewrite be_unsigned_float.
Qed.

Lemma getFloat64_at B pre rest w off :
  B = pre ++ map u8 (writeDouble w []) ++ rest -> off = Z.of_nat (length pre) ->
  getFloat64 B off = Ok (w mod 2 ^ 64).
Proof.
  intros -> ?. unfold getFloat64.
  rewrite (bytesAt_frame pre _ rest off 8) by auto.
  unfold rmap. cbn [bind]. now rewrite be_unsigned_double.
Qed.

Lemma repeatM_app {A} (step : Z -> result (A * Z)) n acc off :
  repeatM step n acc off =
  let! (l, off') := repeatM step n [] off in Ok (acc ++ l, off').
Proof.
  revert acc off. induction n as [|n IH]; intros acc off; simpl.
  - now rewrite app_nil_r.
  - destruct (step off) as [[a off']|e]; simpl; [|reflexivity].
    rewrite (IH (acc ++ [a])), (IH [a]).
    destruct (repeatM step n [] off') as [[l o]|e]; simpl; [|reflexivity].
    now rewrite <- app_assoc.
Qed.

(** ** Loops and strings *)

Lemma NBTTag_ind' (Q : NBTTag -> Prop) :
  (forall ty nm v, Forall Q (childrenOf v) -> Q (mkTag ty nm v)) ->
  forall t, Q t.
Proof.
  intros H. fix IH 1. intros [ty nm v]. apply H.
  destruct v as [| | | | | | | | |it l|l]; simpl; try constructor.
  - induction l as [|c l IHl]; constructor; [apply IH | exact IHl].
  - induction l as [|c l IHl]; constructor; [apply IH | exact IHl].
Qed.

Lemma fold_left_push {A} (f : A -> list Z -> list Z) :
  (forall x buf, f x buf = buf ++ f x []) ->
  forall l buf,
    fold_left (fun buf x => f x buf) l buf = buf ++ concat (map (fun x => f x []) l).
Proof.
  intros Hf l. induction l as [|x l IH]; intros buf; simpl.
  - now rewrite app_nil_r.
  - rewrite IH, Hf, <- app_assoc. reflexivity.
Qed.

Lemma forOf_write {A} (step : A -> list Z -> result (list Z)) l ws :
  Forall2 (fun x w => forall buf, step x buf = Ok (buf ++ w)) l ws ->
  forall buf, forOf step l buf = Ok (buf ++ concat ws).
Proof.
  induction 1 as [|x w l ws Hx _ IH]; intros buf; simpl.
  - now rewrite app_nil_r.
  - rewrite Hx. cbn [bind]. rewrite IH, <- app_assoc. reflexivity.
Qed.

Lemma repeatM_read {A} (step : list byte -> Z -> result (A * Z)) l ws :
  Forall2 (ReadsAs step) l ws ->
  ReadsAs (fun B off => repeatM (step B) (length l) [] off) l (concat ws).
Proof.
  induction 1 as [|x w l ws Hx _ IH]; intros B pre rest off HB Hoff.
  - simpl. f_equal. f_equal. lia.
  - cbn [length repeatM].
    rewrite (Hx B pre (map u8 (concat ws) ++ rest) off) by frame.
    cbn [bind]. rewrite repeatM_app.
    rewrite (IH B (pre ++ map u8 w) rest) by frame.
    cbn [bind]. simpl concat. rewrite length_app. f_equal. f_equal. lia.
Qed.

Lemma Forall_exists_Forall2 {A B} (R : A -> B -> Prop) l :
  Forall (fun x => exists y, R x y) l -> exists ys, Forall2 R l ys.
Proof.
  induction 1 as [|x l [y Hy] _ [ys IH]].
  - exists []. constructor.
  - exists (y :: ys). now constructor.
Qed.

Section Strings.

Variable P : Platform.

Lemma writeString_app s buffer :
  writeString P s buffer = buffer ++ writeString P s [].
Proof.
  unfold writeString. rewrite !fold_writeByte, writeShort_app.
  now rewrite <- app_assoc.
Qed.

Lemma length_writeString s :
  length (writeString P s []) = (2 + length (TextEncoder_encode P s))%nat.
Proof.
  unfold writeString. rewrite fold_writeByte, length_app, length_map. reflexivity.
Qed.

Hint Rewrite length_writeString : frame_len.

Lemma readString_at s : text_ok P s = true ->
  ReadsAs (readString P) s (writeString P s []).
Proof.
  intros Hs B pre rest off HB Hoff.
  apply andb_true_iff in Hs as [Hdec Hlen].
  apply bool_decide_eq_true in Hdec. apply Z.ltb_lt in Hlen.
  unfold readString.
  assert (Hw : writeString P s [] =
               writeShort (Z.of_nat (length (TextEncoder_encode P s))) [] ++
               map (fun b => byte_val b mod 256) (TextEncoder_encode P s)).
  { unfold writeString. now rewrite fold_writeByte. }
  rewrite Hw in HB.
  rewrite (getUint16_at B pre
             (map u8 (map (fun b => byte_val b mod 256) (TextEncoder_encode P s)) ++ rest)
             (Z.of_nat (length (TextEncoder_encode P s)))) by frame.
  cbn [bind]. rewrite Z.mod_small by lia.
  assert (Hbytes : map u8 (map (fun b => byte_val b mod 256) (TextEncoder_encode P s))
                   = TextEncoder_encode P s).
  { rewrite map_map. rewrite <- (map_id (TextEncoder_encode P s)) at 2.
    apply map_ext. intros b. apply u8_byte_val_mod. }
  rewrite (bytesAt_at B (pre ++ map u8 (writeShort (Z.of_nat (length (TextEncoder_encode P s))) []))
             (TextEncoder_encode P s) rest).
  - cbn [bind]. rewrite Hdec, length_writeString. f_equal. f_equal. lia.
  - subst B. rewrite map_app, Hbytes, <- !app_assoc. reflexivity.
  - subst off. rewrite length_app, length_map. simpl. lia.
  - reflexivity.
Qed.

End Strings.

(** ** Tags at any place of a buffer *)

Lemma in_range_spec lo hi z : in_range lo hi z = true <-> lo <= z < hi.
Proof. unfold in_range. rewrite andb_true_iff, Z.leb_le, Z.ltb_lt. tauto. Qed.

Lemma tagFuel_pos t : (1 <= tagFuel t)%nat.
Proof. destruct t as [ty nm []]; simpl; lia. Qed.

Section TagFrames.

Variable P : Platform.

Hint Rewrite (length_writeString P) : frame_len.

Lemma writeTag_header ty s v isRoot buf :
  writeTag P (mkTag ty (Some s) v) isRoot false buf =
  writeTag P (mkTag ty (Some s) v) isRoot true (writeString P s (writeByte ty buf)).
Proof. reflexivity. Qed.

Lemma writeTag_skip_isRoot t isRoot buf :
  writeTag P t isRoot true buf = writeTag P t false true buf.
Proof. destruct t. reflexivity. Qed.

Lemma readTag_named fuel B isRoot ty s v off off' off'' :
  getUint8 B off = Ok ty -> ty <> 0 ->
  readString P B (off + 1) = Ok (s, off') ->
  readTag P (S fuel) B false (Some ty) None off' = Ok (mkTag ty None v, off'') ->
  readTag P (S fuel) B isRoot None None off = Ok (mkTag ty (Some s) v, off'').
Proof.
  intros Hty Hnz Hs. cbn [readTag bind]. rewrite Hty. cbn [bind].
  destruct (Z.eqb_spec ty 0) as [?|_]; [contradiction|].
  assert (Hname : (if isRoot
                   then let! (s0, offset) := readString P B (off + 1) in Ok (Some s0, offset)
                   else let! (s0, offset) := readString P B (off + 1) in Ok (Some s0, offset))
                  = Ok (Some s, off')).
  { rewrite Hs. now destruct isRoot. }
  rewrite Hname. cbn [bind].
  match goal with
  | |- bind ?m _ = _ -> _ => destruct m as [[v' o']|e]; cbn [bind]
  end; [|discriminate].
  intros [= <- <-]. reflexivity.
Qed.

Lemma named_of_payload t s w isRoot :
  0 < type t < 256 -> name t = Some s -> text_ok P s = true ->
  Encodes P t false true (Some (type t)) (mkTag (type t) None (value t)) w ->
  Encodes P t isRoot false None t (writeByte (type t) [] ++ writeString P s [] ++ w).
Proof.
  destruct t as [ty nm v]. cbn [type name value]. intros Hty -> Hs [Hw Hr]. split.
  - intros buf. rewrite writeTag_header, writeTag_skip_isRoot, Hw.
    rewrite writeString_app, writeByte_app, <- !app_assoc. reflexivity.
  - intros [|fuel] Hf; [pose proof (tagFuel_pos (mkTag ty (Some s) v)); lia|].
    intros B pre rest off HB Hoff.
    eapply readTag_named.
    + rewrite (getUint8_at B pre (map u8 (writeString P s [] ++ w) ++ rest) ty off) by frame.
      f_equal. apply Z.mod_small. lia.
    + lia.
    + apply (readString_at P s Hs B (pre ++ map u8 (writeByte ty [])) (map u8 w ++ rest)); frame.
    + rewrite (Hr (S fuel) Hf B (pre ++ map u8 (writeByte ty []) ++ map u8 (writeString P s [])) rest
                 (off + 1 + Z.of_nat (length (writeString P s [])))) by frame.
      f_equal. f_equal. rewrite !length_app. simpl length. lia.
Qed.

Lemma tagFuel_child c l :
  In c l -> (S (tagFuel c) <= list_sum (map (fun c => S (tagFuel c)) l))%nat.
Proof.
  induction l as [|x l IH]; simpl; [tauto|].
  intros [->|Hin]; [lia|]. specialize (IH Hin). lia.
Qed.

Lemma readCompound_read l ws :
  Forall2 (fun c w =>
             (exists w', w = writeByte (type c) [] ++ w' /\ 0 < type c < 256) /\
             forall fuel, (tagFuel c <= fuel)%nat ->
               ReadsAs (fun B off => readTag P fuel B false None None off) c w) l ws ->
  forall fuel acc,
    (S (list_sum (map (fun c => S (tagFuel c)) l)) <= fuel)%nat ->
    ReadsAs (fun B off => readCompound P fuel B acc off)
            (VTags (acc ++ l)) (concat ws ++ writeByte 0 []).
Proof.
  induction 1 as [|c w l ws [[w' [Hw Hty]] Hc] _ IH];
    intros [|fuel] acc Hf B pre rest off HB Hoff; try (simpl in Hf; lia).
  - cbn [readCompound bind].
    rewrite (getUint8_at B pre rest 0 off) by frame. cbn [bind].
    change (0 mod 256 =? 0) with true. cbn iota. rewrite app_nil_r. reflexivity.
  - cbn [readCompound bind].
    rewrite (getUint8_at B pre (map u8 (w' ++ concat ws ++ writeByte 0 []) ++ rest) (type c) off)
      by frame.
    cbn [bind]. rewrite Z.mod_small by lia.
    destruct (Z.eqb_spec (type c) 0) as [?|_]; [lia|].
    simpl in Hf.
    rewrite (Hc fuel ltac:(lia) B pre (map u8 (concat ws ++ writeByte 0 []) ++ rest) off) by frame.
    cbn [bind].
    rewrite (IH fuel (acc ++ [c]) ltac:(lia) B (pre ++ map u8 w) rest) by frame.
    f_equal. f_equal; [now rewrite <- app_assoc|].
    rewrite concat_cons. autorewrite with frame_len. lia.
Qed.

Lemma wf_value_kind t : wf_value P t = true -> 0 <= type t <= 12.
Proof.
  destruct t as [ty nm v]. intros Hwf. cbn [type].
  destruct v; kind_cases ty Hwf; lia.
Qed.

Lemma signed_bytes_back a :
  forallb (in_range (- 2 ^ 7) (2 ^ 7)) a = true ->
  map (fun b => to_signed 8 (byte_val b)) (map u8 (map (fun b => b mod 256) a)) = a.
Proof.
  intros Ha. rewrite !map_map. rewrite <- (map_id a) at 2.
  apply map_ext_in. intros x Hx.
  rewrite forallb_forall in Ha. specialize (Ha x Hx). apply in_range_spec in Ha.
  rewrite byte_val_u8, mod_256_idem.
  change (to_signed 8 (x mod 256)) with (wrap_signed 8 x).
  apply wrap_signed_small; simpl; lia.
Qed.

Lemma Forall2_map_same {A B} (R : A -> B -> Prop) (f : A -> B) l :
  (forall x, In x l -> R x (f x)) -> Forall2 R l (map f l).
Proof.
  induction l as [|x l IH]; intros H; simpl; constructor.
  - apply H. now left.
  - apply IH. intros y Hy. apply H. now right.
Qed.

Lemma ints_read a :
  forallb (in_range (- 2 ^ 31) (2 ^ 31)) a = true ->
  ReadsAs (fun B off => repeatM (fun offset => let! v := getInt32 B offset in
                                               Ok (v, offset + 4)) (length a) [] off)
          a (concat (map (fun i => writeInt i []) a)).
Proof.
  intros Ha.
  apply (repeatM_read (fun B offset => let! v := getInt32 B offset in Ok (v, offset + 4))).
  apply Forall2_map_same. intros x Hx B pre rest off HB Hoff.
  rewrite forallb_forall in Ha. specialize (Ha x Hx). apply in_range_spec in Ha.
  rewrite (getInt32_at B pre rest x off) by frame. cbn [bind].
  rewrite wrap_signed_small by (simpl; lia). reflexivity.
Qed.

Lemma longs_read a :
  forallb (in_range (- 2 ^ 63) (2 ^ 63)) a = true ->
  ReadsAs (fun B off => repeatM (fun offset => let! v := parseLong B offset in
                                               Ok (v, offset + 8)) (length a) [] off)
          a (concat (map (fun i => writeLong i []) a)).
Proof.
  intros Ha.
  apply (repeatM_read (fun B offset => let! v := parseLong B offset in Ok (v, offset + 8))).
  apply Forall2_map_same. intros x Hx B pre rest off HB Hoff.
  rewrite forallb_forall in Ha. specialize (Ha x Hx). apply in_range_spec in Ha.
  rewrite (parseLong_at B pre rest x off) by (frame || lia). reflexivity.
Qed.

Lemma length_count_back n : Z.of_nat n < 2 ^ 31 ->
  Z.to_nat (wrap_signed 32 (Z.of_nat n)) = n.
Proof.
  intros Hn. rewrite wrap_signed_small by (simpl; lia). apply Nat2Z.id.
Qed.

End TagFrames.

(** ** Payloads, kind by kind *)

Section Payloads.

Variable P : Platform.
Hint Rewrite (length_writeString P) : frame_len.

Lemma payload_End nm : PayloadOk P (mkTag 0 nm (VNull)).
Proof.
  intros Hwf. cbn in Hwf. cbn [type value].
  exists []. split.
  + intros buf. write_step. now rewrite app_nil_r.
  + intros fuel Hf B pre rest off HB Hoff. fuel_pos fuel Hf.
    read_step. f_equal. f_equal. simpl. lia.
Qed.

Lemma payload_Byte nm n : PayloadOk P (mkTag 1 nm (VNumber n)).
Proof.
  intros Hwf. cbn in Hwf. cbn [type value].
  apply in_range_spec in Hwf. exists (writeByte n []). split.
  + intros buf. write_step. now rewrite writeByte_app.
  + intros fuel Hf B pre rest off HB Hoff. fuel_pos fuel Hf. read_step.
    rewrite (getInt8_at B pre rest n off) by frame. cbn [bind].
    rewrite wrap_signed_small by (simpl; lia). reflexivity.
Qed.

Lemma payload_Short nm n : PayloadOk P (mkTag 2 nm (VNumber n)).
Proof.
  intros Hwf. cbn in Hwf. cbn [type value].
  apply in_range_spec in Hwf. exists (writeShort n []). split.
  + intros buf. write_step. now rewrite writeShort_app.
  + intros fuel Hf B pre rest off HB Hoff. fuel_pos fuel Hf. read_step.
    rewrite (getInt16_at B pre rest n off) by frame. cbn [bind].
    rewrite wrap_signed_small by (simpl; lia). reflexivity.
Qed.

Lemma payload_Int nm n : PayloadOk P (mkTag 3 nm (VNumber n)).
Proof.
  intros Hwf. cbn in Hwf. cbn [type value].
  apply in_range_spec in Hwf. exists (writeInt n []). split.
  + intros buf. write_step. now rewrite writeInt_app.
  + intros fuel Hf B pre rest off HB Hoff. fuel_pos fuel Hf. read_step.
    rewrite (getInt32_at B pre rest n off) by frame. cbn [bind].
    rewrite wrap_signed_small by (simpl; lia). reflexivity.
Qed.

Lemma payload_Long nm n : PayloadOk P (mkTag 4 nm (VBigInt n)).
Proof.
  intros Hwf. cbn in Hwf. cbn [type value].
  apply in_range_spec in Hwf. exists (writeLong n []). split.
  + intros buf. write_step. now rewrite writeLong_app.
  + intros fuel Hf B pre rest off HB Hoff. fuel_pos fuel Hf. read_step.
    rewrite (parseLong_at B pre rest n off) by (frame || lia). reflexivity.
Qed.

Lemma payload_Float nm w : PayloadOk P (mkTag 5 nm (VFloat w)).
Proof.
  intros Hwf. cbn in Hwf. cbn [type value].
  apply in_range_spec in Hwf. exists (writeFloat w []). split.
  + intros buf. write_step. now rewrite writeFloat_app.
  + intros fuel Hf B pre rest off HB Hoff. fuel_pos fuel Hf. read_step.
    rewrite (getFloat32_at B pre rest w off) by frame. cbn [bind].
    rewrite Z.mod_small by lia. reflexivity.
Qed.

Lemma payload_Double nm w : PayloadOk P (mkTag 6 nm (VDouble w)).
Proof.
  intros Hwf. cbn in Hwf. cbn [type value].
  apply in_range_spec in Hwf. exists (writeDouble w []). split.
  + intros buf. write_step. now rewrite writeDouble_app.
  + intros fuel Hf B pre rest off HB Hoff. fuel_pos fuel Hf. read_step.
    rewrite (getFloat64_at B pre rest w off) by frame. cbn [bind].
    rewrite Z.mod_small by lia. reflexivity.
Qed.

Lemma payload_ByteArray nm a : PayloadOk P (mkTag 7 nm (VNumArray a)).
Proof.
  intros Hwf. cbn in Hwf. cbn [type value].
  apply andb_true_iff in Hwf as [Hlen Ha]. apply Z.ltb_lt in Hlen.
  exists (writeInt (Z.of_nat (length a)) [] ++ map (fun b => b mod 256) a).
  split.
  + intros buf. write_step.
    rewrite (fold_writeByte (fun b => b)).
    now rewrite writeInt_app, <- app_assoc.
  + intros fuel Hf B pre rest off HB Hoff. fuel_pos fuel Hf. read_step.
    rewrite (getInt32_at B pre (map u8 (map (fun b => b mod 256) a) ++ rest)
               (Z.of_nat (length a)) off) by frame.
    cbn [bind]. rewrite wrap_signed_small by (simpl; lia).
    rewrite (bytesAt_at B (pre ++ map u8 (writeInt (Z.of_nat (length a)) []))
               (map u8 (map (fun b => b mod 256) a)) rest) by frame.
    cbn [bind]. rewrite signed_bytes_back by assumption.
    f_equal. f_equal. autorewrite with frame_len. lia.
Qed.

Lemma payload_String nm s : PayloadOk P (mkTag 8 nm (VString s)).
Proof.
  intros Hwf. cbn in Hwf. cbn [type value].
  exists (writeString P s []). split.
  + intros buf. write_step. now rewrite writeString_app.
  + intros fuel Hf B pre rest off HB Hoff. fuel_pos fuel Hf. read_step.
    rewrite (readString_at P s Hwf B pre rest off) by frame. reflexivity.
Qed.

Lemma payload_IntArray nm a : PayloadOk P (mkTag 11 nm (VNumArray a)).
Proof.
  intros Hwf. cbn in Hwf. cbn [type value].
  apply andb_true_iff in Hwf as [Hlen Ha]. apply Z.ltb_lt in Hlen.
  exists (writeInt (Z.of_nat (length a)) [] ++ concat (map (fun i => writeInt i []) a)).
  split.
  + intros buf. write_step.
    rewrite (fold_left_push (fun i buf => writeInt i buf)) by (intros; apply writeInt_app).
    now rewrite writeInt_app, <- app_assoc.
  + intros fuel Hf B pre rest off HB Hoff. fuel_pos fuel Hf. read_step.
    rewrite (getInt32_at B pre (map u8 (concat (map (fun i => writeInt i []) a)) ++ rest)
               (Z.of_nat (length a)) off) by frame.
    cbn [bind]. rewrite length_count_back by lia.
    rewrite (ints_read a Ha B (pre ++ map u8 (writeInt (Z.of_nat (length a)) [])) rest)
      by frame.
    cbn [bind]. f_equal. f_equal. autorewrite with frame_len. lia.
Qed.

Lemma payload_LongArray nm a : PayloadOk P (mkTag 12 nm (VBigArray a)).
Proof.
  intros Hwf. cbn in Hwf. cbn [type value].
  apply andb_true_iff in Hwf as [Hlen Ha]. apply Z.ltb_lt in Hlen.
  exists (writeInt (Z.of_nat (length a)) [] ++ concat (map (fun i => writeLong i []) a)).
  split.
  + intros buf. write_step.
    rewrite (fold_left_push (fun i buf => writeLong i buf)) by (intros; apply writeLong_app).
    now rewrite writeInt_app, <- app_assoc.
  + intros fuel Hf B pre rest off HB Hoff. fuel_pos fuel Hf. read_step.
    rewrite (getInt32_at B pre (map u8 (concat (map (fun i => writeLong i []) a)) ++ rest)
               (Z.of_nat (length a)) off) by frame.
    cbn [bind]. rewrite length_count_back by lia.
    rewrite (longs_read a Ha B (pre ++ map u8 (writeInt (Z.of_nat (length a)) [])) rest)
      by frame.
    cbn [bind]. f_equal. f_equal. autorewrite with frame_len. lia.
Qed.

Lemma payload_List nm itemType list :
  Forall (PayloadOk P) list -> PayloadOk P (mkTag 9 nm (VList itemType list)).
Proof.
  intros IH Hwf. cbn in Hwf. cbn [type value].
  apply andb_true_iff in Hwf as [Hwf Hitems].
  apply andb_true_iff in Hwf as [Hit Hlen].
  apply in_range_spec in Hit. apply Z.ltb_lt in Hlen.
  assert (Hall : Forall (fun c => exists w,
                   Encodes P c false true (Some itemType) c w) list).
  { rewrite List.Forall_forall in IH. apply List.Forall_forall. intros c Hc.
    rewrite forallb_forall in Hitems. specialize (Hitems c Hc).
    apply andb_true_iff in Hitems as [Hitems Hwfc].
    apply andb_true_iff in Hitems as [Hty Hnm].
    apply Z.eqb_eq in Hty.
    destruct (IH c Hc Hwfc) as [w Hw]. exists w.
    destruct c as [cty [cn|] cv]; [discriminate|]. simpl in *. now subst. }
  apply Forall_exists_Forall2 in Hall as [ws Hws].
  exists (writeByte itemType [] ++ writeInt (Z.of_nat (length list)) [] ++ concat ws).
  split.
  + intros buf. write_step.
    rewrite (forOf_write _ list ws).
    * now rewrite writeInt_app, writeByte_app, <- !app_assoc.
    * eapply Forall2_impl; [exact Hws|]. intros c w [Hw _]. exact Hw.
  + intros fuel Hf B pre rest off HB Hoff. fuel_pos fuel Hf. read_step.
    rewrite (getUint8_at B pre (map u8 (writeInt (Z.of_nat (length list)) [] ++ concat ws) ++ rest)
               itemType off) by frame.
    cbn [bind].
    rewrite (getInt32_at B (pre ++ map u8 (writeByte itemType []))
               (map u8 (concat ws) ++ rest) (Z.of_nat (length list)) (off + 1)) by frame.
    cbn [bind]. rewrite length_count_back by lia.
    rewrite Z.mod_small by lia.
    rewrite (repeatM_read (fun B off => readTag P fuel B false (Some itemType) None off)
               list ws) with (pre := pre ++ map u8 (writeByte itemType [])
                                      ++ map u8 (writeInt (Z.of_nat (length list)) []))
                             (rest := rest).
    * cbn [bind]. f_equal. f_equal. autorewrite with frame_len. lia.
    * revert Hf. clear -Hws. intros Hf.
      assert (Hin : forall c, In c list -> (tagFuel c <= fuel)%nat).
      { intros c Hc. apply tagFuel_child in Hc. simpl in Hf. lia. }
      clear Hf. induction Hws as [|c w l ws' [_ Hr] _ IHl]; constructor.
      -- apply Hr. apply Hin. now left.
      -- apply IHl. intros c' Hc'. apply Hin. now right.
    * frame.
    * frame.
Qed.

Lemma payload_Compound nm children :
  Forall (PayloadOk P) children -> PayloadOk P (mkTag 10 nm (VTags children)).
Proof.
  intros IH Hwf. cbn in Hwf. cbn [type value].
  assert (Hall : Forall (fun c => exists w,
                   (exists w', w = writeByte (type c) [] ++ w' /\ 0 < type c < 256) /\
                   Encodes P c false false None c w) children).
  { rewrite List.Forall_forall in IH. apply List.Forall_forall. intros c Hc.
    rewrite forallb_forall in Hwf. specialize (Hwf c Hc).
    apply andb_true_iff in Hwf as [Hwf Hwfc].
    apply andb_true_iff in Hwf as [Hty Hnm].
    apply negb_true_iff, Z.eqb_neq in Hty.
    pose proof (wf_value_kind P c Hwfc) as Hk.
    destruct (IH c Hc Hwfc) as [w Hw].
    destruct (name c) as [s|] eqn:Hs; [|discriminate].
    exists (writeByte (type c) [] ++ writeString P s [] ++ w). split.
    - eexists. split; [reflexivity|lia].
    - apply named_of_payload; auto. lia. }
  apply Forall_exists_Forall2 in Hall as [ws Hws].
  exists (concat ws ++ writeByte 0 []). split.
  + intros buf. write_step.
    rewrite (forOf_write _ children ws).
    * cbn [bind]. now rewrite writeByte_app, <- app_assoc.
    * eapply Forall2_impl; [exact Hws|]. intros c w [_ [Hw _]]. exact Hw.
  + intros fuel Hf B pre rest off HB Hoff. fuel_pos fuel Hf. read_step.
    rewrite (readCompound_read P children ws) with (pre := pre) (rest := rest).
    * reflexivity.
    * eapply Forall2_impl; [exact Hws|]. intros c w [Hh [_ Hr]]. split; [exact Hh|exact Hr].
    * simpl in Hf. lia.
    * frame.
    * frame.
Qed.

Lemma payload_roundtrip t : PayloadOk P t.
Proof.
  induction t as [ty nm v IH] using NBTTag_ind'.
  destruct (wf_value P (mkTag ty nm v)) eqn:Hwf;
    [|unfold PayloadOk; intros H; congruence].
  destruct v; kind_cases ty Hwf; cbn [childrenOf] in IH;
    first [ apply payload_End | apply payload_Byte | apply payload_Short
          | apply payload_Int | apply payload_Long | apply payload_Float
          | apply payload_Double | apply payload_ByteArray | apply payload_String
          | apply payload_IntArray | apply payload_LongArray
          | apply payload_List; exact IH | apply payload_Compound; exact IH].
Qed.

End Payloads.

(** ** The round trip *)

Section RoundTrip.

Variable P : Platform.
Hint Rewrite (length_writeString P) : frame_len.

Lemma parse_raw fuel arr :
  hasGzipMagic arr = false ->
  parse P fuel arr =
  let! (root, _) := readTag P fuel arr true None None 0 in Ok (root, false).
Proof.
  intros E. unfold parse. now rewrite E.
Qed.

Lemma hasGzipMagic_head b0 tl :
  byte_val b0 <> 0x1f -> hasGzipMagic (b0 :: tl) = false.
Proof.
  intros Hb. unfold hasGzipMagic.
  assert ((byte_val b0 =? 0x1f) = false) as E by now apply Z.eqb_neq.
  destruct tl; rewrite ?E; reflexivity.
Qed.

(** What the writer emits for a representable root does not start with the
    gzip magic number, and [readTag] reads the root back from it. *)
Lemma write_read_root root :
  wf_root P root = true ->
  exists bytes n,
    write P root false = Ok bytes /\
    hasGzipMagic bytes = false /\
    forall fuel, (tagFuel root <= fuel)%nat ->
                 readTag P fuel bytes true None None 0 = Ok (root, n).
Proof.
  intros Hwf. apply andb_true_iff in Hwf as [Hv Hn].
  pose proof (wf_value_kind P root Hv) as Hk.
  destruct (Z.eqb_spec (type root) 0) as [Hz|Hnz].
  - (* an End root: the reader stops after the kind byte *)
    destruct root as [ty [s|] v]; [discriminate|]. cbn [type] in *. subst ty.
    destruct v; try discriminate Hv.
    exists (map u8 (writeByte 0 [] ++ writeString P "" [])), 1. split; [|split].
    + unfold write. cbn [writeTag bind].
      now rewrite writeString_app.
    + rewrite writeByte_nil. cbn [map app].
      apply hasGzipMagic_head. rewrite byte_val_u8. discriminate.
    + intros [|fuel] Hf; [simpl in Hf; lia|].
      cbn [readTag bind].
      rewrite (getUint8_at _ [] (map u8 (writeString P "" [])) 0 0)
        by (rewrite ?map_app; reflexivity).
      reflexivity.
  - (* a named root *)
    destruct (name root) as [s|] eqn:Hs; [|discriminate].
    destruct (payload_roundtrip P root Hv) as [w Hw].
    destruct (named_of_payload P root s w true ltac:(lia) Hs Hn Hw) as [Hwr Hrd].
    exists (map u8 (writeByte (type root) [] ++ writeString P s [] ++ w)).
    eexists. split; [|split].
    + unfold write. now rewrite Hwr.
    + rewrite writeByte_nil. cbn [map app].
      apply hasGzipMagic_head.
      rewrite byte_val_u8, mod_256_idem, Z.mod_small; lia.
    + intros fuel Hf.
      rewrite (Hrd fuel Hf _ [] [] 0); [reflexivity| |reflexivity].
      now rewrite app_nil_r.
Qed.


(** The round trip through the compression stage, for a platform whose
    [gzip] output carries the magic number and inflates to its input. *)
Theorem compressed_roundtrip root :
  wf_root P root = true ->
  (forall bs, hasGzipMagic (pako_gzip P bs) = true) ->
  (forall bs, pako_ungzip P (pako_gzip P bs) = Some bs) ->
  exists bytes,
    write P root true = Ok bytes /\
    forall fuel, (tagFuel root <= fuel)%nat -> parse P fuel bytes = Ok (root, true).
Proof.
  intros Hwf Hmagic Hinflate.
  destruct (write_read_root root Hwf) as (bytes & n & Hw & _ & Hrd).
  exists (pako_gzip P bytes). split.
  - unfold write in *. destruct (writeTag P root true false []) as [buffer|e];
      [|discriminate].
    cbn [bind] in *. now injection Hw as <-.
  - intros fuel Hf. unfold parse.
    rewrite Hmagic, Hinflate. cbn [bind]. rewrite (Hrd fuel Hf). reflexivity.
Qed.

End RoundTrip.

(** ** Truncated buffers *)

Lemma bytesAt_ok B off len bs :
  bytesAt B off len = Ok bs -> 0 <= off /\ 0 <= len /\ off + len <= Z.of_nat (length B).
Proof.
  unfold bytesAt. intros H.
  destruct ((0 <=? off) && (0 <=? len) && (off + len <=? Z.of_nat (length B))) eqn:E;
    [|discriminate].
  rewrite !andb_true_iff, !Z.leb_le in E. lia.
Qed.

Lemma bytesAt_take B off len bs (k : nat) :
  bytesAt B off len = Ok bs ->
  (off + len <= Z.of_nat k -> bytesAt (take k B) off len = Ok bs) /\
  (Z.of_nat k < off + len -> bytesAt (take k B) off len = Throw RangeError).
Proof.
  intros H. pose proof (bytesAt_ok _ _ _ _ H) as (Ho & Hl & Hb).
  unfold bytesAt in *.
  destruct ((0 <=? off) && (0 <=? len) && (off + len <=? Z.of_nat (length B))) eqn:E;
    [|discriminate].
  injection H as <-. rewrite length_take, Nat2Z.inj_min. split; intros Hk.
  - replace ((0 <=? off) && (0 <=? len) &&
             (off + len <=? Z.of_nat k `min` Z.of_nat (length B))) with true.
    2:{ symmetry. rewrite !andb_true_iff, !Z.leb_le.
        split; [lia | apply Z.min_glb; [assumption|]]. lia. }
    f_equal. rewrite skipn_firstn_comm, take_take. f_equal. lia.
  - replace ((0 <=? off) && (0 <=? len) &&
             (off + len <=? Z.of_nat k `min` Z.of_nat (length B))) with false; [reflexivity|].
    symmetry. rewrite !andb_false_iff, !Z.leb_gt. right.
    apply Z.min_lt_iff. lia.
Qed.

Lemma Stable_ret {A} (a : A) off lo :
  lo <= off -> Stable (fun _ => Ok (a, off)) off lo.
Proof.
  intros Hlo B a' off' [= <- <-]. split; [lia|]. intros k. split; auto.
Qed.

Lemma Stable_throw {A} e off lo : Stable (fun _ => @Throw (A * Z) e) off lo.
Proof. intros B a off' H. discriminate. Qed.

Lemma Stable_ext {A} (m m' : list byte -> result (A * Z)) off lo :
  (forall B, m B = m' B) -> Stable m off lo -> Stable m' off lo.
Proof.
  intros E Hm B a off' H. rewrite <- E in H.
  destruct (Hm B a off' H) as [Hb Hk]. split; [exact Hb|].
  intros k. rewrite <- E. apply Hk.
Qed.

(** A read of [w] bytes at [off], then a reader that goes on from [off + w]. *)
Lemma Stable_bytes {A C} (f : list byte -> C) (m : list byte -> C -> result (A * Z))
    off w lo :
  lo <= Z.max off (off + w) ->
  (forall v, Stable (fun B => m B v) (off + w) (off + w)) ->
  Stable (fun B => let! v := rmap f (bytesAt B off w) in m B v) off lo.
Proof.
  intros Hlo Hm B a off' H. unfold rmap in *.
  destruct (bytesAt B off w) as [bs|e] eqn:Eb; [|discriminate]. cbn [bind] in H.
  pose proof (bytesAt_ok _ _ _ _ Eb) as (_ & Hw & _).
  destruct (Hm (f bs) B a off' H) as [Hb Hk]. split; [lia|].
  intros k. destruct (bytesAt_take B off w bs k Eb) as [Hge Hlt].
  destruct (Hk k) as [Hk1 Hk2]. split; intros Hcmp.
  - rewrite Hge by lia. cbn [bind]. auto.
  - destruct (Z.le_gt_cases (off + w) (Z.of_nat k)) as [Hin|Hout].
    + rewrite Hge by lia. cbn [bind].
      destruct (Hk2 Hcmp) as [Hr|[Heq _]]; [now left|lia].
    + rewrite Hlt by lia. now left.
Qed.

Lemma StableFrom_ret {A} (a : A) lim : StableFrom (fun _ => Ok (a, lim)) lim.
Proof.
  intros B a' off' [= <- <-]. split; [lia|]. intros k Hk. split; [auto|lia].
Qed.

Lemma StableFrom_Stable {A} (m : list byte -> result (A * Z)) off lim :
  off < lim -> Stable m off lim -> StableFrom m lim.
Proof.
  intros Hlim Hm B a off' H. destruct (Hm B a off' H) as [Hb Hk].
  split; [exact Hb|]. intros k Hlk. destruct (Hk k) as [Hk1 Hk2].
  split; [exact Hk1|]. intros Hcmp. destruct (Hk2 Hcmp) as [Hr|[Heq _]]; [exact Hr|lia].
Qed.

(** A look at [w] bytes at [off], then a reader that starts again at [off]
    and reads at least these bytes. *)
Lemma Stable_peek {A C} (f : list byte -> C) (m : list byte -> C -> result (A * Z))
    off w lo :
  lo <= off + w ->
  (forall v, StableFrom (fun B => m B v) (off + w)) ->
  Stable (fun B => let! v := rmap f (bytesAt B off w) in m B v) off lo.
Proof.
  intros Hlo Hm B a off' H. unfold rmap in *.
  destruct (bytesAt B off w) as [bs|e] eqn:Eb; [|discriminate]. cbn [bind] in H.
  destruct (Hm (f bs) B a off' H) as [Hb Hk]. split; [lia|].
  intros k. destruct (bytesAt_take B off w bs k Eb) as [Hge Hlt].
  split; intros Hcmp.
  - rewrite Hge by lia. cbn [bind]. apply Hk; lia.
  - destruct (Z.le_gt_cases (off + w) (Z.of_nat k)) as [Hin|Hout].
    + rewrite Hge by lia. cbn [bind]. left. apply Hk; lia.
    + rewrite Hlt by lia. now left.
Qed.

(** Sequencing of two readers. *)
Lemma Stable_bind {A C} (m1 : list byte -> result (C * Z))
    (m2 : list byte -> C -> Z -> result (A * Z)) off lo :
  Stable m1 off lo ->
  (forall c off1, Stable (fun B => m2 B c off1) off1 off1) ->
  Stable (fun B => let! (c, off1) := m1 B in m2 B c off1) off lo.
Proof.
  intros H1 H2 B a off' H.
  destruct (m1 B) as [[c off1]|e] eqn:E1; [|discriminate]. cbn [bind] in H.
  destruct (H1 B c off1 E1) as [Hb1 Hk1].
  destruct (H2 c off1 B a off' H) as [Hb2 Hk2]. split; [lia|].
  intros k. destruct (Hk1 k) as [Hk1a Hk1b]. destruct (Hk2 k) as [Hk2a Hk2b].
  split; intros Hcmp.
  - rewrite Hk1a by lia. cbn [bind]. auto.
  - destruct (Z.le_gt_cases off1 (Z.of_nat k)) as [Hin|Hout].
    + rewrite Hk1a by lia. cbn [bind].
      destruct (Hk2b Hcmp) as [Hr|[Heq _]]; [now left|lia].
    + destruct (Hk1b Hout) as [Hr|[Heq Hr]].
      * rewrite Hr. now left.
      * rewrite Hr. cbn [bind].
        destruct (Hk2b Hcmp) as [Hr2|[Heq2 Hr2]]; [now left|].
        right. split; [lia|exact Hr2].
Qed.

Lemma Stable_bytesAt {A} (m : list byte -> list byte -> result (A * Z)) off w lo :
  lo <= Z.max off (off + w) ->
  (forall bs, Stable (fun B => m B bs) (off + w) (off + w)) ->
  Stable (fun B => let! bs := bytesAt B off w in m B bs) off lo.
Proof.
  intros Hlo Hm.
  apply (Stable_ext (fun B => let! bs := rmap (fun bs => bs) (bytesAt B off w) in m B bs)).
  { intros B. unfold rmap. now destruct (bytesAt B off w). }
  now apply Stable_bytes.
Qed.

Lemma Stable_repeatM {A} (step : list byte -> Z -> result (A * Z)) n :
  (forall off, Stable (fun B => step B off) off off) ->
  forall acc off, Stable (fun B => repeatM (step B) n acc off) off off.
Proof.
  intros Hstep. induction n as [|n IH]; intros acc off.
  - apply Stable_ret. lia.
  - cbn [repeatM].
    apply (Stable_bind (fun B => step B off)
                       (fun B a off1 => repeatM (step B) n (acc ++ [a]) off1)).
    + apply Hstep.
    + intros c off1. apply IH.
Qed.

Lemma Stable_parseLong {A} (m : list byte -> Z -> result (A * Z)) off lo :
  lo <= off ->
  (forall v, Stable (fun B => m B v) (off + 8) (off + 8)) ->
  Stable (fun B => let! v := parseLong B off in m B v) off lo.
Proof.
  intros Hlo Hm.
  apply (Stable_ext
           (fun B => let! high := getInt32 B off in
                     let! low := getInt32 B (off + 4) in
                     m B (Z.lor (Z.shiftl high 32) (Z.land low 0xFFFFFFFF)))).
  { intros B. unfold parseLong.
    destruct (getInt32 B off); cbn [bind]; [|reflexivity].
    destruct (getInt32 B (off + 4)); reflexivity. }
  unfold getInt32.
  apply Stable_bytes; [lia|]. intros high.
  replace (off + 8) with (off + 4 + 4) by lia.
  apply Stable_bytes; [lia|]. intros low.
  replace (off + 4 + 4) with (off + 8) by lia. apply Hm.
Qed.

Section Truncation.

Variable P : Platform.

Lemma Stable_readString off lo :
  lo <= off -> Stable (fun B => readString P B off) off lo.
Proof.
  intros Hlo. unfold readString, getUint16.
  apply Stable_bytes; [lia|]. intros len.
  apply (Stable_ext
           (fun B => let! strBuffer := rmap (fun bs => bs) (bytesAt B (off + 2) len) in
                     Ok (TextDecoder_decode P strBuffer, off + 2 + len))).
  { intros B. unfold rmap. now destruct (bytesAt B (off + 2) len). }
  apply Stable_bytes; [lia|]. intros bs. apply Stable_ret. lia.
Qed.

Lemma Stable_named {A} (m : list byte -> option string -> Z -> result (A * Z)) off :
  (forall nm off1, Stable (fun B => m B nm off1) off1 off1) ->
  Stable (fun B => let! (nm, off1) :=
                     (let! (s, offset) := readString P B off in Ok (Some s, offset)) in
                   m B nm off1) off off.
Proof.
  intros Hm. apply Stable_bind; [|exact Hm].
  apply (Stable_bind (fun B => readString P B off) (fun _ s offset => Ok (Some s, offset))).
  - apply Stable_readString. lia.
  - intros s off1. apply Stable_ret. lia.
Qed.

Lemma readTag_stable fuel :
  (forall isRoot forced nm off lo,
      lo <= match forced with None => off + 1 | Some _ => off end ->
      Stable (fun B => readTag P fuel B isRoot forced nm off) off lo) /\
  (forall acc off lo,
      lo <= off + 1 ->
      Stable (fun B => readCompound P fuel B acc off) off lo).
Proof.
  induction fuel as [|fuel [IHt IHc]].
  { split; intros; apply Stable_throw. }
  assert (Hbody : forall (isRoot : bool) (forced : option Z) (nm : option string) (ty off : Z),
    Stable (fun B =>
      if ty =? 0 then Ok (mkTag ty None VNull, off)
      else
        let! (name, offset) :=
          match nm with
          | None =>
              if isRoot then
                let! (s, offset) := readString P B off in Ok (Some s, offset)
              else match forced with
                   | None => let! (s, offset) := readString P B off in Ok (Some s, offset)
                   | Some _ => Ok (None, off)
                   end
          | Some n => Ok (Some n, off)
          end in
        let! (value, offset) :=
          match ty with
          | 1 => let! v := getInt8 B offset in Ok (VNumber v, offset + 1)
          | 2 => let! v := getInt16 B offset in Ok (VNumber v, offset + 2)
          | 3 => let! v := getInt32 B offset in Ok (VNumber v, offset + 4)
          | 4 => let! v := parseLong B offset in Ok (VBigInt v, offset + 8)
          | 5 => let! v := getFloat32 B offset in Ok (VFloat v, offset + 4)
          | 6 => let! v := getFloat64 B offset in Ok (VDouble v, offset + 8)
          | 7 =>
              let! lenByte := getInt32 B offset in
              let offset := offset + 4 in
              let! bs := bytesAt B offset lenByte in
              Ok (VNumArray (map (fun b => to_signed 8 (byte_val b)) bs),
                  offset + lenByte)
          | 8 => let! (s, offset) := readString P B offset in Ok (VString s, offset)
          | 9 =>
              let! itemType := getUint8 B offset in
              let offset := offset + 1 in
              let! listLen := getInt32 B offset in
              let offset := offset + 4 in
              let! (list, offset) :=
                repeatM (readTag P fuel B false (Some itemType) None)
                        (Z.to_nat listLen) [] offset in
              Ok (VList itemType list, offset)
          | 10 => readCompound P fuel B [] offset
          | 11 =>
              let! lenInt := getInt32 B offset in
              let offset := offset + 4 in
              let! (a, offset) :=
                repeatM (fun offset => let! v := getInt32 B offset in
                                       Ok (v, offset + 4))
                        (Z.to_nat lenInt) [] offset in
              Ok (VNumArray a, offset)
          | 12 =>
              let! lenLong := getInt32 B offset in
              let offset := offset + 4 in
              let! (a, offset) :=
                repeatM (fun offset => let! v := parseLong B offset in
                                       Ok (v, offset + 8))
                        (Z.to_nat lenLong) [] offset in
              Ok (VBigArray a, offset)
          | _ => Ok (VUndefined, offset)
          end in
        Ok (mkTag ty name value, offset)) off off).
  { intros isRoot forced nm ty off.
    destruct (ty =? 0) eqn:Ety; [apply Stable_ret; lia|].
    apply Stable_bind.
    - destruct nm as [n|]; [apply Stable_ret; lia|].
      assert (Hs : Stable (fun B => let! (s, offset) := readString P B off in
                                    Ok (Some s, offset)) off off).
      { apply (Stable_bind (fun B => readString P B off)
                           (fun _ s offset => Ok (Some s, offset))).
        - apply Stable_readString. lia.
        - intros s off1. apply Stable_ret. lia. }
      destruct isRoot; [exact Hs|].
      destruct forced; [apply Stable_ret; lia|exact Hs].
    - intros name off1. apply Stable_bind; [|intros; apply Stable_ret; lia].
      destruct ty as [|p|p]; [apply Stable_ret; lia | | apply Stable_ret; lia].
      pos_cases p; cbv zeta;
        first
          [ apply Stable_ret; lia
          | unfold getInt8, getInt16, getInt32, getFloat32, getFloat64;
            apply Stable_bytes; [lia|]; intros; apply Stable_ret; lia
          | apply Stable_parseLong; [lia|]; intros; apply Stable_ret; lia
          | unfold getInt32; apply Stable_bytes; [lia|]; intros;
            apply Stable_bytesAt; [lia|]; intros; apply Stable_ret; lia
          | apply (Stable_bind (fun B => readString P B _)
                               (fun _ s o => Ok (VString s, o)));
            [apply Stable_readString; lia | intros; apply Stable_ret; lia]
          | unfold getUint8, getInt32; apply Stable_bytes; [lia|]; intros;
            apply Stable_bytes; [lia|]; intros;
            apply Stable_bind; [|intros; apply Stable_ret; lia];
            apply (Stable_repeatM
                     (fun B off => readTag P fuel B false (Some _) None off));
            intros; apply IHt; lia
          | apply IHc; lia
          | unfold getInt32 at 1; apply Stable_bytes; [lia|]; intros;
            apply Stable_bind; [|intros; apply Stable_ret; lia];
            apply (Stable_repeatM
                     (fun B offset => let! v := getInt32 B offset in
                                      Ok (v, offset + 4)));
            intros; unfold getInt32; apply Stable_bytes; [lia|]; intros;
            apply Stable_ret; lia
          | unfold getInt32; apply Stable_bytes; [lia|]; intros;
            apply Stable_bind; [|intros; apply Stable_ret; lia];
            apply (Stable_repeatM
                     (fun B offset => let! v := parseLong B offset in
                                      Ok (v, offset + 8)));
            intros; apply Stable_parseLong; [lia|]; intros; apply Stable_ret; lia ]. }
  split.
  - intros isRoot forced nm off lo Hlo. cbn [readTag].
    apply Stable_bind; [|intros ty off1; apply Hbody].
    destruct forced as [t|]; [apply Stable_ret; lia|].
    unfold getUint8. apply Stable_bytes; [lia|]. intros v. apply Stable_ret. lia.
  - intros acc off lo Hlo. cbn [readCompound].
    unfold getUint8. apply Stable_peek; [lia|]. intros v.
    destruct (v =? 0); [apply StableFrom_ret|].
    apply (StableFrom_Stable _ off); [lia|].
    apply Stable_bind; [apply IHt; lia | intros; apply IHc; lia].
Qed.

End Truncation.

(** ** Tree utilities *)

(** *** Error-free maps *)

Lemma mapM_ok {A B} (f : A -> result B) (g : A -> B) l :
  (forall x, In x l -> f x = Ok (g x)) -> mapM f l = Ok (map g l).
Proof.
  induction l as [|x l IH]; intros H; simpl; [reflexivity|].
  rewrite (H x) by now left. cbn [bind].
  rewrite IH by (intros y Hy; apply H; now right). reflexivity.
Qed.

Lemma mapiM_ok {A B} (f : A -> nat -> result B) (g : A -> nat -> B) l :
  forall i,
    (forall k x, l !! k = Some x -> f x (i + k)%nat = Ok (g x (i + k)%nat)) ->
    mapiM f l i = Ok (mapi g l i).
Proof.
  induction l as [|x l IH]; intros i H; simpl; [reflexivity|].
  specialize (H 0%nat x eq_refl) as Hx. rewrite Nat.add_0_r in Hx.
  rewrite Hx. cbn [bind].
  rewrite IH; [reflexivity|].
  intros k y Hy. specialize (H (S k) y Hy).
  now replace (S i + k)%nat with (i + S k)%nat by lia.
Qed.

Lemma shaped_children ty nm v :
  shaped (mkTag ty nm v) = true ->
  (ty = 10 -> exists cs, v = VTags cs /\ forallb shaped cs = true) /\
  (ty = 9 -> exists it l, v = VList it l /\ forallb shaped l = true).
Proof.
  simpl. split; intros ->; simpl in *.
  - destruct v; try discriminate. eauto.
  - destruct v; try discriminate. eauto.
Qed.

Lemma cloneTag_shaped t : shaped t = true -> cloneTag t = Ok t.
Proof.
  induction t as [ty nm v IH] using NBTTag_ind'. intros Hs.
  destruct (shaped_children _ _ _ Hs) as [Hc Hl].
  destruct (Z.eqb_spec ty 10) as [->|Hn10].
  - destruct (Hc eq_refl) as (cs & -> & Hcs). cbn [cloneTag Z.eqb Pos.eqb].
    cbn [childrenOf] in IH.
    rewrite (mapM_ok cloneTag (fun c => c)).
    + cbn [bind]. now rewrite map_id.
    + intros c Hin. rewrite List.Forall_forall in IH. apply IH; [exact Hin|].
      rewrite forallb_forall in Hcs. now apply Hcs.
  - destruct (Z.eqb_spec ty 9) as [->|Hn9].
    + destruct (Hl eq_refl) as (it & l & -> & Hls). cbn [cloneTag Z.eqb Pos.eqb].
      cbn [childrenOf] in IH.
      rewrite (mapM_ok cloneTag (fun c => c)).
      * cbn [bind]. now rewrite map_id.
      * intros c Hin. rewrite List.Forall_forall in IH. apply IH; [exact Hin|].
        rewrite forallb_forall in Hls. now apply Hls.
    + apply Z.eqb_neq in Hn10, Hn9.
      destruct v; cbn [cloneTag]; rewrite ?Hn10, ?Hn9; reflexivity.
Qed.

Lemma lpath_annotate t p : lpath (annotate t p) = p.
Proof. now destruct t. Qed.

Lemma In_lookup {A} (l : list A) k x : l !! k = Some x -> In x l.
Proof. intros H. apply list_elem_of_In. eapply list_elem_of_lookup_2; eauto. Qed.

Lemma flattenTree_labels t : forall p,
  shaped t = true -> flattenTree t p = Ok (labels (annotate t p)).
Proof.
  induction t as [ty nm v IH] using NBTTag_ind'. intros p Hs.
  destruct (shaped_children _ _ _ Hs) as [Hc Hl].
  rewrite List.Forall_forall in IH.
  cbn [flattenTree annotate labels].
  destruct (Z.eqb_spec ty 10) as [->|Hn10].
  - destruct (Hc eq_refl) as (cs & -> & Hcs). cbn [childrenOf] in IH.
    rewrite forallb_forall in Hcs.
    rewrite (mapM_ok _ (fun c => labels (annotate c (compoundPath p c)))).
    + cbn [bind]. now rewrite map_map.
    + intros c Hin. apply IH; auto.
  - destruct (Z.eqb_spec ty 9) as [->|Hn9]; [|reflexivity].
    destruct (Hl eq_refl) as (it & l & -> & Hls). cbn [childrenOf] in IH.
    rewrite forallb_forall in Hls.
    rewrite (mapiM_ok _ (fun c idx => labels (annotate c (listPath p idx)))).
    + cbn [bind]. do 3 f_equal.
      generalize 0%nat. clear. induction l as [|c l IHl]; intros i; simpl; [reflexivity|].
      now rewrite IHl.
    + intros k c Hk. apply In_lookup in Hk. apply IH; auto.
Qed.

Lemma filterNonNull_map S (A : NBTTag -> Labelled) l :
  filterNonNull
    (map (fun c => if bool_decide (lpath (A c) ∈ S) then None
                   else Some (rebuild (prune S (A c)))) l)
  = map rebuild (survivors S (prune S) (map A l)).
Proof.
  unfold filterNonNull. induction l as [|c l IH]; [reflexivity|].
  cbn [map survivors omap]. destruct (bool_decide (lpath (A c) ∈ S)); cbn [id map].
  - exact IH.
  - now rewrite <- IH.
Qed.

Lemma filterNonNull_mapi S (A : NBTTag -> nat -> Labelled) l : forall i,
  filterNonNull
    (mapi (fun c idx => if bool_decide (lpath (A c idx) ∈ S) then None
                        else Some (rebuild (prune S (A c idx)))) l i)
  = map rebuild (survivors S (prune S) (mapi A l i)).
Proof.
  unfold filterNonNull. induction l as [|c l IH]; intros i; [reflexivity|].
  cbn [mapi survivors omap]. destruct (bool_decide (lpath (A c i) ∈ S)); cbn [id map].
  - apply IH.
  - now rewrite <- IH.
Qed.

Lemma recursiveDelete_spec S t : forall p,
  shaped t = true ->
  recursiveDelete S t p =
  Ok (if bool_decide (p ∈ S) then None
      else Some (rebuild (prune S (annotate t p)))).
Proof.
  induction t as [ty nm v IH] using NBTTag_ind'. intros p Hs.
  destruct (shaped_children _ _ _ Hs) as [Hc Hl].
  rewrite List.Forall_forall in IH.
  cbn [recursiveDelete].
  destruct (bool_decide (p ∈ S)); [reflexivity|].
  cbn [annotate prune rebuild].
  destruct (Z.eqb_spec ty 10) as [->|Hn10].
  - destruct (Hc eq_refl) as (cs & -> & Hcs). cbn [childrenOf] in IH.
    rewrite forallb_forall in Hcs.
    rewrite (mapM_ok _ (fun c =>
               if bool_decide (lpath (annotate c (compoundPath p c)) ∈ S) then None
               else Some (rebuild (prune S (annotate c (compoundPath p c)))))).
    + cbn [bind].
      now rewrite (filterNonNull_map S (fun c => annotate c (compoundPath p c))).
    + intros c Hin. rewrite lpath_annotate. apply IH; auto.
  - destruct (Z.eqb_spec ty 9) as [->|Hn9]; [|reflexivity].
    destruct (Hl eq_refl) as (it & l & -> & Hls). cbn [childrenOf] in IH.
    rewrite forallb_forall in Hls.
    rewrite (mapiM_ok _ (fun c idx =>
               if bool_decide (lpath (annotate c (listPath p idx)) ∈ S) then None
               else Some (rebuild (prune S (annotate c (listPath p idx)))))).
    + cbn [bind].
      now rewrite (filterNonNull_mapi S (fun c idx => annotate c (listPath p idx))).
    + intros k c Hk. apply In_lookup in Hk. rewrite lpath_annotate. apply IH; auto.
Qed.

Lemma survivors_all S pr ks :
  (forall k, In k ks -> lpath k ∉ S) -> survivors S pr ks = map pr ks.
Proof.
  induction ks as [|k ks IH]; intros H; simpl; [reflexivity|].
  rewrite bool_decide_eq_false_2 by (apply H; now left).
  rewrite IH by (intros k' Hk'; apply H; now right). reflexivity.
Qed.

Lemma mapi_lookup {A B} (g : A -> nat -> B) l : forall i y,
  In y (mapi g l i) -> exists k x, l !! k = Some x /\ y = g x (i + k)%nat.
Proof.
  induction l as [|x l IH]; intros i y; simpl; [tauto|].
  intros [<-|Hin].
  - exists 0%nat, x. split; [reflexivity|]. f_equal. lia.
  - destruct (IH _ _ Hin) as (k & x' & Hk & ->).
    exists (S k), x'. split; [exact Hk|]. f_equal. lia.
Qed.

Lemma In_mapi {A B} (g : A -> nat -> B) l : forall i k x,
  l !! k = Some x -> In (g x (i + k)%nat) (mapi g l i).
Proof.
  induction l as [|y l IH]; intros i k x Hk; [discriminate|].
  destruct k as [|k]; simpl in *.
  - injection Hk as ->. left. f_equal. lia.
  - right. replace (i + S k)%nat with (S i + k)%nat by lia. now apply IH.
Qed.

Lemma map_mapi {A B C} (f : B -> C) (g : A -> nat -> B) l : forall i,
  map f (mapi g l i) = mapi (fun c idx => f (g c idx)) l i.
Proof. induction l as [|x l IH]; intros i; simpl; [reflexivity|]. now rewrite IH. Qed.

Lemma mapi_id {A} (g : A -> nat -> A) l : forall i,
  (forall k x, l !! k = Some x -> g x (i + k)%nat = x) -> mapi g l i = l.
Proof.
  induction l as [|x l IH]; intros i H; simpl; [reflexivity|].
  specialize (H 0%nat x eq_refl) as Hx. rewrite Nat.add_0_r in Hx. rewrite Hx.
  f_equal. apply IH. intros k y Hy. specialize (H (S k) y Hy).
  now replace (S i + k)%nat with (i + S k)%nat by lia.
Qed.

Lemma labels_head t p : In p (labels (annotate t p)).
Proof. destruct t. simpl. now left. Qed.

Lemma in_concat_map {A} (f : A -> list string) l x q :
  In x l -> In q (f x) -> In q (concat (map f l)).
Proof.
  intros Hx Hq. apply in_concat. exists (f x). split; [|exact Hq].
  now apply in_map.
Qed.

Lemma prune_noop S t : forall p,
  shaped t = true ->
  (forall q, In q (labels (annotate t p)) -> q ∉ S) ->
  rebuild (prune S (annotate t p)) = t.
Proof.
  induction t as [ty nm v IH] using NBTTag_ind'. intros p Hs Hq.
  destruct (shaped_children _ _ _ Hs) as [Hc Hl].
  rewrite List.Forall_forall in IH.
  cbn [annotate prune rebuild labels] in *.
  destruct (Z.eqb_spec ty 10) as [->|Hn10].
  - destruct (Hc eq_refl) as (cs & -> & Hcs). cbn [childrenOf] in IH.
    rewrite forallb_forall in Hcs.
    rewrite survivors_all.
    + rewrite !map_map. do 2 f_equal. rewrite <- (map_id cs) at 2.
      apply map_ext_in. intros c Hin. apply IH; auto.
      intros q Hin'. apply Hq. right.
      rewrite map_map. now apply (in_concat_map _ cs c).
    + intros k Hk. apply in_map_iff in Hk as (c & <- & Hin).
      rewrite lpath_annotate. apply Hq. right. rewrite map_map.
      apply (in_concat_map _ cs c); [exact Hin|apply labels_head].
  - destruct (Z.eqb_spec ty 9) as [->|Hn9]; [|reflexivity].
    destruct (Hl eq_refl) as (it & l & -> & Hls). cbn [childrenOf] in IH.
    rewrite forallb_forall in Hls.
    assert (Hsub : forall k c q, l !! k = Some c ->
                     In q (labels (annotate c (listPath p k))) -> q ∉ S).
    { intros k c q Hk Hin. apply Hq. right. apply in_concat.
      exists (labels (annotate c (listPath p k))). split; [|exact Hin].
      apply in_map.
      apply (In_mapi (fun c idx => annotate c (listPath p idx)) l 0 k c Hk). }
    rewrite survivors_all.
    + rewrite !map_mapi. do 2 f_equal. apply mapi_id.
      intros k c Hk. simpl. apply IH; eauto using In_lookup.
    + intros k Hk. apply mapi_lookup in Hk as (i & c & Hi & ->).
      rewrite lpath_annotate. eapply Hsub; [exact Hi|apply labels_head].
Qed.

(** What [deleteNodesByPaths] returns on a well-shaped tree: the fallback
    [{ ...root, value: [] }] when the root's path is in the set, the pruned
    tree otherwise. *)
Lemma deleteNodesByPaths_shaped root S :
  shaped root = true ->
  deleteNodesByPaths root S
  = Ok (if bool_decide ("root" ∈ S)
        then mkTag (type root) (name root) (VTags [])
        else rebuild (prune S (annotate root "root"))).
Proof.
  intros Hs. unfold deleteNodesByPaths.
  rewrite cloneTag_shaped by exact Hs. cbn [bind].
  rewrite recursiveDelete_spec by exact Hs. cbn [bind].
  now destruct (bool_decide ("root" ∈ S)).
Qed.

Lemma deleteNodesByPaths_spec root S :
  shaped root = true -> "root" ∉ S ->
  deleteNodesByPaths root S = Ok (spec_bulk_delete root S).
Proof.
  intros Hs Hroot. rewrite deleteNodesByPaths_shaped by exact Hs.
  now rewrite bool_decide_eq_false_2 by exact Hroot.
Qed.

Lemma root_emptied root S :
  shaped root = true -> "root" ∈ S ->
  deleteNodesByPaths root S = Ok (mkTag (type root) (name root) (VTags [])).
Proof.
  intros Hs Hin. rewrite deleteNodesByPaths_shaped by exact Hs.
  now rewrite bool_decide_eq_true_2.
Qed.

(** C5 (bulk delete postcondition) holds for every path set but those that
    hold the root's path.  On a well-shaped tree the paths of the single
    top-down walk are those of [flattenTree].  For a set without the root's
    path [deleteNodesByPaths] returns what the specification describes
    ([spec_bulk_delete]: label every node with its current path, drop each
    child whose label is in the set together with its subtree, keep the
    others in their order and prune them in turn), and when no path of
    [flattenTree] is in the set that is the input tree.  For a set with the
    root's path the code does not do what the specification describes: it
    returns the root without any child, whereas no child whose path is
    outside the set is to be removed; the two agree only when the
    specification leaves no child either. *)
Theorem bulk_delete_postcondition root S :
  shaped root = true ->
  flattenTree root "root" = Ok (labels (annotate root "root")) /\
  ("root" ∉ S -> deleteNodesByPaths root S = Ok (spec_bulk_delete root S)) /\
  (forall ps, flattenTree root "root" = Ok ps ->
              Forall (fun q => q ∉ S) ps ->
              deleteNodesByPaths root S = Ok root /\ spec_bulk_delete root S = root) /\
  ("root" ∈ S ->
     deleteNodesByPaths root S = Ok (mkTag (type root) (name root) (VTags [])) /\
     (deleteNodesByPaths root S = Ok (spec_bulk_delete root S) ->
      spec_bulk_delete root S = mkTag (type root) (name root) (VTags []))).
Proof.
  intros Hs. split; [now apply flattenTree_labels|].
  split; [now apply deleteNodesByPaths_spec|]. split.
  - intros ps Hps Hall. rewrite flattenTree_labels in Hps by exact Hs.
    injection Hps as <-. rewrite List.Forall_forall in Hall.
    assert (Hsame : spec_bulk_delete root S = root).
    { unfold spec_bulk_delete. apply prune_noop; auto. }
    split; [|exact Hsame].
    rewrite deleteNodesByPaths_spec by (auto; apply Hall, labels_head).
    now rewrite Hsame.
  - intros Hin. rewrite (root_emptied root S Hs Hin).
    split; [reflexivity|]. now intros [= <-].
Qed.

(** *** Same-named siblings *)

Lemma count_concat_two (L : list (list string)) q : forall i j l1 l2,
  (i < j)%nat -> L !! i = Some l1 -> L !! j = Some l2 -> In q l1 -> In q l2 ->
  (2 <= count_occ string_dec (concat L) q)%nat.
Proof.
  induction L as [|x L IH]; intros i j l1 l2 Hij Hi Hj H1 H2; [discriminate|].
  simpl. rewrite count_occ_app.
  destruct i as [|i].
  - injection Hi as ->. destruct j as [|j]; [lia|]. simpl in Hj.
    assert (In q (concat L)).
    { apply in_concat. exists l2. split; [|exact H2]. eapply In_lookup; eauto. }
    apply (count_occ_In string_dec) in H1, H. lia.
  - destruct j as [|j]; [lia|]. simpl in Hi, Hj.
    specialize (IH i j l1 l2 ltac:(lia) Hi Hj H1 H2). lia.
Qed.

Lemma survivors_two S pr ks : forall i j k1 k2,
  (i < j)%nat -> ks !! i = Some k1 -> ks !! j = Some k2 ->
  lpath k1 ∈ S -> lpath k2 ∈ S ->
  (length (survivors S pr ks) + 2 <= length ks)%nat.
Proof.
  assert (Hle : forall ks, (length (survivors S pr ks) <= length ks)%nat).
  { induction ks0 as [|k ks0 IH]; simpl; [lia|].
    destruct (bool_decide (lpath k ∈ S)); simpl; lia. }
  assert (Hone : forall ks j k2, ks !! j = Some k2 -> lpath k2 ∈ S ->
                   (length (survivors S pr ks) + 1 <= length ks)%nat).
  { induction ks0 as [|k ks0 IH]; intros j k2 Hj H2; [discriminate|].
    destruct j as [|j]; simpl in *.
    - injection Hj as ->. rewrite bool_decide_eq_true_2 by exact H2.
      specialize (Hle ks0). lia.
    - specialize (IH j k2 Hj H2).
      destruct (bool_decide (lpath k ∈ S)); simpl; lia. }
  induction ks as [|k ks IH]; intros i j k1 k2 Hij Hi Hj H1 H2; [discriminate|].
  destruct i as [|i]; simpl in *.
  - injection Hi as ->. rewrite bool_decide_eq_true_2 by exact H1.
    destruct j as [|j]; [lia|]. simpl in Hj.
    specialize (Hone ks j k2 Hj H2). lia.
  - destruct j as [|j]; [lia|]. simpl in Hj.
    specialize (IH i j k1 k2 ltac:(lia) Hi Hj H1 H2).
    destruct (bool_decide (lpath k ∈ S)); simpl; lia.
Qed.

Lemma name_rebuild_prune S t p : name (rebuild (prune S (annotate t p))) = name t.
Proof.
  destruct t as [ty nm v]. cbn [annotate prune rebuild].
  destruct (ty =? 10); [reflexivity|].
  destruct (ty =? 9); [|reflexivity].
  now destruct v.
Qed.

Lemma survivors_In S pr ks k' :
  In k' (survivors S pr ks) -> exists k, In k ks /\ (lpath k ∉ S) /\ k' = pr k.
Proof.
  induction ks as [|k ks IH]; simpl; [tauto|].
  destruct (bool_decide (lpath k ∈ S)) eqn:E.
  - intros H. destruct (IH H) as (k0 & ? & ? & ?). eauto.
  - apply bool_decide_eq_false in E. intros [<-|H]; [eauto|].
    destruct (IH H) as (k0 & ? & ? & ?). eauto.
Qed.

Lemma root_path_fresh c : compoundPath "root" c <> "root".
Proof. unfold compoundPath. simpl. intros H. discriminate. Qed.

(** C10 (duplicate-name path collision).  Two children of a Compound that
    carry the same name get the same path string, so [flattenTree] lists that
    path at least twice; a deletion whose set holds that path removes every
    child of that name; and [deleteNodesByPaths] on such a root with the one
    shared path alone removes at least two children: more nodes than the one
    path supplied. *)
Theorem duplicate_names_collide tag p children c1 c2 (i j : nat) :
  type tag = TagType.Compound -> value tag = VTags children ->
  shaped tag = true ->
  children !! i = Some c1 -> children !! j = Some c2 -> i <> j ->
  name c1 = name c2 ->
  compoundPath p c2 = compoundPath p c1 /\
  (exists ps, flattenTree tag p = Ok ps /\
              (2 <= count_occ string_dec ps (compoundPath p c1))%nat) /\
  (forall S : gset string, compoundPath p c1 ∈ S -> p ∉ S ->
     exists children',
       recursiveDelete S tag p = Ok (Some (mkTag (type tag) (name tag) (VTags children'))) /\
       Forall (fun c' => name c' <> name c1) children' /\
       (length children' + 2 <= length children)%nat) /\
  (exists children',
     deleteNodesByPaths tag {[ compoundPath "root" c1 ]} =
       Ok (mkTag (type tag) (name tag) (VTags children')) /\
     size ({[ compoundPath "root" c1 ]} : gset string) = 1%nat /\
     (length children' + 2 <= length children)%nat).
Proof.
  destruct tag as [ty nm v]. cbn [type value name]. intros -> -> Hs Hi Hj Hij Hn.
  assert (Hq : forall p, compoundPath p c2 = compoundPath p c1).
  { intros p'. unfold compoundPath. now rewrite Hn. }
  assert (Hdel : forall p (S : gset string), compoundPath p c1 ∈ S -> p ∉ S ->
     exists children',
       recursiveDelete S (mkTag 10 nm (VTags children)) p
         = Ok (Some (mkTag 10 nm (VTags children'))) /\
       Forall (fun c' => name c' <> name c1) children' /\
       (length children' + 2 <= length children)%nat).
  { intros p' S Hin Hp. rewrite recursiveDelete_spec by exact Hs.
    rewrite bool_decide_eq_false_2 by exact Hp.
    cbn [annotate prune rebuild Z.eqb Pos.eqb].
    eexists. split; [reflexivity|]. split.
    - apply List.Forall_forall. intros c' Hc'.
      apply in_map_iff in Hc' as (k' & <- & Hk').
      apply survivors_In in Hk' as (k & Hk & Hout & ->).
      apply in_map_iff in Hk as (c & <- & Hc).
      rewrite lpath_annotate in Hout. rewrite name_rebuild_prune.
      intros Heq. apply Hout. unfold compoundPath in *. now rewrite Heq.
    - rewrite length_map.
      assert (Hlen : length children = length (map (fun c => annotate c (compoundPath p' c)) children))
        by now rewrite length_map.
      rewrite Hlen.
      destruct (Nat.lt_total i j) as [Hlt|[Heq|Hgt]]; [|contradiction|].
      + eapply (survivors_two _ _ _ i j); [exact Hlt| | | |].
        * rewrite list_lookup_fmap, Hi. reflexivity.
        * rewrite list_lookup_fmap, Hj. reflexivity.
        * now rewrite lpath_annotate.
        * now rewrite lpath_annotate, Hq.
      + eapply (survivors_two _ _ _ j i); [exact Hgt| | | |].
        * rewrite list_lookup_fmap, Hj. reflexivity.
        * rewrite list_lookup_fmap, Hi. reflexivity.
        * now rewrite lpath_annotate, Hq.
        * now rewrite lpath_annotate. }
  split; [apply Hq|]. split; [|split].
  - rewrite flattenTree_labels by exact Hs. eexists. split; [reflexivity|].
    cbn [annotate labels Z.eqb Pos.eqb]. rewrite map_map.
    cbn [count_occ].
    assert (Hcount : (2 <= count_occ string_dec
               (concat (map (fun c => labels (annotate c (compoundPath p c))) children))
               (compoundPath p c1))%nat).
    { destruct (Nat.lt_total i j) as [Hlt|[Heq|Hgt]]; [|contradiction|].
      - eapply (count_concat_two _ _ i j); [exact Hlt| | | |].
        + rewrite list_lookup_fmap, Hi. reflexivity.
        + rewrite list_lookup_fmap, Hj. reflexivity.
        + apply labels_head.
        + rewrite <- Hq. apply labels_head.
      - eapply (count_concat_two _ _ j i); [exact Hgt| | | |].
        + rewrite list_lookup_fmap, Hj. reflexivity.
        + rewrite list_lookup_fmap, Hi. reflexivity.
        + rewrite <- Hq. apply labels_head.
        + apply labels_head. }
    destruct (string_dec p (compoundPath p c1)); lia.
  - intros S. apply Hdel.
  - destruct (Hdel "root" {[ compoundPath "root" c1 ]}) as (children' & Hd & _ & Hlen).
    + set_solver.
    + intros Hin. apply elem_of_singleton in Hin. symmetry in Hin.
      now apply root_path_fresh in Hin.
    + exists children'. split; [|split; [apply size_singleton|exact Hlen]].
      unfold deleteNodesByPaths.
      rewrite cloneTag_shaped by exact Hs. cbn [bind]. rewrite Hd. reflexivity.
Qed.

(** ** History *)

Module AppProofs.
Import App.

Lemma mapM_inv {A B} (f : A -> result B) l l' :
  mapM f l = Ok l' -> Forall2 (fun x y => f x = Ok y) l l'.
Proof.
  revert l'. induction l as [|x l IH]; intros l' H; simpl in H.
  - injection H as <-. constructor.
  - destruct (f x) as [y|e] eqn:E; [|discriminate]. cbn [bind] in H.
    destruct (mapM f l) as [ys|e]; [|discriminate]. cbn [bind] in H.
    injection H as <-. constructor; auto.
Qed.

Lemma cloneTag_ok t c : cloneTag t = Ok c -> c = t.
Proof.
  revert c. induction t as [ty nm v IH] using NBTTag_ind'. intros c H.
  rewrite List.Forall_forall in IH.
  assert (Hmap : forall l l', (forall x, In x l -> forall c, cloneTag x = Ok c -> c = x) ->
                   mapM cloneTag l = Ok l' -> l' = l).
  { intros l l' Hl Hm. apply mapM_inv in Hm.
    induction Hm as [|x y l l' Hxy _ IHm]; [reflexivity|].
    f_equal; [apply Hl; [now left|exact Hxy]|].
    apply IHm. intros z Hz. apply Hl. now right. }
  destruct v; cbn [cloneTag childrenOf] in *;
    try (injection H as <-; reflexivity);
    try (destruct (ty =? 10); [discriminate|injection H as <-; reflexivity]).
  - destruct (ty =? 9); [|injection H as <-; reflexivity].
    destruct (mapM cloneTag list) as [l'|e] eqn:E; [|discriminate].
    cbn [bind] in H. injection H as <-. now rewrite (Hmap _ _ IH E).
  - destruct (ty =? 10); [|injection H as <-; reflexivity].
    destruct (mapM cloneTag children) as [l'|e] eqn:E; [|discriminate].
    cbn [bind] in H. injection H as <-. now rewrite (Hmap _ _ IH E).
Qed.

Lemma length_sliceLast {A} n (l : list A) : (length (sliceLast n l) <= n)%nat.
Proof. unfold sliceLast. rewrite length_drop. lia. Qed.

Lemma last_sliceLast {A} n (l : list A) x :
  (0 < n)%nat -> last (sliceLast n (l ++ [x])) = Some x.
Proof.
  intros Hn. unfold sliceLast. rewrite length_app. simpl.
  rewrite drop_app_le by lia. apply last_snoc.
Qed.

Lemma pushHistory_inv fid newRoot prev fs :
  pushHistory fid newRoot prev = Ok fs ->
  fs = map (fun f => if negb (String.eqb (id f) fid) then f else committed newRoot f) prev.
Proof.
  unfold pushHistory. intros H. apply mapM_inv in H.
  induction H as [|f g l l' Hfg _ IH]; [reflexivity|].
  simpl. f_equal; [|exact IH].
  destruct (negb (String.eqb (id f) fid)); [now injection Hfg|].
  destruct (cloneTag (root f)) as [c|e] eqn:E; [|discriminate].
  cbn [bind] in Hfg. apply cloneTag_ok in E. subst c. now injection Hfg.
Qed.

Lemma pushHistory_shaped fid newRoot prev :
  Forall (fun f => shaped (root f) = true) prev ->
  pushHistory fid newRoot prev =
  Ok (map (fun f => if negb (String.eqb (id f) fid) then f else committed newRoot f) prev).
Proof.
  intros H. unfold pushHistory. apply mapM_ok. intros f Hf.
  rewrite List.Forall_forall in H.
  destruct (negb (String.eqb (id f) fid)); [reflexivity|].
  rewrite cloneTag_shaped by now apply H. reflexivity.
Qed.

Lemma find_map_id (U : NBTFile -> NBTFile) fid l :
  (forall f, id (U f) = id f) ->
  find (fun f => String.eqb (id f) fid) (map U l)
  = option_map U (find (fun f => String.eqb (id f) fid) l).
Proof.
  intros HU. induction l as [|f l IH]; simpl; [reflexivity|].
  rewrite HU. destruct (String.eqb (id f) fid); [reflexivity|exact IH].
Qed.

Lemma find_id fid l f :
  find (fun f => String.eqb (id f) fid) l = Some f -> id f = fid /\ In f l.
Proof.
  intros H. apply find_some in H as [Hin Hid]. now apply String.eqb_eq in Hid.
Qed.

Lemma activeFile_id s f : activeFile s = Some f -> activeFileId s = Some (id f) /\ In f (files s).
Proof.
  unfold activeFile. destruct (activeFileId s) as [fid|]; [|discriminate].
  intros H. apply find_id in H as [<- Hin]. auto.
Qed.

Lemma commit_active s f r :
  activeFile s = Some f -> id f <> "" -> rootsShaped s ->
  exists s', updateActiveFileRoot r s = Ok s' /\
             activeFile s' = Some (committed r f) /\
             activeFileId s' = activeFileId s /\
             (shaped r = true -> rootsShaped s').
Proof.
  intros Ha Hne Hs. destruct (activeFile_id s f Ha) as [Hid Hin].
  unfold updateActiveFileRoot. rewrite Hid. cbn [noActiveFileId].
  rewrite (proj2 (String.eqb_neq _ _) Hne).
  rewrite pushHistory_shaped by exact Hs. cbn [bind].
  eexists. split; [reflexivity|]. split; [|split; [reflexivity|]].
  - unfold activeFile in *. cbn [activeFileId files]. rewrite Hid in *.
    rewrite find_map_id.
    + rewrite Ha. cbn [option_map]. now rewrite String.eqb_refl.
    + intros g. now destruct (negb (String.eqb (id g) (id f))).
  - intros Hr. unfold rootsShaped in *. cbn [files].
    rewrite List.Forall_forall in *. intros g Hg.
    apply in_map_iff in Hg as (g0 & <- & Hg0).
    destruct (negb (String.eqb (id g0) (id f))); [now apply Hs|exact Hr].
Qed.

Lemma find_map_active (V : NBTFile -> NBTFile) fid l f :
  (forall g, id (V g) = id g) ->
  find (fun f => String.eqb (id f) fid) l = Some f ->
  find (fun f => String.eqb (id f) fid)
       (map (fun g => if String.eqb (id g) fid then V g else g) l) = Some (V f).
Proof.
  intros HV. induction l as [|g l IH]; simpl; [discriminate|].
  destruct (String.eqb (id g) fid) eqn:E.
  - intros [= ->]. now rewrite HV, E.
  - rewrite E. exact IH.
Qed.

Lemma undo_active s f x :
  activeFile s = Some f -> rootsShaped s -> last (undoStack f) = Some x ->
  exists s', handleUndo s = Ok s' /\
             activeFile s' = Some (undone f x) /\
             (shaped x = true -> rootsShaped s').
Proof.
  intros Ha Hs Hx. destruct (activeFile_id s f Ha) as [Hid Hin].
  unfold handleUndo. rewrite Ha, Hx.
  unfold rootsShaped in Hs. rewrite List.Forall_forall in Hs.
  rewrite cloneTag_shaped by now apply Hs. cbn [bind].
  eexists. split; [reflexivity|]. split.
  - unfold activeFile in *. cbn [activeFileId files]. rewrite Hid in *.
    apply (find_map_active (fun g => {| id := id g; filename := filename g; root := x;
             isCompressed := isCompressed g; isModified := true;
             undoStack := removelast (undoStack f);
             redoStack := redoStack f ++ [root f] |}) (id f) (files s) f) in Ha;
      [exact Ha|reflexivity].
  - intros Hsx. unfold rootsShaped. cbn [files].
    apply List.Forall_forall. intros g Hg.
    apply in_map_iff in Hg as (g0 & <- & Hg0).
    destruct (String.eqb (id g0) (id f)); [exact Hsx|now apply Hs].
Qed.

Lemma redo_active s f x :
  activeFile s = Some f -> rootsShaped s -> last (redoStack f) = Some x ->
  exists s', handleRedo s = Ok s' /\
             activeFile s' = Some (redone f x) /\
             (shaped x = true -> rootsShaped s').
Proof.
  intros Ha Hs Hx. destruct (activeFile_id s f Ha) as [Hid Hin].
  unfold handleRedo. rewrite Ha, Hx.
  unfold rootsShaped in Hs. rewrite List.Forall_forall in Hs.
  rewrite cloneTag_shaped by now apply Hs. cbn [bind].
  eexists. split; [reflexivity|]. split.
  - unfold activeFile in *. cbn [activeFileId files]. rewrite Hid in *.
    apply (find_map_active (fun g => {| id := id g; filename := filename g; root := x;
             isCompressed := isCompressed g; isModified := true;
             undoStack := undoStack f ++ [root f];
             redoStack := removelast (redoStack f) |}) (id f) (files s) f) in Ha;
      [exact Ha|reflexivity].
  - intros Hsx. unfold rootsShaped. cbn [files].
    apply List.Forall_forall. intros g Hg.
    apply in_map_iff in Hg as (g0 & <- & Hg0).
    destruct (String.eqb (id g0) (id f)); [exact Hsx|now apply Hs].
Qed.

(** C7 (undo/redo inverse law).  From any state with an active document
    (its id, a UUID, is not the empty string) whose trees are well-shaped: a
    commit installs [newRoot]; an undo right after it restores the tree from
    before the commit; a redo right after that undo restores [newRoot]; and a
    commit made after the undo leaves an empty redo stack, so that a following
    redo changes nothing. *)
Theorem undo_redo_inverse s f newRoot :
  activeFile s = Some f -> id f <> "" ->
  rootsShaped s -> shaped newRoot = true ->
  exists s1 s2 s3 f1 f2 f3,
    updateActiveFileRoot newRoot s = Ok s1 /\ activeFile s1 = Some f1 /\
    root f1 = newRoot /\
    handleUndo s1 = Ok s2 /\ activeFile s2 = Some f2 /\ root f2 = root f /\
    handleRedo s2 = Ok s3 /\ activeFile s3 = Some f3 /\ root f3 = newRoot /\
    forall r, shaped r = true ->
      exists s4 f4,
        updateActiveFileRoot r s2 = Ok s4 /\ activeFile s4 = Some f4 /\
        root f4 = r /\ redoStack f4 = [] /\ handleRedo s4 = Ok s4.
Proof.
  intros Ha Hne Hs Hr.
  assert (Hf : shaped (root f) = true).
  { destruct (activeFile_id s f Ha) as [_ Hin].
    unfold rootsShaped in Hs. rewrite List.Forall_forall in Hs. now apply Hs. }
  destruct (commit_active s f newRoot Ha Hne Hs) as (s1 & H1 & Ha1 & _ & Hs1).
  specialize (Hs1 Hr).
  destruct (undo_active s1 (committed newRoot f) (root f) Ha1 Hs1) as (s2 & H2 & Ha2 & Hs2).
  { cbn [committed undoStack]. apply last_sliceLast. lia. }
  specialize (Hs2 Hf).
  destruct (redo_active s2 _ newRoot Ha2 Hs2) as (s3 & H3 & Ha3 & _).
  { cbn [undone committed redoStack root]. reflexivity. }
  exists s1, s2, s3. do 3 eexists.
  repeat (split; [eassumption || reflexivity|]).
  intros r Hsr.
  destruct (commit_active s2 _ r Ha2 Hne Hs2) as (s4 & H4 & Ha4 & _ & _).
  exists s4. eexists. split; [exact H4|]. split; [exact Ha4|].
  split; [reflexivity|]. split; [reflexivity|].
  unfold handleRedo. rewrite Ha4. reflexivity.
Qed.

Lemma bounded_committed r f : bounded (committed r f).
Proof.
  unfold bounded. cbn [committed undoStack redoStack]. simpl.
  pose proof (length_sliceLast 50 (undoStack f ++ [root f])). lia.
Qed.

Lemma length_removelast_last {A} (l : list A) x :
  last l = Some x -> length l = S (length (removelast l)).
Proof.
  intros H. apply last_Some in H as [l' ->].
  rewrite removelast_last, length_app. simpl. lia.
Qed.

Lemma step_bounded s s' : step s s' -> allBounded s -> allBounded s'.
Proof.
  assert (Hcommit : forall r s s', updateActiveFileRoot r s = Ok s' ->
                                   allBounded s -> allBounded s').
  { intros r s0 s0' H Hb. unfold updateActiveFileRoot in H.
    destruct (activeFileId s0) as [fid|]; [|now injection H as <-].
    destruct (noActiveFileId (Some fid)); [now injection H as <-|].
    destruct (pushHistory fid r (files s0)) as [fs|e] eqn:E; [|discriminate].
    cbn [bind] in H. injection H as <-. apply pushHistory_inv in E. subst fs.
    unfold allBounded in *. cbn [files]. rewrite List.Forall_forall in *.
    intros g Hg. apply in_map_iff in Hg as (g0 & <- & Hg0).
    destruct (negb (String.eqb (id g0) fid)); [now apply Hb|apply bounded_committed]. }
  intros Hstep Hb. destruct Hstep as
    [parsed s|fid s|fid s|paths s|r s s' H|s s' H|s s' H|s s' H].
  - (* open *)
    unfold allBounded in *. unfold filesOpened. cbn [files].
    apply Forall_app. split; [exact Hb|].
    apply List.Forall_forall. intros g Hg. apply in_map_iff in Hg as ([[[i n] r] c] & <- & _).
    unfold bounded. simpl. lia.
  - (* close *)
    unfold allBounded in *. cbn [closeFile files]. rewrite List.Forall_forall in *.
    intros g Hg. apply filter_In in Hg as [Hg _]. now apply Hb.
  - exact Hb.
  - exact Hb.
  - eapply Hcommit; eauto.
  - (* delete selected *)
    unfold deleteSelected in H.
    destruct (activeFile s) as [af|]; [|now injection H as <-].
    destruct (size (selectedPaths s) =? 0)%nat; [now injection H as <-|].
    cbn [negb] in H.
    destruct (deleteNodesByPaths (root af) (selectedPaths s)) as [r|e]; [|discriminate].
    cbn [bind] in H.
    destruct (updateActiveFileRoot r s) as [s1|e] eqn:E; [|discriminate].
    cbn [bind] in H. injection H as <-.
    apply (Hcommit r s s1 E) in Hb. exact Hb.
  - (* undo *)
    unfold handleUndo in H.
    destruct (activeFile s) as [af|] eqn:Ha; [|now injection H as <-].
    destruct (last (undoStack af)) as [x|] eqn:Hx; [|now injection H as <-].
    destruct (cloneTag (root af)) as [c|e]; [|discriminate].
    cbn [bind] in H. injection H as <-.
    destruct (activeFile_id s af Ha) as [_ Hin].
    unfold allBounded in *. cbn [files]. rewrite List.Forall_forall in *.
    intros g Hg. apply in_map_iff in Hg as (g0 & <- & Hg0).
    destruct (String.eqb (id g0) (id af)); [|now apply Hb].
    specialize (Hb af Hin). unfold bounded in *. simpl.
    apply length_removelast_last in Hx. rewrite length_app. simpl. lia.
  - (* redo *)
    unfold handleRedo in H.
    destruct (activeFile s) as [af|] eqn:Ha; [|now injection H as <-].
    destruct (last (redoStack af)) as [x|] eqn:Hx; [|now injection H as <-].
    destruct (cloneTag (root af)) as [c|e]; [|discriminate].
    cbn [bind] in H. injection H as <-.
    destruct (activeFile_id s af Ha) as [_ Hin].
    unfold allBounded in *. cbn [files]. rewrite List.Forall_forall in *.
    intros g Hg. apply in_map_iff in Hg as (g0 & <- & Hg0).
    destruct (String.eqb (id g0) (id af)); [|now apply Hb].
    specialize (Hb af Hin). unfold bounded in *. simpl.
    apply length_removelast_last in Hx. rewrite length_app. simpl. lia.
Qed.

Lemma reachable_bounded s : reachable s -> allBounded s.
Proof.
  induction 1 as [|s s' _ IH Hstep]; [constructor|].
  eapply step_bounded; eauto.
Qed.

Lemma sliceLast_app {A} n (a b : list A) :
  sliceLast n (sliceLast n a ++ b) = sliceLast n (a ++ b).
Proof.
  unfold sliceLast. rewrite !length_app, length_drop.
  destruct (Nat.le_gt_cases (length a) n) as [Hle|Hgt].
  - replace (length a - n)%nat with 0%nat by lia. simpl.
    now replace (length a - 0)%nat with (length a) by lia.
  - replace (length a - (length a - n) + length b - n)%nat with (length b) by lia.
    destruct (Nat.le_gt_cases (length b) n) as [Hb|Hb].
    + rewrite drop_app_le by (rewrite length_drop; lia).
      rewrite drop_drop.
      rewrite (drop_app_le a b) by lia. f_equal. f_equal. lia.
    + rewrite drop_app_ge by (rewrite length_drop; lia).
      rewrite (drop_app_ge a b) by lia. rewrite length_drop. f_equal. lia.
Qed.

Lemma last_cons_default {A} (r : A) rs d : List.last (r :: rs) d = List.last rs r.
Proof.
  revert r d. induction rs as [|x rs IH]; intros r d; [reflexivity|].
  change (List.last (r :: x :: rs) d) with (List.last (x :: rs) d).
  rewrite (IH x d), (IH x r). reflexivity.
Qed.

Lemma commits_run rs : forall s f,
  activeFile s = Some f -> id f <> "" ->
  rootsShaped s -> (length (undoStack f) <= 50)%nat ->
  Forall (fun r => shaped r = true) rs ->
  exists s' f',
    commits rs s = Ok s' /\ activeFile s' = Some f' /\
    root f' = List.last rs (root f) /\
    undoStack f' = sliceLast 50 (undoStack f ++ removelast (root f :: rs)).
Proof.
  induction rs as [|r rs IH]; intros s f Ha Hne Hs Hb Hrs.
  - exists s, f. split; [reflexivity|]. split; [exact Ha|]. split; [reflexivity|].
    simpl. rewrite app_nil_r. unfold sliceLast.
    now replace (length (undoStack f) - 50)%nat with 0%nat by lia.
  - apply Forall_cons in Hrs as [Hr Hrs].
    destruct (commit_active s f r Ha Hne Hs) as (s1 & H1 & Ha1 & _ & Hs1).
    specialize (Hs1 Hr).
    destruct (IH s1 (committed r f) Ha1 Hne Hs1) as (s' & f' & Hc & Ha' & Hroot & Hundo).
    { cbn [committed undoStack]. apply length_sliceLast. }
    { exact Hrs. }
    exists s', f'. split; [|split; [exact Ha'|split]].
    + cbn [commits]. rewrite H1. exact Hc.
    + rewrite Hroot. cbn [committed root]. now rewrite last_cons_default.
    + rewrite Hundo. cbn [committed undoStack root].
      rewrite sliceLast_app, <- app_assoc. reflexivity.
Qed.

Lemma commits_reachable rs : forall s s',
  commits rs s = Ok s' -> reachable s -> reachable s'.
Proof.
  induction rs as [|r rs IH]; intros s s' H Hr; simpl in H.
  - now injection H as <-.
  - destruct (updateActiveFileRoot r s) as [s1|e] eqn:E; [|discriminate].
    cbn [bind] in H. eapply IH; [exact H|].
    eapply reachable_step; [exact Hr|]. now apply (step_commit r).
Qed.

(** C8 (history bound).  In every state reachable through opening, closing,
    selecting, committing, bulk deleting, undoing and redoing, each document
    has at most 50 entries on its undo stack and at most 50 on its redo stack;
    and a run of commits on the active document leaves on its undo stack the
    last 50 of the roots that were current before each commit, the older ones
    being dropped. *)
Theorem history_bounded s :
  reachable s ->
  (forall f, In f (files s) ->
     (length (undoStack f) <= 50)%nat /\ (length (redoStack f) <= 50)%nat) /\
  (forall f rs,
     activeFile s = Some f -> id f <> "" -> rootsShaped s ->
     Forall (fun r => shaped r = true) rs ->
     exists s' f',
       commits rs s = Ok s' /\ reachable s' /\ activeFile s' = Some f' /\
       root f' = List.last rs (root f) /\
       undoStack f' = sliceLast 50 (undoStack f ++ removelast (root f :: rs)) /\
       (length (undoStack f') <= 50)%nat).
Proof.
  intros Hr. pose proof (reachable_bounded s Hr) as Hb.
  unfold allBounded in Hb. rewrite List.Forall_forall in Hb. split.
  - intros f Hf. specialize (Hb f Hf). unfold bounded in Hb. lia.
  - intros f rs Ha Hne Hs Hrs.
    destruct (activeFile_id s f Ha) as [_ Hin].
    specialize (Hb f Hin). unfold bounded in Hb.
    destruct (commits_run rs s f Ha Hne Hs ltac:(lia) Hrs) as (s' & f' & Hc & Ha' & Hroot & Hundo).
    exists s', f'. repeat split; auto.
    + eapply commits_reachable; eauto.
    + rewrite Hundo. apply length_sliceLast.
Qed.

End AppProofs.

(** ** 64-bit fidelity *)

(** C2 (64-bit fidelity).  For every 64-bit signed [v], the minimum, the
    maximum and the values beyond 53 bits included: both 32-bit halves that
    [writeLong] passes through [Number] are converted exactly, and
    [parseLong] over the eight bytes written gives [v] back. *)
Theorem long_fidelity v :
  - 2 ^ 63 <= v < 2 ^ 63 ->
  Number (Z.shiftr v 32) = Z.shiftr v 32 /\
  Number (Z.land v 0xFFFFFFFF) = Z.land v 0xFFFFFFFF /\
  parseLong (map u8 (writeLong v [])) 0 = Ok v.
Proof.
  intros Hv.
  assert (Hhigh : - 2 ^ 31 <= v / 2 ^ 32 < 2 ^ 31).
  { split; [apply Z.div_le_lower_bound | apply Z.div_lt_upper_bound]; lia. }
  pose proof (Z.mod_pos_bound v (2 ^ 32) ltac:(lia)) as Hlow.
  split; [|split].
  - rewrite Z.shiftr_div_pow2 by lia. apply Number_exact. lia.
  - change 0xFFFFFFFF with (Z.ones 32). rewrite Z.land_ones by lia.
    apply Number_exact. lia.
  - rewrite <- (app_nil_r (map u8 (writeLong v []))).
    now apply (parseLong_writeLong [] [] v 0).
Qed.

Lemma long_fidelity_extremes :
  parseLong (map u8 (writeLong (- 2 ^ 63) [])) 0 = Ok (- 2 ^ 63) /\
  parseLong (map u8 (writeLong (2 ^ 63 - 1) [])) 0 = Ok (2 ^ 63 - 1) /\
  parseLong (map u8 (writeLong (2 ^ 53 + 1) [])) 0 = Ok (2 ^ 53 + 1).
Proof.
  split; [|split].
  - apply (long_fidelity (- 2 ^ 63)). lia.
  - apply (long_fidelity (2 ^ 63 - 1)). lia.
  - apply (long_fidelity (2 ^ 53 + 1)). lia.
Defined.

(** ** The round trip on the sample document *)


Lemma compressed_roundtrip_xpLevel :
  exists bytes,
    write framing_platform xpLevel true = Ok bytes /\
    forall fuel, (tagFuel xpLevel <= fuel)%nat ->
                 parse framing_platform fuel bytes = Ok (xpLevel, true).
Proof.
  apply (compressed_roundtrip framing_platform xpLevel);
    [reflexivity | intros bs; reflexivity | intros bs; reflexivity].
Defined.

(** ** Malformed input and gzip framing *)

Lemma bind_ext {A B} (m : result A) (k k' : A -> result B) :
  (forall a, k a = k' a) -> bind m k = bind m k'.
Proof. intros H. destruct m; [apply H|reflexivity]. Qed.

Lemma repeatM_ext {A} (step step' : Z -> result (A * Z)) :
  (forall off, step off = step' off) ->
  forall n acc off, repeatM step n acc off = repeatM step' n acc off.
Proof.
  intros H. induction n as [|n IH]; intros acc off; [reflexivity|].
  cbn [repeatM]. rewrite H. apply bind_ext. intros [a off']. apply IH.
Qed.

Lemma bytesAt_negative B off len : len < 0 -> bytesAt B off len = Throw RangeError.
Proof.
  intros H. unfold bytesAt.
  destruct (Z.leb_spec 0 len); [lia|]. now rewrite andb_false_r.
Qed.

Lemma hasGzipMagic_take arr k :
  hasGzipMagic arr = false -> hasGzipMagic (take k arr) = false.
Proof.
  destruct arr as [|b0 [|b1 tl]]; destruct k as [|[|k]]; simpl; auto.
Qed.

Lemma hasGzipMagic_spec arr :
  hasGzipMagic arr = true <-> exists tl, arr = x1f :: x8b :: tl.
Proof.
  split.
  - destruct arr as [|b0 [|b1 tl]]; try discriminate. simpl.
    rewrite andb_true_iff, !Z.eqb_eq. intros [H0 H1]. exists tl.
    rewrite <- (u8_byte_val b0), <- (u8_byte_val b1), H0, H1. reflexivity.
  - intros [tl ->]. reflexivity.
Qed.

Section Decoder.

Variable P : Platform.

Lemma readString_ext P' :
  (forall bs, TextDecoder_decode P' bs = TextDecoder_decode P bs) ->
  forall B off, readString P' B off = readString P B off.
Proof.
  intros H B off. unfold readString. apply bind_ext. intros len.
  apply bind_ext. intros bs. now rewrite H.
Qed.

Lemma readTag_ext P' :
  (forall bs, TextDecoder_decode P' bs = TextDecoder_decode P bs) ->
  forall fuel,
    (forall B isRoot forced nm off,
        readTag P' fuel B isRoot forced nm off = readTag P fuel B isRoot forced nm off) /\
    (forall B acc off,
        readCompound P' fuel B acc off = readCompound P fuel B acc off).
Proof.
  intros H. induction fuel as [|fuel [IHt IHc]]; [split; reflexivity|].
  split; intros; cbn [readTag readCompound].
  - apply bind_ext. intros [ty off1].
    destruct (ty =? 0); [reflexivity|].
    rewrite !(readString_ext P' H). apply bind_ext. intros [nm1 off2].
    f_equal.
    destruct ty as [|p|p]; try reflexivity.
    pos_cases p; try reflexivity.
    + apply bind_ext. intros it. apply bind_ext. intros len. cbv zeta. f_equal.
      apply repeatM_ext. intros o. apply IHt.
    + apply IHc.
    + now rewrite (readString_ext P' H).
  - apply bind_ext. intros nextType. destruct (nextType =? 0); [reflexivity|].
    rewrite IHt. apply bind_ext. intros [t off1]. apply IHc.
Qed.

Lemma readTag_of_header fuel B isRoot forced off ty nm off1 :
  readHeader P B isRoot forced off = Ok (ty, nm, off1) ->
  readTag P (S fuel) B isRoot forced None off
  = readTag P (S fuel) B false (Some ty) nm off1.
Proof.
  unfold readHeader. cbn [readTag]. intros H.
  assert (Hpay : forall t o,
    (if t =? 0 then Ok (t, None, o)
     else let! (name, offset) :=
            (if isRoot
             then let! (s, offset) := readString P B o in Ok (Some s, offset)
             else match forced with
                  | None => let! (s, offset) := readString P B o in Ok (Some s, offset)
                  | Some _ => Ok (None, o)
                  end) in
          Ok (t, name, offset)) = Ok (ty, nm, off1) ->
    t = ty /\
    ((t =? 0) = true /\ o = off1 \/
     (t =? 0) = false /\
     (if isRoot
      then let! (s, offset) := readString P B o in Ok (Some s, offset)
      else match forced with
           | None => let! (s, offset) := readString P B o in Ok (Some s, offset)
           | Some _ => Ok (None, o)
           end) = Ok (nm, off1))).
  { intros t o Ht. destruct (t =? 0) eqn:E.
    - injection Ht as -> <- ->. auto.
    - match type of Ht with bind ?m _ = _ => destruct m as [[n o']|e] end;
        [|discriminate].
      cbn [bind] in Ht. injection Ht as -> -> ->. auto. }
  destruct forced as [t|]; cbn [bind] in *.
  - apply Hpay in H as [-> [[E ->]|[E Hn]]]; rewrite E; [reflexivity|].
    rewrite Hn. cbn [bind]. now destruct nm.
  - destruct (getUint8 B off) as [t|e]; [|discriminate]. cbn [bind] in *.
    apply Hpay in H as [-> [[E ->]|[E Hn]]]; rewrite E; [reflexivity|].
    rewrite Hn. cbn [bind]. now destruct nm.
Qed.

Lemma repeatM_const {A} (x : A) n : forall acc off,
  repeatM (fun o => Ok (x, o)) n acc off = Ok (acc ++ replicate n x, off).
Proof.
  induction n as [|n IH]; intros acc off; cbn [repeatM replicate bind].
  - now rewrite app_nil_r.
  - rewrite IH, <- app_assoc. reflexivity.
Qed.

(** C3 (decoder rejection of malformed input), as the code has it.  Wherever
    a tag stands (root, child of a Compound, element of a List):
    - when [readTag] reads a root from a buffer (raw, or as inflated) and
      consumes [n] bytes of it, it throws a [RangeError] on every truncation
      to fewer than [n] bytes, and so does [parse] on a raw buffer;
    - a ByteArray whose length field is negative makes [readTag] throw a
      [RangeError];
    - a List of element kind End is read, whatever its count, as that many
      End tags, none of which takes a byte;
    - a negative length of a List, an IntArray or a LongArray is read as an
      empty sequence.
    A failure is a [Throw]: it carries no tree. *)
Theorem decoder_rejection (fuel : nat) (arr : list byte) :
  (forall root n (k : nat),
      readTag P fuel arr true None None 0 = Ok (root, n) ->
      Z.of_nat k < n ->
      readTag P fuel (take k arr) true None None 0 = Throw RangeError /\
      (parse P fuel arr = Ok (root, false) ->
       parse P fuel (take k arr) = Throw RangeError)) /\
  (forall isRoot forcedType off nm off1 len,
      readHeader P arr isRoot forcedType off = Ok (TagType.ByteArray, nm, off1) ->
      getInt32 arr off1 = Ok len -> len < 0 ->
      readTag P (S fuel) arr isRoot forcedType None off = Throw RangeError) /\
  (forall isRoot forcedType off nm off1 count,
      readHeader P arr isRoot forcedType off = Ok (TagType.List, nm, off1) ->
      getUint8 arr off1 = Ok TagType.End ->
      getInt32 arr (off1 + 1) = Ok count ->
      readTag P (S (S fuel)) arr isRoot forcedType None off
      = Ok (mkTag TagType.List nm
              (VList TagType.End
                     (replicate (Z.to_nat count) (mkTag TagType.End None VNull))),
            off1 + 1 + 4)) /\
  (forall isRoot forcedType off nm off1 len,
      len < 0 ->
      (forall itemType,
          readHeader P arr isRoot forcedType off = Ok (TagType.List, nm, off1) ->
          getUint8 arr off1 = Ok itemType ->
          getInt32 arr (off1 + 1) = Ok len ->
          readTag P (S fuel) arr isRoot forcedType None off
          = Ok (mkTag TagType.List nm (VList itemType []), off1 + 1 + 4)) /\
      (readHeader P arr isRoot forcedType off = Ok (TagType.IntArray, nm, off1) ->
       getInt32 arr off1 = Ok len ->
       readTag P (S fuel) arr isRoot forcedType None off
       = Ok (mkTag TagType.IntArray nm (VNumArray []), off1 + 4)) /\
      (readHeader P arr isRoot forcedType off = Ok (TagType.LongArray, nm, off1) ->
       getInt32 arr off1 = Ok len ->
       readTag P (S fuel) arr isRoot forcedType None off
       = Ok (mkTag TagType.LongArray nm (VBigArray []), off1 + 4))).
Proof.
  split; [|split; [|split]].
  - intros root n k Hread Hk.
    assert (Hcut : readTag P fuel (take k arr) true None None 0 = Throw RangeError).
    { destruct (proj1 (readTag_stable P fuel) true None None 0 0 ltac:(lia)
                  arr root n Hread) as [_ Hstable].
      destruct (Hstable k) as [_ Hshort].
      destruct (Hshort Hk) as [Hr|[Hn _]]; [exact Hr|lia]. }
    split; [exact Hcut|]. intros Hparse.
    assert (Hmagic : hasGzipMagic arr = false).
    { unfold parse in Hparse. destruct (hasGzipMagic arr); [|reflexivity].
      destruct (pako_ungzip P arr) as [inflated|]; [|discriminate].
      cbn [bind] in Hparse.
      destruct (readTag P fuel inflated true None None 0) as [[r o]|e]; discriminate. }
    unfold parse. rewrite (hasGzipMagic_take arr k Hmagic). cbn [bind].
    now rewrite Hcut.
  - intros isRoot forcedType off nm off1 len Hh Hlen Hneg.
    rewrite (readTag_of_header _ _ _ _ _ _ _ _ Hh).
    cbn [readTag Z.eqb Pos.eqb bind].
    destruct nm; cbn [bind]; rewrite Hlen; cbn [bind]; now rewrite bytesAt_negative.
  - intros isRoot forcedType off nm off1 count Hh Hit Hcount.
    rewrite (readTag_of_header _ _ _ _ _ _ _ _ Hh).
    cbn [readTag Z.eqb Pos.eqb bind].
    destruct nm; cbn [bind]; rewrite Hit; cbn [bind]; rewrite Hcount; cbn [bind];
      rewrite (repeatM_ext _ (fun o => Ok (mkTag 0 None VNull, o)))
        by reflexivity;
      rewrite repeatM_const; reflexivity.
  - intros isRoot forcedType off nm off1 len Hneg.
    assert (Hz : Z.to_nat len = 0%nat) by lia.
    split; [|split].
    + intros itemType Hh Hit Hlen.
      rewrite (readTag_of_header _ _ _ _ _ _ _ _ Hh).
      cbn [readTag Z.eqb Pos.eqb bind].
      destruct nm; cbn [bind]; rewrite Hit; cbn [bind]; rewrite Hlen; cbn [bind];
        rewrite Hz; reflexivity.
    + intros Hh Hlen.
      rewrite (readTag_of_header _ _ _ _ _ _ _ _ Hh).
      cbn [readTag Z.eqb Pos.eqb bind].
      destruct nm; cbn [bind]; rewrite Hlen; cbn [bind]; rewrite Hz; reflexivity.
    + intros Hh Hlen.
      rewrite (readTag_of_header _ _ _ _ _ _ _ _ Hh).
      cbn [readTag Z.eqb Pos.eqb bind].
      destruct nm; cbn [bind]; rewrite Hlen; cbn [bind]; rewrite Hz; reflexivity.
Qed.

(** C4 (gzip framing).  A buffer that starts with [1F 8B] is inflated as a
    whole and parsed from the inflated bytes, with [isCompressed = true]; when
    inflating fails the call throws "Invalid GZIP format" and the raw bytes
    are not parsed.  A buffer that does not start with [1F 8B] is parsed as it
    is, with [isCompressed = false], and the outcome is the same whatever the
    decompressor of the platform would do. *)
Theorem gzip_framing (fuel : nat) (arr : list byte) :
  (forall tl, arr = x1f :: x8b :: tl ->
     parse P fuel arr =
     match pako_ungzip P arr with
     | Some inflated =>
         let! (root, _) := readTag P fuel inflated true None None 0 in Ok (root, true)
     | None => Throw InvalidGzip
     end) /\
  ((forall tl, arr <> x1f :: x8b :: tl) ->
     parse P fuel arr =
       (let! (root, _) := readTag P fuel arr true None None 0 in Ok (root, false)) /\
     forall P', (forall bs, TextDecoder_decode P' bs = TextDecoder_decode P bs) ->
                parse P' fuel arr = parse P fuel arr).
Proof.
  split.
  - intros tl ->. unfold parse. cbn [hasGzipMagic].
    change ((byte_val x1f =? 31) && (byte_val x8b =? 139)) with true. cbn iota.
    now destruct (pako_ungzip P (x1f :: x8b :: tl)).
  - intros Hno.
    assert (Hmagic : hasGzipMagic arr = false).
    { destruct (hasGzipMagic arr) eqn:E; [|reflexivity].
      apply hasGzipMagic_spec in E as [tl ->]. now destruct (Hno tl). }
    unfold parse. rewrite Hmagic. cbn [bind]. split; [reflexivity|].
    intros P' H. now rewrite (proj1 (readTag_ext P' H fuel)).
Qed.

End Decoder.

Lemma decoder_rejection_witness :
  parse ascii_platform 3 (take 17 xpLevelBytes) = Throw RangeError /\
  readTag ascii_platform 1 [xff; xff; xff; xff] false (Some TagType.ByteArray) None 0
    = Throw RangeError /\
  readTag ascii_platform 1 [x07; x00; x00; xff; xff; xff; xff] true None None 0
    = Throw RangeError /\
  readTag ascii_platform 2 [x09; x00; x00; x00; x00; x00; x00; x02] true None None 0
    = Ok (mkTag 9 (Some "") (VList 0 [mkTag 0 None VNull; mkTag 0 None VNull]), 8) /\
  readTag ascii_platform 1 [x0b; x00; x00; xff; xff; xff; xff] true None None 0
    = Ok (mkTag 11 (Some "") (VNumArray []), 7).
Proof.
  split; [|split; [|split; [|split]]].
  - apply (proj1 (decoder_rejection ascii_platform 3 xpLevelBytes)
             xpLevel 18 17%nat); [reflexivity|lia|reflexivity].
  - apply (proj1 (proj2 (decoder_rejection ascii_platform 0 [xff; xff; xff; xff]))
             false (Some 7) 0 None 0 (-1)); [reflexivity|reflexivity|lia].
  - apply (proj1 (proj2 (decoder_rejection ascii_platform 0
                           [x07; x00; x00; xff; xff; xff; xff]))
             true None 0 (Some ""%string) 3 (-1)); [reflexivity|reflexivity|lia].
  - apply (proj1 (proj2 (proj2 (decoder_rejection ascii_platform 0
                                  [x09; x00; x00; x00; x00; x00; x00; x02])))
             true None 0 (Some ""%string) 3 2); reflexivity.
  - apply (proj1 (proj2 (proj2 (proj2 (proj2 (decoder_rejection ascii_platform 0
                                  [x0b; x00; x00; xff; xff; xff; xff])))
             true None 0 (Some ""%string) 3 (-1) ltac:(lia)))); reflexivity.
Defined.

(** The decoder accepts a List of End tags with a nonzero count, and reads a
    negative List, IntArray or LongArray length as an empty sequence. *)
Lemma malformed_input_accepted :
  parse ascii_platform 3 [x09; x00; x00; x00; x00; x00; x00; x02]
    = Ok (mkTag 9 (Some "") (VList 0 [mkTag 0 None VNull; mkTag 0 None VNull]), false) /\
  parse ascii_platform 3 [x09; x00; x00; x01; xff; xff; xff; xff]
    = Ok (mkTag 9 (Some "") (VList 1 []), false) /\
  parse ascii_platform 3 [x0b; x00; x00; xff; xff; xff; xff]
    = Ok (mkTag 11 (Some "") (VNumArray []), false) /\
  parse ascii_platform 3 [x0c; x00; x00; xff; xff; xff; xff]
    = Ok (mkTag 12 (Some "") (VBigArray []), false).
Proof. repeat split; reflexivity. Qed.

Lemma gzip_framing_witness :
  parse ascii_platform 3 (x1f :: x8b :: xpLevelBytes) = Throw InvalidGzip /\
  parse framing_platform 3 (x1f :: x8b :: xpLevelBytes) = Ok (xpLevel, true) /\
  parse ascii_platform 3 xpLevelBytes = Ok (xpLevel, false).
Proof.
  split; [|split].
  - apply (proj1 (gzip_framing ascii_platform 3 (x1f :: x8b :: xpLevelBytes)) xpLevelBytes).
    reflexivity.
  - rewrite (proj1 (gzip_framing framing_platform 3 (x1f :: x8b :: xpLevelBytes))
               xpLevelBytes eq_refl).
    reflexivity.
  - rewrite (proj1 (proj2 (gzip_framing ascii_platform 3 xpLevelBytes)
                      ltac:(intros tl; discriminate))).
    reflexivity.
Defined.

(** ** Bulk deletion on the sample documents *)

Lemma bulk_delete_postcondition_xpLevel :
  (flattenTree scores "root" = Ok ["root"; "root.l"; "root.l[0]"; "root.l[1]"] /\
   deleteNodesByPaths scores {[ "root.l[0]" ]}
     = Ok (mkTag TagType.Compound (Some "")
             (VTags [mkTag TagType.List (Some "l")
                       (VList TagType.Int [mkTag TagType.Int None (VNumber 2)])])) /\
   deleteNodesByPaths xpLevel ∅ = Ok xpLevel) /\
  (deleteNodesByPaths xpLevel {[ "root" ]}
     = Ok (mkTag TagType.Compound (Some "") (VTags [])) /\
   spec_bulk_delete xpLevel {[ "root" ]} = xpLevel /\
   deleteNodesByPaths xpLevel {[ "root" ]} <> Ok (spec_bulk_delete xpLevel {[ "root" ]})).
Proof.
  assert (Hin : "root" ∈ ({[ "root" ]} : gset string)) by set_solver.
  assert (Hout : "root" ∉ ({[ "root.l[0]" ]} : gset string)).
  { rewrite elem_of_singleton. discriminate. }
  assert (Hspec : spec_bulk_delete xpLevel {[ "root" ]} = xpLevel).
  { unfold spec_bulk_delete.
    cbn [xpLevel annotate prune rebuild survivors map Z.eqb Pos.eqb lpath].
    rewrite bool_decide_eq_false_2; [reflexivity|].
    rewrite elem_of_singleton. discriminate. }
  split; [split; [|split]|split; [|split]].
  - reflexivity.
  - rewrite (proj1 (proj2 (bulk_delete_postcondition scores {[ "root.l[0]" ]} eq_refl))
               Hout).
    unfold spec_bulk_delete.
    cbn [scores annotate prune rebuild survivors map mapi Z.eqb Pos.eqb lpath].
    rewrite bool_decide_eq_false_2 by (rewrite elem_of_singleton; discriminate).
    cbn [scores annotate prune rebuild survivors map mapi Z.eqb Pos.eqb lpath].
    rewrite bool_decide_eq_true_2 by (now rewrite elem_of_singleton).
    rewrite bool_decide_eq_false_2 by (rewrite elem_of_singleton; discriminate).
    reflexivity.
  - apply (proj1 (proj2 (proj2 (bulk_delete_postcondition xpLevel ∅ eq_refl)))
             ["root"; "root.XpLevel"]); [reflexivity|].
    repeat constructor; set_solver.
  - exact (proj1 (proj2 (proj2 (proj2
             (bulk_delete_postcondition xpLevel {[ "root" ]} eq_refl))) Hin)).
  - exact Hspec.
  - intros H.
    apply (proj2 (proj2 (proj2 (proj2
             (bulk_delete_postcondition xpLevel {[ "root" ]} eq_refl))) Hin)) in H.
    rewrite Hspec in H. discriminate H.
Defined.

(** C6 (root protection) fails on the code: with the root's path in the set,
    [deleteNodesByPaths] returns the root with an empty child sequence, and
    [deleteSelected], which does not refuse a selected root, installs that
    emptied root as the document's tree. *)
Theorem bulk_delete_empties_root :
  deleteNodesByPaths xpLevel {[ "root" ]}
    = Ok (mkTag TagType.Compound (Some "") (VTags [])) /\
  exists s',
    App.deleteSelected true (session xpLevel {[ "root" ]}) = Ok s' /\
    option_map App.root (App.activeFile s')
      = Some (mkTag TagType.Compound (Some "") (VTags [])).
Proof.
  assert (Hdel : deleteNodesByPaths xpLevel {[ "root" ]}
                 = Ok (mkTag TagType.Compound (Some "") (VTags []))).
  { apply (root_emptied xpLevel); [reflexivity|set_solver]. }
  split; [exact Hdel|].
  unfold App.deleteSelected, session.
  cbn [App.activeFile App.activeFileId App.files App.selectedPaths find App.id
       App.newFile String.eqb Ascii.eqb Bool.eqb App.root].
  rewrite size_singleton. cbn [Nat.eqb negb]. rewrite Hdel. cbn [bind].
  eexists. split; reflexivity.
Qed.

(** ** Add child *)

(** C9 (add-child), as the code has it.  On a Compound the new child is
    always the String tag [new_tag = "value"], appended at the end, whatever
    kind the caller passes.  On a List the new child is appended at the end,
    unnamed, of the declared element kind, with value [0] for the numeric
    kinds, the empty text for String and an empty child sequence for
    Compound. *)
Theorem add_child_appends nm parentType :
  (forall children,
     handleAddChild (mkTag TagType.Compound nm (VTags children)) parentType =
     Ok (Some (mkTag TagType.Compound nm
                 (VTags (children ++
                         [mkTag TagType.String (Some "new_tag") (VString "value")]))))) /\
  (forall itemType list,
     exists d,
       handleAddChild (mkTag TagType.List nm (VList itemType list)) parentType =
       Ok (Some (mkTag TagType.List nm
                   (VList itemType (list ++ [mkTag itemType None d])))) /\
       (TagType.Byte <= itemType <= TagType.Double -> d = VNumber 0) /\
       (itemType = TagType.String -> d = VString "") /\
       (itemType = TagType.Compound -> d = VTags [])).
Proof.
  split.
  - intros children. reflexivity.
  - intros itemType list. eexists. split; [reflexivity|].
    split; [|split].
    + intros Hk. destruct (Z.eqb_spec itemType 10); [lia|].
      destruct (Z.eqb_spec itemType 8); [lia|]. reflexivity.
    + intros ->. reflexivity.
    + intros ->. reflexivity.
Qed.

(** The child added to a Compound is a String whatever kind is asked for,
    and the child added to a List of Lists holds the number [0], not a list. *)
Lemma add_child_ignores_kind :
  (exists child,
     handleAddChild (mkTag TagType.Compound (Some "") (VTags [])) TagType.Int
       = Ok (Some (mkTag TagType.Compound (Some "") (VTags [child]))) /\
     type child = TagType.String /\ type child <> TagType.Int /\
     value child = VString "value") /\
  (exists child,
     handleAddChild (mkTag TagType.List (Some "") (VList TagType.List [])) TagType.List
       = Ok (Some (mkTag TagType.List (Some "") (VList TagType.List [child]))) /\
     value child = VNumber 0 /\
     forall itemType, value child <> VList itemType []).
Proof.
  split; eexists; (split; [reflexivity|]).
  - repeat split; discriminate.
  - split; [reflexivity|]. intros itemType. discriminate.
Qed.

(** ** Same-named siblings on the sample document *)

Lemma duplicate_names_collide_twins :
  (exists ps, flattenTree twins "root" = Ok ps /\
              (2 <= count_occ string_dec ps "root.a")%nat) /\
  exists children',
    deleteNodesByPaths twins {[ "root.a" ]}
      = Ok (mkTag TagType.Compound (Some "") (VTags children')) /\
    size ({[ "root.a" ]} : gset string) = 1%nat /\
    (length children' + 2 <= 2)%nat.
Proof.
  pose proof (duplicate_names_collide twins "root"
                [mkTag TagType.Int (Some "a") (VNumber 1);
                 mkTag TagType.Int (Some "a") (VNumber 2)]
                (mkTag TagType.Int (Some "a") (VNumber 1))
                (mkTag TagType.Int (Some "a") (VNumber 2))
                0%nat 1%nat eq_refl eq_refl eq_refl eq_refl eq_refl
                ltac:(discriminate) eq_refl) as (_ & Hflat & _ & Hdel).
  split; [exact Hflat|exact Hdel].
Defined.

(** ** History on the sample session *)

Lemma undo_redo_inverse_session :
  exists s1 s2 s3 f1 f2 f3,
    App.updateActiveFileRoot twins (session xpLevel ∅) = Ok s1 /\
    App.activeFile s1 = Some f1 /\ App.root f1 = twins /\
    App.handleUndo s1 = Ok s2 /\ App.activeFile s2 = Some f2 /\
    App.root f2 = xpLevel /\
    App.handleRedo s2 = Ok s3 /\ App.activeFile s3 = Some f3 /\
    App.root f3 = twins /\
    forall r, shaped r = true ->
      exists s4 f4,
        App.updateActiveFileRoot r s2 = Ok s4 /\ App.activeFile s4 = Some f4 /\
        App.root f4 = r /\ App.redoStack f4 = [] /\ App.handleRedo s4 = Ok s4.
Proof.
  apply (AppProofs.undo_redo_inverse (session xpLevel ∅)
           (App.newFile "1" "level.dat" xpLevel false) twins).
  - reflexivity.
  - discriminate.
  - repeat constructor.
  - reflexivity.
Defined.

Lemma history_bounded_session :
  (forall f, In f (App.files (App.filesOpened [("1", "level.dat", xpLevel, false)] App.initial)) ->
     (length (App.undoStack f) <= 50)%nat /\ (length (App.redoStack f) <= 50)%nat) /\
  exists s' f',
    App.commits (repeat twins 51)
                (App.filesOpened [("1", "level.dat", xpLevel, false)] App.initial) = Ok s' /\
    App.activeFile s' = Some f' /\ App.root f' = twins /\
    App.undoStack f' = repeat twins 50.
Proof.
  pose proof (AppProofs.history_bounded
                (App.filesOpened [("1", "level.dat", xpLevel, false)] App.initial)
                (App.reachable_step _ _ App.reachable_initial
                   (App.step_open [("1", "level.dat", xpLevel, false)] App.initial)))
    as [Hbound Hrun].
  split; [exact Hbound|].
  destruct (Hrun (App.newFile "1" "level.dat" xpLevel false) (repeat twins 51)
              eq_refl ltac:(discriminate) ltac:(repeat constructor)
              ltac:(repeat constructor))
    as (s' & f' & Hc & _ & Ha & Hroot & Hundo & _).
  exists s', f'. repeat split; assumption.
Defined.

(** * Further properties *)

(** ** Edits of one node, as they travel up the tree *)

Lemma renderedChildren_cases tag :
  shaped tag = true ->
  (type tag = TagType.Compound /\
   exists cs, value tag = VTags cs /\ renderedChildren tag = Ok cs) \/
  (type tag = TagType.List /\
   exists it l, value tag = VList it l /\ renderedChildren tag = Ok l) \/
  (type tag <> TagType.Compound /\ type tag <> TagType.List /\
   renderedChildren tag = Ok []).
Proof.
  destruct tag as [ty nm v]. unfold renderedChildren. cbn [type value shaped].
  destruct (Z.eqb_spec ty 10) as [->|H10].
  - destruct v; try discriminate. eauto.
  - destruct (Z.eqb_spec ty 9) as [->|H9].
    + destruct v; try discriminate. right. left. eauto.
    + auto.
Qed.

Lemma childAt_shaped tag idx child :
  shaped tag = true -> childAt tag idx = Some child -> shaped child = true.
Proof.
  intros Hs Hc. unfold childAt in Hc.
  destruct tag as [ty nm v].
  destruct (shaped_children ty nm v Hs) as [H10 H9].
  unfold renderedChildren in Hc. cbn [type value] in Hc.
  destruct (Z.eqb_spec ty 10) as [E|_].
  - destruct (H10 E) as (cs & -> & Hall). rewrite forallb_forall in Hall.
    apply In_lookup in Hc. auto.
  - destruct (Z.eqb_spec ty 9) as [E|_]; [|discriminate].
    destruct (H9 E) as (it & l & -> & Hall). rewrite forallb_forall in Hall.
    apply In_lookup in Hc. auto.
Qed.

(** On a path that crosses Compounds only, the update travels up to the top. *)
Lemma bubble_compounds indices : forall tag target updated,
  shaped tag = true -> nodeAt tag indices = Some target ->
  belowList tag indices = false ->
  exists r,
    bubble tag indices updated = Ok (Some r) /\
    nodeAt r indices = Some updated /\
    (indices <> [] ->
       type r = type tag /\ name r = name tag /\
       exists cs cs', renderedChildren tag = Ok cs /\ renderedChildren r = Ok cs' /\
                      length cs' = length cs) /\
    (forall common i j p q, i <> j -> indices = common ++ i :: p ->
       nodeAt r (common ++ j :: q) = nodeAt tag (common ++ j :: q)).
Proof.
  induction indices as [|idx rest IH]; intros tag target updated Hs Hn Hb.
  - exists updated. repeat split; try reflexivity; try congruence.
    intros [|c common] i j p q _ H; discriminate.
  - cbn [nodeAt bubble belowList] in *.
    destruct (childAt tag idx) as [child|] eqn:Hc; [|discriminate].
    apply orb_false_iff in Hb as [Hty Hb]. apply Z.eqb_neq in Hty.
    pose proof (childAt_shaped tag idx child Hs Hc) as Hsc.
    destruct (IH child target updated Hsc Hn Hb) as (r' & Hr' & Hat & _ & Hframe).
    rewrite Hr'. cbn [bind].
    unfold childAt in Hc.
    destruct (renderedChildren_cases tag Hs)
      as [(E & cs & Hv & Hrc)|[[E _]|(_ & _ & E)]];
      [| contradiction | rewrite E in Hc; discriminate].
    rewrite Hrc in Hc.
    unfold handleChildUpdate. rewrite Hv, E. cbn [Z.eqb Pos.eqb].
    apply lookup_lt_Some in Hc as Hlt.
    destruct (Nat.ltb_spec idx (length cs)) as [_|?]; [|lia].
    eexists. split; [reflexivity|].
    assert (Hk : forall l k, childAt (mkTag 10 (name tag) (VTags l)) k = l !! k)
      by reflexivity.
    split; [|split].
    + cbn [nodeAt]. rewrite Hk, list_lookup_insert_eq by exact Hlt. exact Hat.
    + intros _. cbn [type name]. split; [auto|]. split; [reflexivity|].
      exists cs, (<[idx := r']> cs). split; [exact Hrc|]. split; [reflexivity|].
      apply length_insert.
    + assert (Ht : forall k, childAt tag k = cs !! k)
        by (intros k; unfold childAt; now rewrite Hrc).
      intros [|c common] i j p q Hij Heq; cbn [app] in *.
      * injection Heq as <- _. cbn [nodeAt].
        rewrite Hk, Ht, list_lookup_insert_ne by exact Hij. reflexivity.
      * injection Heq as <- Heq. cbn [nodeAt].
        rewrite Hk, Ht, list_lookup_insert_eq by exact Hlt. rewrite Hc.
        now apply (Hframe common i j p q).
Qed.

(** An edit of a node that stands among Compounds only reaches the top as
    the same tree with that one node replaced: the node is found again at
    its place, its ancestors keep their kind, name and number of children,
    and every node off the path to it is untouched. *)
Theorem update_among_compounds tag indices target updated :
  shaped tag = true -> nodeAt tag indices = Some target ->
  belowList tag indices = false ->
  exists r,
    bubble tag indices updated = Ok (Some r) /\
    nodeAt r indices = Some updated /\
    (indices <> [] ->
       type r = type tag /\ name r = name tag /\
       exists cs cs', renderedChildren tag = Ok cs /\ renderedChildren r = Ok cs' /\
                      length cs' = length cs) /\
    (forall common i j p q, i <> j -> indices = common ++ i :: p ->
       nodeAt r (common ++ j :: q) = nodeAt tag (common ++ j :: q)).
Proof. intros. now apply (bubble_compounds indices tag target). Qed.

(** An edit of a node that stands below a List never reaches the top:
    [handleChildUpdate] of that List spreads [tag.value], the object
    [{ itemType, list }], and throws a [TypeError]. *)
Theorem update_below_list_throws indices : forall tag target updated,
  shaped tag = true -> nodeAt tag indices = Some target ->
  belowList tag indices = true ->
  bubble tag indices updated = Throw TypeError.
Proof.
  induction indices as [|idx rest IH]; intros tag target updated Hs Hn Hb;
    [discriminate|].
  cbn [nodeAt bubble belowList] in *.
  destruct (childAt tag idx) as [child|] eqn:Hc; [|discriminate].
  pose proof (childAt_shaped tag idx child Hs Hc) as Hsc.
  destruct (belowList child rest) eqn:Hbc.
  - now rewrite (IH child target updated Hsc Hn Hbc).
  - rewrite orb_false_r in Hb. apply Z.eqb_eq in Hb.
    destruct (bubble_compounds rest child target updated Hsc Hn Hbc) as (r' & -> & _).
    cbn [bind].
    destruct (renderedChildren_cases tag Hs)
      as [[E _]|[(_ & it & l & Hv & _)|(_ & E & _)]];
      [congruence| |contradiction].
    unfold handleChildUpdate. now rewrite Hv.
Qed.

Lemma update_among_compounds_player :
  exists r,
    bubble player [0%nat] (mkTag TagType.Int (Some "XpLevel") (VNumber 6)) = Ok (Some r) /\
    nodeAt r [0%nat] = Some (mkTag TagType.Int (Some "XpLevel") (VNumber 6)) /\
    nodeAt r [1%nat; 0%nat] = Some stoneStack.
Proof.
  destruct (update_among_compounds player [0%nat]
              (mkTag TagType.Int (Some "XpLevel") (VNumber 5))
              (mkTag TagType.Int (Some "XpLevel") (VNumber 6))
              eq_refl eq_refl eq_refl) as (r & Hr & Hat & _ & Hframe).
  exists r. split; [exact Hr|]. split; [exact Hat|].
  apply (Hframe [] 0%nat 1%nat [] [0%nat]); [lia|reflexivity].
Defined.

Lemma update_below_list_throws_player :
  bubble player [1%nat; 0%nat; 1%nat] (mkTag TagType.Byte (Some "Count") (VNumber 32))
  = Throw TypeError.
Proof.
  apply (update_below_list_throws [1%nat; 0%nat; 1%nat] player
           (mkTag TagType.Byte (Some "Count") (VNumber 64))); reflexivity.
Defined.

(** ** Adding and deleting a child *)

(** Deleting the child that [handleAddChild] has just appended gives the tag
    back, for a Compound and for a List: the new child is rendered last, after
    the children that were there. *)
Theorem add_then_delete_last tag parentType r :
  handleAddChild tag parentType = Ok (Some r) ->
  exists cs c,
    renderedChildren tag = Ok cs /\ renderedChildren r = Ok (cs ++ [c]) /\
    handleChildDelete r (length cs) = Ok (Some tag).
Proof.
  destruct tag as [ty nm v]. unfold handleAddChild, handleChildDelete, renderedChildren.
  cbn [type name value].
  destruct (Z.eqb_spec ty 10) as [->|H10].
  - destruct v; try discriminate. intros [= <-]. cbn [type name value Z.eqb Pos.eqb].
    do 2 eexists. split; [reflexivity|]. split; [reflexivity|].
    rewrite delete_middle, app_nil_r. reflexivity.
  - destruct (Z.eqb_spec ty 9) as [->|H9]; [|discriminate].
    destruct v; try discriminate. intros [= <-]. cbn [type name value Z.eqb Pos.eqb].
    do 2 eexists. split; [reflexivity|]. split; [reflexivity|].
    rewrite delete_middle, app_nil_r. reflexivity.
Qed.

Lemma add_then_delete_last_player :
  exists r cs c,
    handleAddChild player TagType.Compound = Ok (Some r) /\
    renderedChildren player = Ok cs /\ renderedChildren r = Ok (cs ++ [c]) /\
    handleChildDelete r (length cs) = Ok (Some player).
Proof.
  eexists.
  destruct (add_then_delete_last player TagType.Compound _ eq_refl)
    as (cs & c & H1 & H2 & H3).
  exists cs, c. split; [reflexivity|]. auto.
Defined.

(** *** One delete button and the bulk delete *)

Lemma listPath_fresh idx : listPath "root" idx <> "root".
Proof. unfold listPath. simpl. discriminate. Qed.

Lemma count_occ_zero_not_In (l : list string) q :
  count_occ string_dec l q = 0%nat -> ~ In q l.
Proof. intros H Hin. apply (count_occ_In string_dec) in Hin. lia. Qed.

(** Among labelled children of which the [idx]-th carries [p] and no other
    label is [p], pruning by [{p}] removes that child and nothing else. *)
Lemma survivors_single p : forall cs kids idx k,
  Forall2 (fun c k => shaped c = true /\ exists q, k = annotate c q) cs kids ->
  kids !! idx = Some k -> lpath k = p ->
  count_occ string_dec (concat (map labels kids)) p = 1%nat ->
  map rebuild (survivors {[ p ]} (prune {[ p ]}) kids) = delete idx cs.
Proof.
  assert (Hkeep : forall cs kids,
    Forall2 (fun c k => shaped c = true /\ exists q, k = annotate c q) cs kids ->
    count_occ string_dec (concat (map labels kids)) p = 0%nat ->
    map rebuild (survivors {[ p ]} (prune {[ p ]}) kids) = cs).
  { induction 1 as [|c k cs kids (Hs & q & ->) _ IH]; intros Hc; [reflexivity|].
    cbn [map concat] in Hc. rewrite count_occ_app in Hc.
    cbn [survivors]. rewrite lpath_annotate.
    assert (Hq : forall x, In x (labels (annotate c q)) -> x ∉ ({[ p ]} : gset string)).
    { intros x Hx. rewrite elem_of_singleton. intros ->.
      apply (count_occ_In string_dec) in Hx. lia. }
    rewrite bool_decide_eq_false_2 by (apply Hq, labels_head).
    cbn [map]. rewrite prune_noop by assumption. f_equal. apply IH. lia. }
  intros cs kids idx k H. revert idx k.
  induction H as [|c k0 cs kids (Hs & q & ->) Hrest IH]; intros idx k Hk Hp Hc;
    [discriminate|].
  cbn [map concat] in Hc. rewrite count_occ_app in Hc.
  cbn [survivors]. rewrite lpath_annotate.
  destruct idx as [|idx];
    [change (delete 0%nat (c :: cs)) with cs
    |change (delete (S idx) (c :: cs)) with (c :: delete idx cs)].
  - injection Hk as <-. rewrite lpath_annotate in Hp. subst q.
    rewrite bool_decide_eq_true_2 by set_solver.
    pose proof (labels_head c p) as Hin. apply (count_occ_In string_dec) in Hin.
    apply Hkeep; [exact Hrest|lia].
  - assert (Hin : In p (concat (map labels kids))).
    { apply in_concat. exists (labels k). split.
      - apply in_map. eapply In_lookup; eauto.
      - destruct k as [pk tk kk]. cbn [lpath] in Hp. subst pk. simpl. now left. }
    apply (count_occ_In string_dec) in Hin.
    assert (Hq : forall x, In x (labels (annotate c q)) -> x ∉ ({[ p ]} : gset string)).
    { intros x Hx. rewrite elem_of_singleton. intros ->.
      apply (count_occ_In string_dec) in Hx. lia. }
    rewrite bool_decide_eq_false_2 by (apply Hq, labels_head).
    cbn [map]. rewrite prune_noop by assumption. f_equal.
    apply (IH idx k Hk Hp). lia.
Qed.

(** The delete button of a child of the root and the bulk delete of that
    child's path give the same tree, provided no other node of the document
    has the same path string. *)
Theorem single_delete_agrees_with_bulk root idx child ps :
  shaped root = true ->
  childAt root idx = Some child ->
  flattenTree root "root" = Ok ps ->
  count_occ string_dec ps
    (if type root =? TagType.Compound then compoundPath "root" child
     else listPath "root" idx) = 1%nat ->
  exists r,
    handleChildDelete root idx = Ok (Some r) /\
    (forall cs, renderedChildren root = Ok cs ->
                renderedChildren r = Ok (delete idx cs)) /\
    deleteNodesByPaths root
      {[ if type root =? TagType.Compound then compoundPath "root" child
         else listPath "root" idx ]} = Ok r.
Proof.
  intros Hs Hc Hps Hcount.
  rewrite flattenTree_labels in Hps by exact Hs. injection Hps as <-.
  rewrite deleteNodesByPaths_shaped by exact Hs.
  destruct root as [ty nm v].
  destruct (shaped_children ty nm v Hs) as [H10 H9].
  unfold childAt, renderedChildren, handleChildDelete in *. cbn [type name value] in *.
  destruct (Z.eqb_spec ty 10) as [->|N10].
  - destruct (H10 eq_refl) as (cs & -> & Hall). rewrite forallb_forall in Hall.
    rewrite bool_decide_eq_false_2
      by (rewrite elem_of_singleton; intros E; symmetry in E;
          now apply root_path_fresh in E).
    cbn [Z.eqb Pos.eqb annotate prune rebuild labels] in *.
    eexists. split; [reflexivity|]. split; [now intros ? [= <-]|]. do 3 f_equal.
    destruct (string_dec "root" (compoundPath "root" child)) as [E|_];
      [symmetry in E; now apply root_path_fresh in E|].
    apply (survivors_single _ cs _ idx (annotate child (compoundPath "root" child))).
    + apply Forall2_map_same. intros c Hin. split; [now apply Hall|eauto].
    + rewrite list_lookup_fmap. unfold_leibniz. now rewrite Hc.
    + apply lpath_annotate.
    + exact Hcount.
  - destruct (Z.eqb_spec ty 9) as [->|N9];
      [|discriminate].
    destruct (H9 eq_refl) as (it & l & -> & Hall). rewrite forallb_forall in Hall.
    rewrite bool_decide_eq_false_2
      by (rewrite elem_of_singleton; intros E; symmetry in E;
          now apply listPath_fresh in E).
    cbn [Z.eqb Pos.eqb annotate prune rebuild labels] in *.
    eexists. split; [reflexivity|]. split; [now intros ? [= <-]|]. do 3 f_equal.
    destruct (string_dec "root" (listPath "root" idx)) as [E|_];
      [symmetry in E; now apply listPath_fresh in E|].
    assert (Hmapi : forall (l0 : list NBTTag) i,
      Forall (fun c => shaped c = true) l0 ->
      Forall2 (fun c k => shaped c = true /\ exists q, k = annotate c q) l0
              (mapi (fun c idx0 => annotate c (listPath "root" idx0)) l0 i) /\
      forall k c, l0 !! k = Some c ->
        mapi (fun c idx0 => annotate c (listPath "root" idx0)) l0 i !! k
        = Some (annotate c (listPath "root" (i + k)))).
    { induction l0 as [|c0 l0 IHl]; intros i Hf; cbn [mapi].
      - split; [constructor|]. intros k c Hk. discriminate.
      - apply Forall_cons in Hf as [Hc0 Hf]. destruct (IHl (S i) Hf) as [IH1 IH2].
        split; [constructor; [split; eauto|exact IH1]|].
        intros [|k] c Hk.
        + injection Hk as ->. now rewrite Nat.add_0_r.
        + replace (i + S k)%nat with (S i + k)%nat by lia. exact (IH2 k c Hk). }
    destruct (Hmapi l 0%nat) as [HF Hlk].
    { apply List.Forall_forall. intros c Hin. now apply Hall. }
    apply (survivors_single _ l _ idx (annotate child (listPath "root" idx))).
    + exact HF.
    + now rewrite (Hlk idx child Hc).
    + apply lpath_annotate.
    + exact Hcount.
Qed.

Lemma single_delete_agrees_with_bulk_player :
  flattenTree player "root"
  = Ok ["root"; "root.XpLevel"; "root.Inventory"; "root.Inventory[0]";
        "root.Inventory[0].id"; "root.Inventory[0].Count"; "root.Inventory[0].Slot"] /\
  exists r,
    handleChildDelete player 1 = Ok (Some r) /\
    renderedChildren r = Ok [mkTag TagType.Int (Some "XpLevel") (VNumber 5)] /\
    deleteNodesByPaths player {[ "root.Inventory" ]} = Ok r.
Proof.
  split; [vm_compute; reflexivity|].
  destruct (single_delete_agrees_with_bulk player 1
              (mkTag TagType.List (Some "Inventory") (VList TagType.Compound [stoneStack]))
              ["root"; "root.XpLevel"; "root.Inventory"; "root.Inventory[0]";
               "root.Inventory[0].id"; "root.Inventory[0].Count"; "root.Inventory[0].Slot"]
              eq_refl eq_refl eq_refl eq_refl) as (r & Hd & Hk & Hb).
  exists r. split; [exact Hd|]. split; [exact (Hk _ eq_refl)|exact Hb].
Defined.

(** ** The inline editor *)

(** [handleSave] converts the edit text for the numeric kinds only; for every
    other kind the text itself becomes the value.  Saving the editor on a
    Compound or a List (to rename it) therefore replaces the children by a
    string: the render of the expanded node, [flattenTree] and
    [recursiveDelete] all throw a [TypeError] on it. *)
Theorem save_replaces_children C tag editName editValue :
  type tag = TagType.Compound \/ type tag = TagType.List ->
  handleSave C tag editName editValue
    = Some (mkTag (type tag) (Some editName) (VString editValue)) /\
  renderedChildren (mkTag (type tag) (Some editName) (VString editValue))
    = Throw TypeError /\
  (forall p, flattenTree (mkTag (type tag) (Some editName) (VString editValue)) p
             = Throw TypeError) /\
  (forall (S : gset string) p, p ∉ S ->
     recursiveDelete S (mkTag (type tag) (Some editName) (VString editValue)) p
     = Throw TypeError).
Proof.
  intros [E|E]; rewrite E; unfold handleSave; rewrite E; cbn [Z.eqb Pos.eqb orb];
    (split; [reflexivity|]); (split; [reflexivity|]);
    (split; [reflexivity|]); intros S p Hp; cbn [recursiveDelete];
    now rewrite bool_decide_eq_false_2 by exact Hp.
Qed.

Lemma save_replaces_children_player :
  handleSave sampleConversions player "Player" "[object Object],[object Object]"
    = Some (mkTag TagType.Compound (Some "Player")
              (VString "[object Object],[object Object]")) /\
  flattenTree (mkTag TagType.Compound (Some "Player")
                 (VString "[object Object],[object Object]")) "root"
    = Throw TypeError.
Proof.
  destruct (save_replaces_children sampleConversions player "Player"
              "[object Object],[object Object]" (or_introl eq_refl))
    as (Hsave & _ & Hflat & _).
  split; [exact Hsave|exact (Hflat "root"%string)].
Defined.

(** ** Integers beyond their width *)

Lemma parseLong_wraps pre rest v off :
  off = Z.of_nat (length pre) ->
  - 2 ^ 84 <= v < 2 ^ 84 ->
  parseLong (pre ++ map u8 (writeLong v []) ++ rest) off = Ok (wrap_signed 64 v).
Proof.
  intros Hoff Hv. unfold parseLong, writeLong.
  rewrite (writeInt_app _ (writeInt _ [])), map_app, <- app_assoc.
  rewrite getInt32_writeInt by auto. cbn [bind].
  rewrite (app_assoc pre).
  rewrite getInt32_writeInt.
  2:{ rewrite length_app, length_map, writeInt_nil. simpl. lia. }
  cbn [bind]. f_equal.
  rewrite Z.shiftr_div_pow2 by lia.
  change 0xFFFFFFFF with (Z.ones 32). rewrite !Z.land_ones by lia.
  assert (Hhigh : - 2 ^ 52 <= v / 2 ^ 32 < 2 ^ 52).
  { split.
    - apply Z.div_le_lower_bound; lia.
    - apply Z.div_lt_upper_bound; lia. }
  pose proof (Z.mod_pos_bound v (2 ^ 32) ltac:(lia)) as Hlow.
  rewrite !Number_exact by lia.
  destruct (wrap_signed_congr 32 (v mod 2 ^ 32) ltac:(lia)) as [c ->].
  rewrite Z.mod_add by lia. rewrite Z.mod_mod by lia.
  rewrite lor_shiftl_low by lia.
  unfold wrap_signed.
  change (2 ^ 64) with (2 ^ 32 * 2 ^ 32). rewrite Z.rem_mul_r by lia.
  pose proof (Z.mod_pos_bound (v / 2 ^ 32) (2 ^ 32) ltac:(lia)) as Hh.
  change (2 ^ (32 - 1)) with 2147483648. change (2 ^ (64 - 1)) with 9223372036854775808.
  change (2 ^ 32) with 4294967296 in *.
  destruct (Z.ltb_spec ((v / 4294967296) mod 4294967296) 2147483648);
    destruct (Z.ltb_spec (v mod 4294967296
                          + 4294967296 * ((v / 4294967296) mod 4294967296))
                         9223372036854775808); lia.
Qed.

Section IntegerWrap.

Variable P : Platform.
Hint Rewrite (length_writeString P) : frame_len.

(** A named tag read back from its header and a payload that reads as [v']. *)
Lemma named_reads ty s v v' w isRoot :
  0 < ty <= 12 -> text_ok P s = true ->
  (forall buf, writeTag P (mkTag ty (Some s) v) false true buf = Ok (buf ++ w)) ->
  (forall fuel, ReadsAs (fun B off => readTag P (S fuel) B false (Some ty) None off)
                        (mkTag ty None v') w) ->
  exists bytes n,
    write P (mkTag ty (Some s) v) false = Ok bytes /\
    hasGzipMagic bytes = false /\
    forall fuel, readTag P (S fuel) bytes isRoot None None 0
                 = Ok (mkTag ty (Some s) v', n).
Proof.
  intros Hty Hs Hw Hr.
  exists (map u8 (writeByte ty [] ++ writeString P s [] ++ w)). eexists.
  split; [|split].
  - unfold write. rewrite writeTag_header, writeTag_skip_isRoot, Hw. cbn [bind].
    rewrite writeString_app. now rewrite <- app_assoc.
  - rewrite writeByte_nil. cbn [map app]. apply hasGzipMagic_head.
    rewrite byte_val_u8, mod_256_idem, Z.mod_small; lia.
  - intros fuel.
    eapply (readTag_named P fuel _ isRoot ty s v' 0).
    + rewrite (getUint8_at _ [] (map u8 (writeString P s [] ++ w)) ty 0)
        by (rewrite ?map_app; reflexivity).
      f_equal. apply Z.mod_small. lia.
    + lia.
    + apply (readString_at P s Hs _ (map u8 (writeByte ty [])) (map u8 w));
        [now rewrite !map_app|reflexivity].
    + rewrite (Hr fuel _ (map u8 (writeByte ty []) ++ map u8 (writeString P s [])) []
                 (0 + 1 + Z.of_nat (length (writeString P s [])))).
      * reflexivity.
      * now rewrite !map_app, app_nil_r, <- app_assoc.
      * rewrite length_app, !length_map. simpl length. lia.
Qed.

Lemma wrap_signed_range w z :
  0 < w -> - 2 ^ (w - 1) <= wrap_signed w z < 2 ^ (w - 1).
Proof.
  intros Hw. unfold wrap_signed.
  assert (Hp : 2 ^ w = 2 * 2 ^ (w - 1)).
  { rewrite <- Z.pow_succ_r by lia. f_equal. lia. }
  assert (0 < 2 ^ (w - 1)) by (apply Z.pow_pos_nonneg; lia).
  pose proof (Z.mod_pos_bound z (2 ^ w) ltac:(lia)).
  destruct (Z.ltb_spec (z mod 2 ^ w) (2 ^ (w - 1))); lia.
Qed.

(** The editor checks no range and neither does the writer: an integer typed
    into a Byte, Short or Int tag is saved as it is, written with its low 8,
    16 or 32 bits only, and read back as the signed value of those bits; a
    Long wraps in the same way modulo [2^64].  What is read back always lies
    in the range of the kind, so a value outside of it comes back changed. *)
Theorem unchecked_integers_wrap C tag editName editValue :
  text_ok P editName = true ->
  (forall v w,
     parseInt C editValue = Some v ->
     (type tag = TagType.Byte /\ w = 8) \/ (type tag = TagType.Short /\ w = 16) \/
     (type tag = TagType.Int /\ w = 32) ->
     exists bytes,
       handleSave C tag editName editValue
         = Some (mkTag (type tag) (Some editName) (VNumber v)) /\
       write P (mkTag (type tag) (Some editName) (VNumber v)) false = Ok bytes /\
       (forall fuel,
          parse P (S fuel) bytes
          = Ok (mkTag (type tag) (Some editName) (VNumber (wrap_signed w v)), false)) /\
       - 2 ^ (w - 1) <= wrap_signed w v < 2 ^ (w - 1)) /\
  (forall v,
     toBigInt C editValue = Some v -> type tag = TagType.Long ->
     - 2 ^ 84 <= v < 2 ^ 84 ->
     exists bytes,
       handleSave C tag editName editValue
         = Some (mkTag TagType.Long (Some editName) (VBigInt v)) /\
       write P (mkTag TagType.Long (Some editName) (VBigInt v)) false = Ok bytes /\
       (forall fuel,
          parse P (S fuel) bytes
          = Ok (mkTag TagType.Long (Some editName) (VBigInt (wrap_signed 64 v)), false)) /\
       - 2 ^ 63 <= wrap_signed 64 v < 2 ^ 63).
Proof.
  intros Hs.
  assert (Hparse : forall ty v v',
    (exists bytes n,
       write P (mkTag ty (Some editName) v) false = Ok bytes /\
       hasGzipMagic bytes = false /\
       forall fuel, readTag P (S fuel) bytes true None None 0
                    = Ok (mkTag ty (Some editName) v', n)) ->
    exists bytes,
      write P (mkTag ty (Some editName) v) false = Ok bytes /\
      forall fuel, parse P (S fuel) bytes = Ok (mkTag ty (Some editName) v', false)).
  { intros ty v v' (bytes & n & Hw & Hraw & Hrd). exists bytes. split; [exact Hw|].
    intros fuel. now rewrite (parse_raw P (S fuel) bytes Hraw), Hrd. }
  split.
  - intros v w Hv Hk.
    assert (Hsave : handleSave C tag editName editValue
                    = Some (mkTag (type tag) (Some editName) (VNumber v))).
    { unfold handleSave. rewrite Hv.
      destruct Hk as [[-> _]|[[-> _]|[-> _]]]; reflexivity. }
    assert (Hw : 0 < w) by (destruct Hk as [[_ ->]|[[_ ->]|[_ ->]]]; lia).
    destruct Hk as [[Hty ->]|[[Hty ->]|[Hty ->]]]; rewrite Hty in *.
    + destruct (Hparse 1 (VNumber v) (VNumber (wrap_signed 8 v))) as (bytes & Hwr & Hrd).
      { apply (named_reads 1 editName (VNumber v) _ (writeByte v []) true);
          [lia|exact Hs| |].
        - intros buf. write_step. now rewrite writeByte_app.
        - intros fuel B pre rest off HB Hoff. read_step.
          now rewrite (getInt8_at B pre rest v off) by frame. }
      exists bytes. repeat (split; [assumption|]). now apply wrap_signed_range.
    + destruct (Hparse 2 (VNumber v) (VNumber (wrap_signed 16 v))) as (bytes & Hwr & Hrd).
      { apply (named_reads 2 editName (VNumber v) _ (writeShort v []) true);
          [lia|exact Hs| |].
        - intros buf. write_step. now rewrite writeShort_app.
        - intros fuel B pre rest off HB Hoff. read_step.
          rewrite (getInt16_at B pre rest v off) by frame. reflexivity. }
      exists bytes. repeat (split; [assumption|]). now apply wrap_signed_range.
    + destruct (Hparse 3 (VNumber v) (VNumber (wrap_signed 32 v))) as (bytes & Hwr & Hrd).
      { apply (named_reads 3 editName (VNumber v) _ (writeInt v []) true);
          [lia|exact Hs| |].
        - intros buf. write_step. now rewrite writeInt_app.
        - intros fuel B pre rest off HB Hoff. read_step.
          rewrite (getInt32_at B pre rest v off) by frame. reflexivity. }
      exists bytes. repeat (split; [assumption|]). now apply wrap_signed_range.
  - intros v Hv Hty Hrange.
    assert (Hsave : handleSave C tag editName editValue
                    = Some (mkTag 4 (Some editName) (VBigInt v))).
    { unfold handleSave. now rewrite Hty, Hv. }
    destruct (Hparse 4 (VBigInt v) (VBigInt (wrap_signed 64 v))) as (bytes & Hwr & Hrd).
    { apply (named_reads 4 editName (VBigInt v) _ (writeLong v []) true);
        [lia|exact Hs| |].
      - intros buf. write_step. now rewrite writeLong_app.
      - intros fuel B pre rest off HB Hoff. read_step. subst B.
        rewrite (parseLong_wraps pre rest v off Hoff Hrange). reflexivity. }
    exists bytes. repeat (split; [assumption|]).
    exact (wrap_signed_range 64 v eq_refl).
Qed.

End IntegerWrap.

Lemma unchecked_integers_wrap_samples :
  (exists bytes,
     handleSave sampleConversions (mkTag TagType.Byte (Some "Count") (VNumber 64))
                "Count" "300"
       = Some (mkTag TagType.Byte (Some "Count") (VNumber 300)) /\
     write ascii_platform (mkTag TagType.Byte (Some "Count") (VNumber 300)) false
       = Ok bytes /\
     parse ascii_platform 1 bytes
       = Ok (mkTag TagType.Byte (Some "Count") (VNumber 44), false)) /\
  (exists bytes,
     write ascii_platform
           (mkTag TagType.Long (Some "Seed") (VBigInt 9223372036854775808)) false
       = Ok bytes /\
     parse ascii_platform 1 bytes
       = Ok (mkTag TagType.Long (Some "Seed") (VBigInt (- 9223372036854775808)), false)).
Proof.
  split.
  - destruct (proj1 (unchecked_integers_wrap ascii_platform sampleConversions
                       (mkTag TagType.Byte (Some "Count") (VNumber 64))
                       "Count" "300" eq_refl)
                    300 8 eq_refl (or_introl (conj eq_refl eq_refl)))
      as (bytes & Hsave & Hw & Hrd & _).
    exists bytes. split; [exact Hsave|]. split; [exact Hw|]. exact (Hrd 0%nat).
  - destruct (proj2 (unchecked_integers_wrap ascii_platform sampleConversions
                       (mkTag TagType.Long (Some "Seed") (VBigInt 0))
                       "Seed" "9223372036854775808" eq_refl)
                    9223372036854775808 eq_refl eq_refl ltac:(lia))
      as (bytes & _ & Hw & Hrd & _).
    exists bytes. split; [exact Hw|]. exact (Hrd 0%nat).
Defined.


(** ** Bytes after the root tag *)

Lemma Extends_bytesAt off len : Extends (fun buffer => bytesAt buffer off len).
Proof.
  intros B E bs H. pose proof (bytesAt_ok B off len bs H) as (H0 & H1 & H2).
  unfold bytesAt in *. rewrite length_app.
  destruct ((0 <=? off) && (0 <=? len) && (off + len <=? Z.of_nat (length B))) eqn:C;
    [|discriminate].
  replace ((0 <=? off) && (0 <=? len)
           && (off + len <=? Z.of_nat (length B + length E))) with true.
  2:{ symmetry. rewrite !andb_true_iff, !Z.leb_le. lia. }
  injection H as <-. f_equal.
  rewrite drop_app_le by lia. rewrite take_app_le; [reflexivity|].
  rewrite length_drop. lia.
Qed.

Lemma repeatM_up {A} (step step' : Z -> result (A * Z)) :
  (forall o r, step o = Ok r -> step' o = Ok r) ->
  forall n acc off r,
    repeatM step n acc off = Ok r -> repeatM step' n acc off = Ok r.
Proof.
  intros Hstep. induction n as [|n IH]; intros acc off r H; cbn [repeatM] in *;
    [exact H|].
  destruct (step off) as [[a o]|e] eqn:Es; [|discriminate].
  rewrite (Hstep off _ Es). cbn [bind] in *. now apply IH.
Qed.

Lemma bind_assoc {A B C} (m : result A) (f : A -> result B) (g : B -> result C) :
  bind (bind m f) g = bind m (fun x => bind (f x) g).
Proof. now destruct m. Qed.

Section TrailingBytes.

Variable P : Platform.

Lemma Extends_readTag fuel :
  (forall isRoot forced nm off,
     Extends (fun buffer => readTag P fuel buffer isRoot forced nm off)) /\
  (forall acc off, Extends (fun buffer => readCompound P fuel buffer acc off)).
Proof.
  induction fuel as [|fuel [IHt IHc]]; [split; intros; intros B E a H; discriminate|].
  split.
  - intros isRoot forced nm off B E a H. cbn [readTag] in *.
    unfold readString, parseLong, getUint8, getInt8, getUint16, getInt16, getInt32,
      getFloat32, getFloat64, rmap in *.
    cbv zeta in *.
    assert (Hint : forall o r,
      (let! v := (let! bs := bytesAt B o 4 in Ok (to_signed 32 (be_unsigned bs))) in
       Ok (v, o + 4)) = Ok r ->
      (let! v := (let! bs := bytesAt (B ++ E) o 4 in Ok (to_signed 32 (be_unsigned bs))) in
       Ok (v, o + 4)) = Ok r).
    { intros o r Hr. destruct (bytesAt B o 4) as [bs|] eqn:Eb; [|discriminate].
      now rewrite (Extends_bytesAt o 4 B E bs Eb). }
    assert (Hlong : forall o r,
      (let! v :=
         (let! high := (let! a := bytesAt B o 4 in Ok (to_signed 32 (be_unsigned a))) in
          let! low := (let! a := bytesAt B (o + 4) 4 in
                       Ok (to_signed 32 (be_unsigned a))) in
          Ok (Z.lor (Z.shiftl high 32) (Z.land low 4294967295))) in
       Ok (v, o + 8)) = Ok r ->
      (let! v :=
         (let! high := (let! a := bytesAt (B ++ E) o 4 in
                        Ok (to_signed 32 (be_unsigned a))) in
          let! low := (let! a := bytesAt (B ++ E) (o + 4) 4 in
                       Ok (to_signed 32 (be_unsigned a))) in
          Ok (Z.lor (Z.shiftl high 32) (Z.land low 4294967295))) in
       Ok (v, o + 8)) = Ok r).
    { intros o r Hr. destruct (bytesAt B o 4) as [bs|] eqn:Eb; [|discriminate].
      rewrite (Extends_bytesAt o 4 B E bs Eb). cbn [bind] in *.
      destruct (bytesAt B (o + 4) 4) as [bs'|] eqn:Eb'; [|discriminate].
      now rewrite (Extends_bytesAt (o + 4) 4 B E bs' Eb'). }
    destruct forced as [t|]; destruct nm as [n|]; destruct isRoot;
      repeat (cbn [bind] in H |- *; rewrite ?bind_assoc in H |- *;
        match goal with
        | H : Ok _ = Ok _ |- _ => exact H
        | H : bind (bytesAt B ?o ?n) _ = Ok _ |- _ =>
            let Eb := fresh "Eb" in
            destruct (bytesAt B o n) as [?bs|?e] eqn:Eb; [|discriminate H];
            rewrite (Extends_bytesAt o n B E _ Eb)
        | H : (if ?c then _ else _) = Ok _ |- _ => destruct c
        | H : bind (match ?ty with 0 => _ | Z.pos _ => _ | Z.neg _ => _ end) _ = Ok _ |- _ =>
            destruct ty as [|p|p]; [| pos_cases p |]
        | H : bind (readCompound P fuel B ?acc ?o) _ = Ok _ |- _ =>
            let Ec := fresh "Ec" in
            destruct (readCompound P fuel B acc o) as [[? ?]|?e] eqn:Ec; [|discriminate H];
            rewrite (IHc acc o B E _ Ec)
        | H : bind (repeatM ?step ?n ?acc ?o) _ = Ok _
          |- context [repeatM ?step' ?n ?acc ?o] =>
            let Er := fresh "Er" in
            let Er' := fresh "Er" in
            destruct (repeatM step n acc o) as [[? ?]|?e] eqn:Er; [|discriminate H];
            match type of Er with
            | _ = ?rhs =>
                assert (Er' : repeatM step' n acc o = rhs)
                  by (apply (repeatM_up step step');
                      [first [exact Hint | exact Hlong | intros ? ?; apply IHt]
                      |exact Er])
            end;
            rewrite Er'
        end).
  - intros acc off B E a H. cbn [readCompound] in *.
    unfold getUint8, rmap in *. rewrite bind_assoc in H |- *.
    destruct (bytesAt B off 1) as [bs|e] eqn:Eb; [|discriminate H].
    rewrite (Extends_bytesAt off 1 B E _ Eb). cbn [bind] in H |- *.
    destruct (be_unsigned bs =? 0); [exact H|].
    destruct (readTag P fuel B false None None off) as [[t o]|e] eqn:Et; [|discriminate H].
    rewrite (IHt false None None off B E _ Et). cbn [bind] in H |- *.
    now apply IHc.
Qed.

(** The decoder stops at the end of the root tag and never looks at what
    follows: when a buffer decodes, the same buffer followed by any bytes
    decodes to the same tree, with the same number of bytes consumed.  This
    holds for the buffer that [readTag] reads (raw, or as inflated) and for
    [parse] on a raw file. *)
Theorem trailing_bytes_ignored fuel arr root :
  (forall n, readTag P fuel arr true None None 0 = Ok (root, n) ->
     forall extra, readTag P fuel (arr ++ extra) true None None 0 = Ok (root, n)) /\
  (parse P fuel arr = Ok (root, false) ->
     forall extra, parse P fuel (arr ++ extra) = Ok (root, false)).
Proof.
  split.
  - intros n H extra.
    exact (proj1 (Extends_readTag fuel) true None None 0 arr extra _ H).
  - intros H extra.
    assert (Hmagic : hasGzipMagic arr = false).
    { unfold parse in H. destruct (hasGzipMagic arr); [|reflexivity].
      destruct (pako_ungzip P arr) as [inflated|]; [|discriminate].
      cbn [bind] in H.
      destruct (readTag P fuel inflated true None None 0) as [[r o]|e]; discriminate. }
    unfold parse in H. rewrite Hmagic in H. cbn [bind] in H.
    destruct (readTag P fuel arr true None None 0) as [[r n]|e] eqn:Er; [|discriminate].
    cbn [bind] in H. injection H as ->.
    assert (Hmagic' : hasGzipMagic (arr ++ extra) = false).
    { destruct arr as [|b0 [|b1 tl]]; [| |exact Hmagic].
      - destruct fuel; [discriminate|]. cbn in Er. discriminate.
      - cbn [app hasGzipMagic].
        destruct (byte_val b0 =? 31) eqn:Eb; [|now destruct extra].
        exfalso. destruct fuel as [|fuel]; [discriminate|].
        cbn [readTag bind] in Er. unfold getUint8, rmap in Er.
        assert (Hb : bytesAt [b0] 0 1 = Ok [b0]) by reflexivity.
        rewrite Hb in Er. cbn [bind] in Er.
        assert (Hv : be_unsigned [b0] = 31).
        { apply Z.eqb_eq in Eb. unfold be_unsigned. simpl. lia. }
        rewrite Hv in Er. cbn [Z.eqb bind] in Er.
        unfold readString, getUint16, rmap in Er.
        assert (Hb2 : bytesAt [b0] (0 + 1) 2 = Throw RangeError) by reflexivity.
        rewrite Hb2 in Er. discriminate. }
    unfold parse. rewrite Hmagic'. cbn [bind].
    now rewrite (proj1 (Extends_readTag fuel) true None None 0 arr extra _ Er).
Qed.

End TrailingBytes.

Lemma trailing_bytes_ignored_xpLevel :
  parse ascii_platform 3 (xpLevelBytes ++ [xff; x00; x1f; x8b]) = Ok (xpLevel, false).
Proof.
  apply (proj2 (trailing_bytes_ignored ascii_platform 3 xpLevelBytes xpLevel)).
  reflexivity.
Defined.

(** ** What the decoder returns can be written back *)

Lemma bytesAt_length B off n bs : bytesAt B off n = Ok bs -> Z.of_nat (length bs) = n.
Proof.
  intros H. pose proof (bytesAt_ok B off n bs H) as (H0 & H1 & H2).
  unfold bytesAt in H.
  destruct ((0 <=? off) && (0 <=? n) && (off + n <=? Z.of_nat (length B)));
    [|discriminate].
  injection H as <-. rewrite length_take, length_drop. lia.
Qed.

Lemma be_unsigned_bound bs : 0 <= be_unsigned bs < 2 ^ (8 * Z.of_nat (length bs)).
Proof.
  unfold be_unsigned.
  assert (H : forall acc, 0 <= acc ->
    0 <= fold_left (fun acc b => acc * 256 + byte_val b) bs acc
      < (acc + 1) * 2 ^ (8 * Z.of_nat (length bs))).
  { induction bs as [|b bs IH]; intros acc Hacc; cbn [fold_left length].
    - change (8 * Z.of_nat 0) with 0. lia.
    - pose proof (byte_val_range b).
      specialize (IH (acc * 256 + byte_val b) ltac:(lia)).
      replace (8 * Z.of_nat (S (length bs))) with (8 + 8 * Z.of_nat (length bs)) by lia.
      rewrite Z.pow_add_r by lia. change (2 ^ 8) with 256.
      assert (0 < 2 ^ (8 * Z.of_nat (length bs))) by (apply Z.pow_pos_nonneg; lia).
      nia. }
  specialize (H 0 ltac:(lia)). lia.
Qed.

Lemma to_signed_range w z :
  0 < w -> 0 <= z < 2 ^ w -> - 2 ^ (w - 1) <= to_signed w z < 2 ^ (w - 1).
Proof.
  intros Hw Hz. unfold to_signed.
  assert (Hp : 2 ^ w = 2 * 2 ^ (w - 1)).
  { rewrite <- Z.pow_succ_r by lia. f_equal. lia. }
  destruct (Z.ltb_spec z (2 ^ (w - 1))); lia.
Qed.

Lemma getter_range B off n w v :
  0 < n -> w = 8 * n ->
  rmap (fun bs => to_signed w (be_unsigned bs)) (bytesAt B off n) = Ok v ->
  - 2 ^ (w - 1) <= v < 2 ^ (w - 1).
Proof.
  intros Hn -> H. unfold rmap in H.
  destruct (bytesAt B off n) as [bs|] eqn:E; [|discriminate]. injection H as <-.
  apply bytesAt_length in E. pose proof (be_unsigned_bound bs) as Hb. rewrite E in Hb.
  apply to_signed_range; lia.
Qed.

Lemma parseLong_range B off v :
  parseLong B off = Ok v -> - 2 ^ 63 <= v < 2 ^ 63.
Proof.
  unfold parseLong. intros H.
  destruct (getInt32 B off) as [high|] eqn:Eh; [|discriminate]. cbn [bind] in H.
  destruct (getInt32 B (off + 4)) as [low|] eqn:El; [|discriminate]. cbn [bind] in H.
  injection H as <-.
  apply (getter_range B off 4 32) in Eh; [|lia|lia].
  change 0xFFFFFFFF with (Z.ones 32). rewrite Z.land_ones by lia.
  pose proof (Z.mod_pos_bound low (2 ^ 32) ltac:(lia)).
  rewrite lor_shiftl_low by lia. change (2 ^ (32 - 1)) with 2147483648 in Eh.
  change (2 ^ 32) with 4294967296 in *. lia.
Qed.

Lemma repeatM_inv {A} (step : Z -> result (A * Z)) (Q : A -> Prop) :
  (forall o a o', step o = Ok (a, o') -> Q a) ->
  forall n acc off l off',
    repeatM step n acc off = Ok (l, off') ->
    exists l', l = acc ++ l' /\ length l' = n /\ Forall Q l'.
Proof.
  intros Hstep. induction n as [|n IH]; intros acc off l off' H; cbn [repeatM] in H.
  - injection H as <- _. exists []. rewrite app_nil_r. auto.
  - destruct (step off) as [[a o]|e] eqn:Es; [|discriminate]. cbn [bind] in H.
    destruct (IH _ _ _ _ H) as (l' & -> & Hlen & HQ).
    exists (a :: l'). rewrite <- app_assoc. split; [reflexivity|].
    split; [simpl; lia|]. constructor; [eapply Hstep; eauto|exact HQ].
Qed.

Section Decoded.

Variable P : Platform.

(** [readTag] is its header followed by the payload of the kind read. *)
Lemma readTag_split fuel B isRoot forced off :
  readTag P (S fuel) B isRoot forced None off
  = let! (h, off1) := readHeader P B isRoot forced off in
    readTag P (S fuel) B false (Some (fst h)) (snd h) off1.
Proof.
  unfold readHeader. cbn [readTag].
  assert (Hrest : forall ty o,
    (if ty =? 0 then Ok (mkTag ty None VNull, o)
     else let! (name, offset) :=
            (if isRoot
             then let! (s, offset) := readString P B o in Ok (Some s, offset)
             else match forced with
                  | None => let! (s, offset) := readString P B o in Ok (Some s, offset)
                  | Some _ => Ok (None, o)
                  end) in
          readTag P (S fuel) B false (Some ty) name offset)
    = let! (h, off1) :=
        (if ty =? 0 then Ok (ty, None, o)
         else let! (name, offset) :=
                (if isRoot
                 then let! (s, offset) := readString P B o in Ok (Some s, offset)
                 else match forced with
                      | None => let! (s, offset) := readString P B o in
                                Ok (Some s, offset)
                      | Some _ => Ok (None, o)
                      end) in
              Ok (ty, name, offset)) in
      readTag P (S fuel) B false (Some (fst h)) (snd h) off1).
  { intros ty o. destruct (ty =? 0) eqn:E; cbn [bind fst snd].
    - cbn [readTag bind]. now rewrite E.
    - match goal with |- bind ?m _ = _ => destruct m as [[n o']|e] end; reflexivity. }
  destruct forced as [t|]; cbn [bind].
  - rewrite <- Hrest. destruct (t =? 0) eqn:E; [reflexivity|].
    match goal with |- bind ?m _ = bind ?m' _ => destruct m as [[n o']|e] end;
      [|reflexivity].
    cbn [bind readTag]. rewrite E. now destruct n.
  - destruct (getUint8 B off) as [t|e]; [|reflexivity]. cbn [bind].
    rewrite <- Hrest. destruct (t =? 0) eqn:E; [reflexivity|].
    match goal with |- bind ?m _ = bind ?m' _ => destruct m as [[n o']|e] end;
      [|reflexivity].
    cbn [bind readTag]. rewrite E. now destruct n.
Qed.

Lemma readHeader_facts B isRoot forced off ty nm off1 :
  readHeader P B isRoot forced off = Ok (ty, nm, off1) ->
  match forced with
  | Some x => ty = x
  | None => getUint8 B off = Ok ty
  end /\
  (ty = 0 -> nm = None) /\
  (ty <> 0 -> if isRoot || is_None forced then exists s, nm = Some s else nm = None).
Proof.
  unfold readHeader. intros H.
  assert (Hrest : forall t o,
    (if t =? 0 then Ok (t, None, o)
     else let! (name, offset) :=
            (if isRoot
             then let! (s, offset) := readString P B o in Ok (Some s, offset)
             else match forced with
                  | None => let! (s, offset) := readString P B o in Ok (Some s, offset)
                  | Some _ => Ok (None, o)
                  end) in
          Ok (t, name, offset)) = Ok (ty, nm, off1) ->
    t = ty /\ (ty = 0 -> nm = None) /\
    (ty <> 0 -> if isRoot || is_None forced then exists s, nm = Some s else nm = None)).
  { intros t o Ht. destruct (Z.eqb_spec t 0) as [->|Hnz].
    - injection Ht as <- <- _. repeat split; auto. congruence.
    - destruct isRoot; [|destruct forced as [x|]]; cbn [orb is_None];
        try (destruct (readString P B o) as [[s o']|e]; [|discriminate]);
        cbn [bind] in Ht; injection Ht as <- <- _;
        repeat split; eauto; congruence. }
  destruct forced as [x|]; cbn [bind] in H.
  - apply Hrest in H as (-> & H1 & H2). auto.
  - destruct (getUint8 B off) as [t|e] eqn:Eg; [|discriminate]. cbn [bind] in H.
    apply Hrest in H as (-> & H1 & H2). auto.
Qed.

Lemma forallb_Forall_impl {A} (p q : A -> bool) (Q : A -> Prop) l :
  Forall Q l -> (forall x, Q x -> p x = true -> q x = true) ->
  forallb p l = true -> forallb q l = true.
Proof.
  intros HQ Himp. induction HQ as [|x l Hx _ IH]; cbn [forallb]; [reflexivity|].
  rewrite !andb_true_iff. intros [H1 H2]. split; auto.
Qed.

Lemma readTag_wf fuel B :
  (forall ty nm off t off',
     readTag P fuel B false (Some ty) nm off = Ok (t, off') ->
     type t = ty /\ name t = (if ty =? 0 then None else nm) /\
     (plain P t = true -> wf_value P t = true)) /\
  (forall acc off v off',
     readCompound P fuel B acc off = Ok (v, off') ->
     exists l, v = VTags (acc ++ l) /\
       Forall (fun c => type c <> 0 /\ (exists s, name c = Some s) /\
                        (plain P c = true -> wf_value P c = true)) l).
Proof.
  induction fuel as [|fuel [IHt IHc]]; [split; intros; discriminate|].
  split.
  - intros ty nm off t off' H. cbn [readTag bind] in H.
    destruct (Z.eqb_spec ty 0) as [->|Hnz].
    { injection H as <- _. cbn [type name]. auto. }
    assert (Hname : match nm with
                    | None => Ok (None, off)
                    | Some n => Ok (Some n, off)
                    end = Ok (nm, off)) by now destruct nm.
    rewrite Hname in H. cbn [bind] in H.
    destruct ty as [|p|p]; [contradiction| |injection H as <- _; cbn; auto].
    pos_cases p; cbn [bind] in H.
    all: try (injection H as <- _; cbn [type name plain]; split; [reflexivity|];
              split; [reflexivity|]; intros Hp; cbn in Hp; discriminate Hp).
    + (* IntArray *)
      destruct (getInt32 B off) as [len|] eqn:El; [|discriminate]. cbn [bind] in H.
      apply (getter_range B off 4 32) in El; [|lia|lia].
      rewrite bind_assoc in H.
      match type of H with bind ?m _ = _ => destruct m as [[a o]|e] eqn:Er end;
        [|discriminate].
      cbn [bind] in H. injection H as <- _. cbn [type name].
      split; [reflexivity|]. split; [reflexivity|]. intros _.
      apply (repeatM_inv _ (fun v => - 2 ^ 31 <= v < 2 ^ 31)) in Er
        as (l' & -> & Hlen & Hall).
      2:{ intros o1 v o2 Hv. destruct (getInt32 B o1) as [x|] eqn:Ex; [|discriminate].
          injection Hv as <- _. apply (getter_range B o1 4 32) in Ex; [exact Ex|lia|lia]. }
      cbn [wf_value app]. apply andb_true_iff. split.
      * apply Z.ltb_lt. rewrite Hlen. change (2 ^ (32 - 1)) with (2 ^ 31) in El. lia.
      * apply forallb_forall. intros x Hx. rewrite List.Forall_forall in Hall.
        apply in_range_spec. now apply Hall.
    + (* ByteArray *)
      destruct (getInt32 B off) as [len|] eqn:El; [|discriminate]. cbn [bind] in H.
      apply (getter_range B off 4 32) in El; [|lia|lia].
      destruct (bytesAt B (off + 4) len) as [bs|] eqn:Eb; [|discriminate].
      cbn [bind] in H. injection H as <- _. cbn [type name].
      split; [reflexivity|]. split; [reflexivity|]. intros _.
      apply bytesAt_length in Eb.
      cbn [wf_value]. apply andb_true_iff. split.
      * apply Z.ltb_lt. rewrite length_map, Eb.
        change (2 ^ (32 - 1)) with (2 ^ 31) in El. lia.
      * apply forallb_forall. intros x Hx. apply in_map_iff in Hx as (b & <- & _).
        apply in_range_spec. pose proof (byte_val_range b).
        apply (to_signed_range 8); lia.
    + (* List *)
      destruct (getUint8 B off) as [it|] eqn:Ei; [|discriminate]. cbn [bind] in H.
      destruct (getInt32 B (off + 1)) as [len|] eqn:El; [|discriminate]. cbn [bind] in H.
      apply (getter_range B (off + 1) 4 32) in El; [|lia|lia].
      rewrite bind_assoc in H.
      match type of H with bind ?m _ = _ => destruct m as [[l o]|e] eqn:Er end;
        [|discriminate].
      cbn [bind] in H. injection H as <- _. cbn [type name].
      split; [reflexivity|]. split; [reflexivity|]. intros Hp.
      apply (repeatM_inv _ (fun c => type c = it /\ name c = None /\
                                     (plain P c = true -> wf_value P c = true))) in Er
        as (l' & -> & Hlen & Hall).
      2:{ intros o1 c o2 Hc. destruct (IHt it None o1 c o2 Hc) as (H1 & H2 & H3).
          split; [exact H1|]. split; [|exact H3]. rewrite H2. now destruct (it =? 0). }
      cbn [plain app] in Hp. rewrite !andb_true_iff in Hp.
      destruct Hp as [_ [Hit Hpl]].
      cbn [wf_value app]. rewrite !andb_true_iff. split; [split|].
      * exact Hit.
      * apply Z.ltb_lt. rewrite Hlen. change (2 ^ (32 - 1)) with (2 ^ 31) in El. lia.
      * revert Hpl. apply (forallb_Forall_impl _ _ _ _ Hall).
        intros c (H1 & H2 & H3) Hc. rewrite H1, H2, Z.eqb_refl. cbn [is_None andb].
        now apply H3.
    + (* Float *)
      destruct (getFloat32 B off) as [v|] eqn:Ev; [|discriminate]. cbn [bind] in H.
      injection H as <- _. cbn [type name].
      split; [reflexivity|]. split; [reflexivity|]. intros _.
      unfold getFloat32, rmap in Ev.
      destruct (bytesAt B off 4) as [bs|] eqn:Eb; [|discriminate]. injection Ev as <-.
      apply bytesAt_length in Eb. pose proof (be_unsigned_bound bs) as Hb.
      rewrite Eb in Hb. cbn [wf_value]. apply in_range_spec. simpl in Hb. lia.
    + (* Int *)
      destruct (getInt32 B off) as [v|] eqn:Ev; [|discriminate]. cbn [bind] in H.
      injection H as <- _. cbn [type name].
      split; [reflexivity|]. split; [reflexivity|]. intros _.
      apply (getter_range B off 4 32) in Ev; [|lia|lia].
      cbn [wf_value]. now apply in_range_spec.
    + (* Compound *)
      destruct (readCompound P fuel B [] off) as [[v o]|e] eqn:Ec; [|discriminate].
      cbn [bind] in H. injection H as <- _. cbn [type name].
      split; [reflexivity|]. split; [reflexivity|]. intros Hp.
      destruct (IHc [] off v o Ec) as (l & -> & Hall). cbn [app] in *.
      cbn [plain] in Hp. rewrite !andb_true_iff in Hp. destruct Hp as [_ Hpl].
      cbn [wf_value]. revert Hpl. apply (forallb_Forall_impl _ _ _ _ Hall).
      intros c (H1 & (s & H2) & H3) Hc.
      rewrite (proj2 (Z.eqb_neq _ _) H1), H2. cbn [negb andb name_ok].
      rewrite (H3 Hc), andb_true_r.
      destruct c as [cty cnm cv]. cbn [name] in H2. subst cnm.
      cbn [plain] in Hc. rewrite !andb_true_iff in Hc. tauto.
    + (* Double *)
      destruct (getFloat64 B off) as [v|] eqn:Ev; [|discriminate]. cbn [bind] in H.
      injection H as <- _. cbn [type name].
      split; [reflexivity|]. split; [reflexivity|]. intros _.
      unfold getFloat64, rmap in Ev.
      destruct (bytesAt B off 8) as [bs|] eqn:Eb; [|discriminate]. injection Ev as <-.
      apply bytesAt_length in Eb. pose proof (be_unsigned_bound bs) as Hb.
      rewrite Eb in Hb. cbn [wf_value]. apply in_range_spec. simpl in Hb. lia.
    + (* LongArray *)
      destruct (getInt32 B off) as [len|] eqn:El; [|discriminate]. cbn [bind] in H.
      apply (getter_range B off 4 32) in El; [|lia|lia].
      rewrite bind_assoc in H.
      match type of H with bind ?m _ = _ => destruct m as [[a o]|e] eqn:Er end;
        [|discriminate].
      cbn [bind] in H. injection H as <- _. cbn [type name].
      split; [reflexivity|]. split; [reflexivity|]. intros _.
      apply (repeatM_inv _ (fun v => - 2 ^ 63 <= v < 2 ^ 63)) in Er
        as (l' & -> & Hlen & Hall).
      2:{ intros o1 v o2 Hv. destruct (parseLong B o1) as [x|] eqn:Ex; [|discriminate].
          injection Hv as <- _. now apply parseLong_range in Ex. }
      cbn [wf_value app]. apply andb_true_iff. split.
      * apply Z.ltb_lt. rewrite Hlen. change (2 ^ (32 - 1)) with (2 ^ 31) in El. lia.
      * apply forallb_forall. intros x Hx. rewrite List.Forall_forall in Hall.
        apply in_range_spec. now apply Hall.
    + (* String *)
      destruct (readString P B off) as [[s o]|] eqn:Es; [|discriminate].
      cbn [bind] in H. injection H as <- _. cbn [type name].
      split; [reflexivity|]. split; [reflexivity|]. intros Hp.
      cbn [plain] in Hp. rewrite !andb_true_iff in Hp. cbn [wf_value]. tauto.
    + (* Long *)
      destruct (parseLong B off) as [v|] eqn:Ev; [|discriminate]. cbn [bind] in H.
      injection H as <- _. cbn [type name].
      split; [reflexivity|]. split; [reflexivity|]. intros _.
      apply parseLong_range in Ev. cbn [wf_value]. now apply in_range_spec.
    + (* Short *)
      destruct (getInt16 B off) as [v|] eqn:Ev; [|discriminate]. cbn [bind] in H.
      injection H as <- _. cbn [type name].
      split; [reflexivity|]. split; [reflexivity|]. intros _.
      apply (getter_range B off 2 16) in Ev; [|lia|lia].
      cbn [wf_value]. now apply in_range_spec.
    + (* Byte *)
      destruct (getInt8 B off) as [v|] eqn:Ev; [|discriminate]. cbn [bind] in H.
      injection H as <- _. cbn [type name].
      split; [reflexivity|]. split; [reflexivity|]. intros _.
      apply (getter_range B off 1 8) in Ev; [|lia|lia].
      cbn [wf_value]. now apply in_range_spec.
  - intros acc off v off' H. cbn [readCompound] in H.
    destruct (getUint8 B off) as [nextType|] eqn:En; [|discriminate]. cbn [bind] in H.
    destruct (Z.eqb_spec nextType 0) as [->|Hnz].
    { injection H as <- _. exists []. now rewrite app_nil_r. }
    destruct (readTag P fuel B false None None off) as [[t o]|e] eqn:Et; [|discriminate].
    cbn [bind] in H. destruct (IHc _ _ _ _ H) as (l & -> & Hall).
    exists (t :: l). rewrite <- app_assoc. split; [reflexivity|].
    constructor; [|exact Hall].
    destruct fuel as [|fuel']; [discriminate|].
    rewrite readTag_split in Et.
    destruct (readHeader P B false None off) as [[[ty nm] off1]|] eqn:Eh; [|discriminate].
    cbn [bind fst snd] in Et.
    destruct (readHeader_facts B false None off ty nm off1 Eh) as (Hty & _ & Hnm).
    rewrite En in Hty. injection Hty as <-.
    destruct (IHt nextType nm off1 t o Et) as (H1 & H2 & H3).
    destruct (Hnm Hnz) as [s ->]. rewrite (proj2 (Z.eqb_neq _ _) Hnz) in H2.
    split; [congruence|]. split; [eauto|exact H3].
Qed.

(** The root that [readTag] returns is representable as soon as it is
    [plain]. *)
Lemma readTag_root_wf fuel B root n :
  readTag P fuel B true None None 0 = Ok (root, n) ->
  plain P root = true -> wf_root P root = true.
Proof.
  intros H Hp. destruct fuel as [|fuel]; [discriminate|].
  rewrite readTag_split in H.
  destruct (readHeader P B true None 0) as [[[ty nm] off1]|] eqn:Eh; [|discriminate].
  cbn [bind fst snd] in H.
  destruct (readHeader_facts B true None 0 ty nm off1 Eh) as (_ & Hz & Hnm).
  destruct (proj1 (readTag_wf (S fuel) B) ty nm off1 root n H) as (Hty & Hn & Hwf).
  unfold wf_root. rewrite (Hwf Hp), Hty, Hn. cbn [andb].
  destruct (Z.eqb_spec ty 0) as [E|E]; [reflexivity|].
  destruct (Hnm E) as [s ->]. cbn [name_ok].
  destruct root as [rty rnm rv]. cbn [name] in Hn. subst rnm.
  cbn [plain] in Hp. rewrite !Bool.andb_true_iff in Hp. tauto.
Qed.

(** Decoder output can be written back.  Whatever tree [parse] returns,
    provided its kinds are known (0..12) and its names and texts survive the
    platform's UTF-8 codec and encode to fewer than [2^16] bytes, is accepted
    by the uncompressed writer, and parsing
    the written bytes gives the same tree again: the numbers, array lengths,
    list element kinds and naming that the decoder produces always fit the
    format. *)
Theorem decoded_tree_writes_back fuel arr root c :
  parse P fuel arr = Ok (root, c) ->
  plain P root = true ->
  exists bytes,
    write P root false = Ok bytes /\
    forall fuel', (tagFuel root <= fuel')%nat -> parse P fuel' bytes = Ok (root, false).
Proof.
  intros H Hp.
  assert (Hwf : wf_root P root = true).
  { unfold parse in H.
    destruct (hasGzipMagic arr).
    - destruct (pako_ungzip P arr) as [inflated|]; [|discriminate].
      cbn [bind] in H.
      destruct (readTag P fuel inflated true None None 0) as [[r n]|] eqn:Er; [|discriminate].
      cbn [bind] in H. injection H as <- _. exact (readTag_root_wf _ _ _ _ Er Hp).
    - cbn [bind] in H.
      destruct (readTag P fuel arr true None None 0) as [[r n]|] eqn:Er; [|discriminate].
      cbn [bind] in H. injection H as <- _. exact (readTag_root_wf _ _ _ _ Er Hp). }
  destruct (write_read_root P root Hwf) as (bytes & n & Hw & Hraw & Hrd).
  exists bytes. split; [exact Hw|]. intros fuel' Hf.
  rewrite (parse_raw P fuel' bytes Hraw), (Hrd fuel' Hf). reflexivity.
Qed.

End Decoded.

Lemma decoded_tree_writes_back_xpLevel :
  exists bytes,
    write ascii_platform xpLevel false = Ok bytes /\
    forall fuel', (tagFuel xpLevel <= fuel')%nat ->
      parse ascii_platform fuel' bytes = Ok (xpLevel, false).
Proof.
  apply (decoded_tree_writes_back ascii_platform 4 (xpLevelBytes ++ [x1f; x8b]) xpLevel false);
    reflexivity.
Defined.

(** ** Bulk deletion keeps a document writable *)

Lemma wf_shaped P t : wf_value P t = true -> shaped t = true.
Proof.
  induction t as [ty nm v IH] using NBTTag_ind'. intros Hwf.
  rewrite List.Forall_forall in IH. cbn [shaped].
  destruct (Z.eqb_spec ty 10) as [->|Hn10].
  - destruct v; try discriminate Hwf. cbn [wf_value] in Hwf. cbn [childrenOf] in IH.
    apply forallb_forall. intros c Hc. apply IH; [exact Hc|].
    rewrite forallb_forall in Hwf. specialize (Hwf c Hc).
    rewrite !Bool.andb_true_iff in Hwf. tauto.
  - destruct (Z.eqb_spec ty 9) as [->|Hn9]; [|reflexivity].
    destruct v; try discriminate Hwf. cbn [wf_value] in Hwf. cbn [childrenOf] in IH.
    rewrite !Bool.andb_true_iff in Hwf. destruct Hwf as [_ Hwf].
    apply forallb_forall. intros c Hc. apply IH; [exact Hc|].
    rewrite forallb_forall in Hwf. specialize (Hwf c Hc).
    rewrite !Bool.andb_true_iff in Hwf. tauto.
Qed.

Lemma survivors_forallb S (Q : NBTTag -> bool) ks :
  Forall (fun k => Q (rebuild (prune S k)) = true) ks ->
  forallb Q (map rebuild (survivors S (prune S) ks)) = true.
Proof.
  induction 1 as [|k ks Hk _ IH]; [reflexivity|].
  cbn [survivors]. destruct (bool_decide (lpath k ∈ S)); [exact IH|].
  cbn [map forallb]. now rewrite Hk.
Qed.

Lemma survivors_length S pr ks : (length (survivors S pr ks) <= length ks)%nat.
Proof.
  induction ks as [|k ks IH]; [reflexivity|].
  cbn [survivors]. destruct (bool_decide (lpath k ∈ S)); cbn [length]; lia.
Qed.

Lemma Forall_mapi {A B} (f : A -> nat -> B) (Q : B -> Prop) l :
  (forall c idx, In c l -> Q (f c idx)) -> forall i, Forall Q (mapi f l i).
Proof.
  induction l as [|c l IH]; intros H i; cbn [mapi]; constructor.
  - apply H. now left.
  - apply IH. intros c' idx Hc'. apply H. now right.
Qed.

Lemma length_mapi {A B} (f : A -> nat -> B) l : forall i, length (mapi f l i) = length l.
Proof. induction l as [|c l IH]; intros i; cbn [mapi length]; [reflexivity|now rewrite IH]. Qed.

(** Pruning keeps the kind and the name of a node, and keeps it
    representable. *)
Lemma prune_wf P S t : forall p,
  wf_value P t = true ->
  type (rebuild (prune S (annotate t p))) = type t /\
  name (rebuild (prune S (annotate t p))) = name t /\
  wf_value P (rebuild (prune S (annotate t p))) = true.
Proof.
  induction t as [ty nm v IH] using NBTTag_ind'. intros p Hwf.
  rewrite List.Forall_forall in IH.
  cbn [annotate prune rebuild].
  destruct (Z.eqb_spec ty 10) as [->|Hn10].
  - destruct v; try discriminate Hwf. cbn [wf_value] in Hwf. cbn [childrenOf] in IH.
    cbn [type name]. split; [reflexivity|]. split; [reflexivity|].
    cbn [wf_value]. apply survivors_forallb.
    apply Forall_map, List.Forall_forall. intros c Hc.
    rewrite forallb_forall in Hwf. specialize (Hwf c Hc).
    rewrite !Bool.andb_true_iff in Hwf. destruct Hwf as [[Hty Hnm] Hc_wf].
    destruct (IH c Hc (compoundPath p c) Hc_wf) as (-> & -> & ->).
    now rewrite Hty, Hnm.
  - destruct (Z.eqb_spec ty 9) as [->|Hn9]; [|auto].
    destruct v; try discriminate Hwf. cbn [wf_value] in Hwf. cbn [childrenOf] in IH.
    cbn [type name]. split; [reflexivity|]. split; [reflexivity|].
    rewrite !Bool.andb_true_iff in Hwf. destruct Hwf as [[Hit Hlen] Hall].
    cbn [wf_value]. rewrite Hit. cbn [andb].
    apply Bool.andb_true_iff. split.
    + apply Z.ltb_lt. apply Z.ltb_lt in Hlen.
      rewrite length_map.
      pose proof (survivors_length S (prune S)
                    (mapi (fun c idx => annotate c (listPath p idx)) list 0)) as Hle.
      rewrite length_mapi in Hle. lia.
    + apply survivors_forallb, Forall_mapi. intros c idx Hc.
      rewrite forallb_forall in Hall. specialize (Hall c Hc).
      rewrite !Bool.andb_true_iff in Hall. destruct Hall as [[Hty Hnm] Hc_wf].
      destruct (IH c Hc (listPath p idx) Hc_wf) as (-> & -> & ->).
      now rewrite Hty, Hnm.
Qed.

(** Bulk deletion keeps a document writable.  Deleting any set of paths
    that does not contain the root from a representable tree succeeds and
    leaves a representable tree of the same kind and name: the uncompressed
    writer accepts it and the parser reads it back unchanged.  In particular
    a List keeps elements of its declared kind only, and a Compound keeps
    named children only. *)
Theorem bulk_delete_keeps_writable P root S :
  wf_root P root = true -> "root" ∉ S ->
  exists r bytes,
    deleteNodesByPaths root S = Ok r /\
    type r = type root /\ name r = name root /\
    write P r false = Ok bytes /\
    forall fuel, (tagFuel r <= fuel)%nat -> parse P fuel bytes = Ok (r, false).
Proof.
  intros Hwf Hroot. unfold wf_root in Hwf.
  apply Bool.andb_true_iff in Hwf. destruct Hwf as [Hv Hn].
  destruct (prune_wf P S root "root" Hv) as (Hty & Hnm & Hv').
  assert (Hwf' : wf_root P (rebuild (prune S (annotate root "root"))) = true).
  { unfold wf_root. now rewrite Hv', Hty, Hnm. }
  destruct (write_read_root P _ Hwf') as (bytes & n & Hw & Hraw & Hrd).
  exists (rebuild (prune S (annotate root "root"))), bytes.
  split.
  { rewrite (deleteNodesByPaths_shaped root S (wf_shaped P root Hv)).
    now rewrite bool_decide_eq_false_2. }
  split; [exact Hty|]. split; [exact Hnm|]. split; [exact Hw|].
  intros fuel Hf. rewrite (parse_raw P fuel bytes Hraw), (Hrd fuel Hf). reflexivity.
Qed.

Lemma bulk_delete_keeps_writable_player :
  exists r bytes,
    deleteNodesByPaths player {[ "root.Inventory[0]" ]} = Ok r /\
    type r = type player /\ name r = name player /\
    write ascii_platform r false = Ok bytes /\
    forall fuel, (tagFuel r <= fuel)%nat -> parse ascii_platform fuel bytes = Ok (r, false).
Proof.
  apply (bulk_delete_keeps_writable ascii_platform player {[ "root.Inventory[0]" ]}).
  - reflexivity.
  - rewrite elem_of_singleton. discriminate.
Defined.

(** ** Selection *)

Module EditorProofs.
Import App Editor.

(** A second Ctrl-click on the same row undoes the first: the selection is
    what it was, and the documents are untouched. *)
Theorem toggle_twice path s :
  exists s1 s2,
    handleSelect path toggle s = Ok s1 /\
    handleSelect path toggle s1 = Ok s2 /\
    (path ∈ selectedPaths (app s1) <-> path ∉ selectedPaths (app s)) /\
    selectedPaths (app s2) = selectedPaths (app s) /\
    files (app s2) = files (app s) /\
    activeFileId (app s2) = activeFileId (app s).
Proof.
  do 2 eexists. split; [reflexivity|]. split; [reflexivity|].
  cbn [handleSelect app withSelection selectedPaths files activeFileId].
  destruct (bool_decide_reflect (path ∈ selectedPaths (app s))) as [Hin|Hout].
  - split; [rewrite elem_of_difference, elem_of_singleton; tauto|].
    rewrite bool_decide_eq_false_2
      by (rewrite elem_of_difference, elem_of_singleton; tauto).
    split; [|auto]. apply set_eq. intros q. rewrite elem_of_union, elem_of_difference.
    rewrite elem_of_singleton. destruct (decide (q = path)) as [->|]; tauto.
  - split; [rewrite elem_of_union, elem_of_singleton; tauto|].
    rewrite bool_decide_eq_true_2
      by (rewrite elem_of_union, elem_of_singleton; tauto).
    split; [|auto]. apply set_eq. intros q.
    rewrite elem_of_difference, elem_of_union, elem_of_singleton.
    destruct (decide (q = path)) as [->|]; tauto.
Qed.

Lemma indexOf_lookup arr x : forall i,
  indexOf arr x = Some i ->
  arr !! i = Some x /\ forall k, (k < i)%nat -> arr !! k <> Some x.
Proof.
  induction arr as [|y arr IH]; intros i H; [discriminate|]. cbn [indexOf] in H.
  destruct (String.eqb_spec y x) as [->|Hne].
  - injection H as Hi. subst i. split; [reflexivity|]. intros k Hk. lia.
  - destruct (indexOf arr x) as [j|]; [|discriminate].
    injection H as Hi. subst i.
    destruct (IH j eq_refl) as [Hj Hfirst]. split; [exact Hj|].
    intros [|k] Hk; [intros [= E]; contradiction|].
    apply Hfirst. lia.
Qed.

Lemma indexOf_None arr x : indexOf arr x = None -> ~ In x arr.
Proof.
  induction arr as [|y arr IH]; cbn [indexOf]; [tauto|].
  destruct (String.eqb_spec y x) as [->|Hne]; [discriminate|].
  destruct (indexOf arr x) as [j|]; [discriminate|].
  intros _ [E|Hin]; [congruence|now apply IH].
Qed.

Lemma elem_of_slice {A} (arr : list A) a b q :
  q ∈ slice a b arr <-> exists k, (a <= k < b)%nat /\ arr !! k = Some q.
Proof.
  unfold slice. rewrite list_elem_of_lookup. split.
  - intros [i Hi]. apply lookup_take_Some in Hi as [Hi Hlt].
    rewrite lookup_drop in Hi. exists (a + i)%nat. split; [lia|exact Hi].
  - intros (k & Hk & Hq). exists (k - a)%nat.
    apply lookup_take_Some. split; [|lia].
    rewrite lookup_drop. now replace (a + (k - a))%nat with k by lia.
Qed.

(** Shift-click: the rows between the last clicked row and this one, both
    included and in the order of [flattenTree], join the selection; nothing
    leaves it, and the documents are untouched.  When one of the two rows is
    not a path of the tree any more, nothing changes. *)
Theorem range_select s af last path allPaths :
  activeFile (app s) = Some af ->
  lastClickedPath s = Some last -> last <> "" ->
  flattenTree (root af) "root" = Ok allPaths ->
  (forall startIdx endIdx,
     indexOf allPaths last = Some startIdx -> indexOf allPaths path = Some endIdx ->
     exists s',
       handleSelect path range s = Ok s' /\
       files (app s') = files (app s) /\
       (forall q, q ∈ selectedPaths (app s') <->
                  q ∈ selectedPaths (app s) \/
                  exists k, (Nat.min startIdx endIdx <= k <= Nat.max startIdx endIdx)%nat /\
                            allPaths !! k = Some q) /\
       last ∈ selectedPaths (app s') /\ path ∈ selectedPaths (app s')) /\
  (~ In last allPaths \/ ~ In path allPaths -> handleSelect path range s = Ok s).
Proof.
  intros Ha Hlast Hne Hflat. unfold handleSelect. rewrite Ha, Hlast.
  rewrite (proj2 (String.eqb_neq _ _) Hne), Hflat. cbn [bind]. split.
  - intros startIdx endIdx Hs He. rewrite Hs, He.
    eexists. split; [reflexivity|]. cbn [app withSelection files selectedPaths].
    split; [reflexivity|].
    assert (Hiff : forall q,
      q ∈ selectedPaths (app s)
          ∪ list_to_set (slice (Nat.min startIdx endIdx)
                               (Nat.max startIdx endIdx + 1) allPaths) <->
      q ∈ selectedPaths (app s) \/
      exists k, (Nat.min startIdx endIdx <= k <= Nat.max startIdx endIdx)%nat /\
                allPaths !! k = Some q).
    { intros q. rewrite elem_of_union, elem_of_list_to_set, elem_of_slice.
      split; (intros [H|(k & Hk & Hq)]; [now left|right; exists k; split; [lia|exact Hq]]). }
    split; [exact Hiff|].
    apply indexOf_lookup in Hs as [Hs _]. apply indexOf_lookup in He as [He _].
    split; apply Hiff; right; [exists startIdx|exists endIdx]; (split; [lia|assumption]).
  - intros [H|H].
    + destruct (indexOf allPaths last) as [i|] eqn:E; [|reflexivity].
      apply indexOf_lookup in E as [E _]. apply In_lookup in E. contradiction.
    + destruct (indexOf allPaths path) as [i|] eqn:E.
      * apply indexOf_lookup in E as [E _]. apply In_lookup in E. contradiction.
      * now destruct (indexOf allPaths last).
Qed.

(** Invert selection: the new selection is made of the paths of the tree
    that were not selected, the root's path left out; it never holds the
    root, and inverting again gives back the part of the first selection
    that lies on the tree below the root.  The documents are untouched. *)
Theorem invert_selection s af allPaths :
  activeFile s = Some af ->
  flattenTree (root af) "root" = Ok allPaths ->
  exists s' s'',
    invertSelection s = Ok s' /\
    files s' = files s /\ activeFileId s' = activeFileId s /\
    (forall q, q ∈ selectedPaths s' <->
               In q allPaths /\ q <> "root" /\ (q ∉ selectedPaths s)) /\
    ("root" ∉ selectedPaths s') /\
    invertSelection s' = Ok s'' /\
    (forall q, q ∈ selectedPaths s'' <->
               In q allPaths /\ q <> "root" /\ (q ∈ selectedPaths s)).
Proof.
  intros Ha Hflat.
  assert (Hinv : forall t, activeFile t = Some af ->
    exists t',
      invertSelection t = Ok t' /\ activeFile t' = Some af /\
      files t' = files t /\ activeFileId t' = activeFileId t /\
      forall q, q ∈ selectedPaths t' <->
                In q allPaths /\ q <> "root" /\ (q ∉ selectedPaths t)).
  { intros t Ht. unfold invertSelection. rewrite Ht, Hflat. cbn [bind].
    eexists. split; [reflexivity|]. split; [exact Ht|].
    split; [reflexivity|]. split; [reflexivity|].
    intros q. cbn [withSelection selectedPaths].
    rewrite elem_of_list_to_set, list_elem_of_In, filter_In, andb_true_iff,
      !negb_true_iff, bool_decide_eq_false, String.eqb_neq.
    reflexivity. }
  destruct (Hinv s Ha) as (s' & H1 & Ha' & Hf & Hid & Hsel).
  destruct (Hinv s' Ha') as (s'' & H2 & _ & _ & _ & Hsel').
  exists s', s''. repeat (split; [assumption|]).
  split; [intros H; apply Hsel in H as (_ & H & _); congruence|].
  split; [exact H2|].
  intros q. rewrite Hsel', Hsel. split.
  - intros (Hin & Hq & Hn). repeat split; auto.
    destruct (decide (q ∈ selectedPaths s)); [assumption|]. exfalso. apply Hn. auto.
  - intros (Hin & Hq & Hs). repeat split; auto. intros (_ & _ & Hn). contradiction.
Qed.

(** ** History: undo against redo, and the other documents *)

(** Undo and redo cancel each other: an undo followed by a redo, and a redo
    followed by an undo, give back the tree and both stacks of the active
    document. *)
Theorem undo_redo_cancel s f :
  activeFile s = Some f -> rootsShaped s ->
  (forall x, last (undoStack f) = Some x -> shaped x = true ->
     exists s1 s2 f2,
       handleUndo s = Ok s1 /\ handleRedo s1 = Ok s2 /\ activeFile s2 = Some f2 /\
       root f2 = root f /\ undoStack f2 = undoStack f /\ redoStack f2 = redoStack f) /\
  (forall x, last (redoStack f) = Some x -> shaped x = true ->
     exists s1 s2 f2,
       handleRedo s = Ok s1 /\ handleUndo s1 = Ok s2 /\ activeFile s2 = Some f2 /\
       root f2 = root f /\ undoStack f2 = undoStack f /\ redoStack f2 = redoStack f).
Proof.
  intros Ha Hs. split; intros x Hx Hsx.
  - destruct (AppProofs.undo_active s f x Ha Hs Hx) as (s1 & H1 & Ha1 & Hs1).
    specialize (Hs1 Hsx).
    destruct (AppProofs.redo_active s1 (undone f x) (root f) Ha1 Hs1)
      as (s2 & H2 & Ha2 & _).
    { cbn [undone redoStack]. apply last_snoc. }
    exists s1, s2, (redone (undone f x) (root f)).
    repeat (split; [assumption|]). cbn [redone undone root undoStack redoStack].
    split; [reflexivity|]. apply last_Some in Hx as [l' ->].
    now rewrite !removelast_last.
  - destruct (AppProofs.redo_active s f x Ha Hs Hx) as (s1 & H1 & Ha1 & Hs1).
    specialize (Hs1 Hsx).
    destruct (AppProofs.undo_active s1 (redone f x) (root f) Ha1 Hs1)
      as (s2 & H2 & Ha2 & _).
    { cbn [redone undoStack]. apply last_snoc. }
    exists s1, s2, (undone (redone f x) (root f)).
    repeat (split; [assumption|]). cbn [redone undone root undoStack redoStack].
    split; [reflexivity|]. apply last_Some in Hx as [l' ->].
    now rewrite !removelast_last.
Qed.

Lemma Forall2_map_if (U : NBTFile -> NBTFile) fid l :
  (forall g, id (U g) = id g) ->
  Forall2 (fun g g' => id g' = id g /\ (id g <> fid -> g' = g)) l
          (map (fun h => if String.eqb (id h) fid then U h else h) l).
Proof.
  intros HU. induction l as [|h l IH]; cbn [map]; constructor; [|exact IH].
  destruct (String.eqb_spec (id h) fid) as [E|N]; split; auto; congruence.
Qed.

Lemma Forall2_same_files (l : list NBTFile) fid :
  Forall2 (fun g g' => id g' = id g /\ (id g <> fid -> g' = g)) l l.
Proof. induction l; constructor; auto. Qed.

(** What a commit, an undo, a redo and a bulk delete do to the list of
    documents: position by position the ids stay, and a document whose id is
    not the active one stays as it is. *)
Lemma edits_frame s s' f :
  activeFile s = Some f ->
  (exists r, updateActiveFileRoot r s = Ok s') \/ handleUndo s = Ok s' \/
  handleRedo s = Ok s' \/ deleteSelected true s = Ok s' ->
  activeFileId s' = activeFileId s /\
  Forall2 (fun g g' => id g' = id g /\ (id g <> id f -> g' = g)) (files s) (files s').
Proof.
  intros Ha. destruct (AppProofs.activeFile_id s f Ha) as [Hid _].
  assert (Hcommit : forall r t, updateActiveFileRoot r s = Ok t ->
    activeFileId t = activeFileId s /\
    Forall2 (fun g g' => id g' = id g /\ (id g <> id f -> g' = g)) (files s) (files t)).
  { intros r t H. unfold updateActiveFileRoot in H. rewrite Hid in H.
    destruct (noActiveFileId (Some (id f)));
      [injection H as Ht; subst t; split; [reflexivity|apply Forall2_same_files]|].
    destruct (pushHistory (id f) r (files s)) as [fs|e] eqn:E; [|discriminate].
    cbn [bind] in H. injection H as <-. apply AppProofs.pushHistory_inv in E. subst fs.
    cbn [files activeFileId]. split; [now rewrite Hid|].
    induction (files s) as [|h l IH]; cbn [map]; constructor; [|exact IH].
    destruct (String.eqb_spec (id h) (id f)) as [E|N]; cbn [negb]; split; auto; congruence. }
  intros [[r H]|[H|[H|H]]].
  - exact (Hcommit r s' H).
  - unfold handleUndo in H. rewrite Ha in H.
    destruct (last (undoStack f));
      [|injection H as Ht; subst s'; split; [reflexivity|apply Forall2_same_files]].
    destruct (cloneTag (root f)); [|discriminate]. cbn [bind] in H.
    injection H as <-. cbn [files activeFileId]. split; [reflexivity|].
    now apply Forall2_map_if.
  - unfold handleRedo in H. rewrite Ha in H.
    destruct (last (redoStack f));
      [|injection H as Ht; subst s'; split; [reflexivity|apply Forall2_same_files]].
    destruct (cloneTag (root f)); [|discriminate]. cbn [bind] in H.
    injection H as <-. cbn [files activeFileId]. split; [reflexivity|].
    now apply Forall2_map_if.
  - unfold deleteSelected in H. rewrite Ha in H.
    destruct (size (selectedPaths s) =? 0)%nat;
      [injection H as Ht; subst s'; split; [reflexivity|apply Forall2_same_files]|].
    cbn [negb] in H.
    destruct (deleteNodesByPaths (root f) (selectedPaths s)) as [r|e]; [|discriminate].
    cbn [bind] in H.
    destruct (updateActiveFileRoot r s) as [t|e] eqn:E; [|discriminate].
    cbn [bind] in H. injection H as <-. cbn [files activeFileId].
    exact (Hcommit r t E).
Qed.

(** A commit, an undo, a redo and a bulk delete change the active document
    only: the tabs stay as many, the same one stays active, and every
    document with another id is left exactly as it was, history included. *)
Theorem other_documents_untouched s s' f :
  activeFile s = Some f ->
  (exists r, updateActiveFileRoot r s = Ok s') \/ handleUndo s = Ok s' \/
  handleRedo s = Ok s' \/ deleteSelected true s = Ok s' ->
  length (files s') = length (files s) /\
  activeFileId s' = activeFileId s /\
  forall k g, files s !! k = Some g -> id g <> id f -> files s' !! k = Some g.
Proof.
  intros Ha Hop. destruct (edits_frame s s' f Ha Hop) as [Hid HF].
  split; [symmetry; eapply Forall2_length; eauto|]. split; [exact Hid|].
  intros k g Hk Hne.
  destruct (Forall2_lookup_l _ _ _ _ _ HF Hk) as (g' & Hk' & _ & Hsame).
  now rewrite Hk', (Hsame Hne).
Qed.

Lemma undos_last n : forall s,
  undos (S n) s = let! s' := undos n s in handleUndo s'.
Proof.
  induction n as [|n IH]; intros s.
  - cbn [undos bind]. now destruct (handleUndo s).
  - change (undos (S (S n)) s) with (let! s' := handleUndo s in undos (S n) s').
    change (undos (S n) s) with (let! s' := handleUndo s in undos n s').
    destruct (handleUndo s) as [s1|e]; [|reflexivity]. cbn [bind]. apply IH.
Qed.

Lemma sliceLast_small {A} n (l : list A) : (length l <= n)%nat -> sliceLast n l = l.
Proof.
  intros H. unfold sliceLast. now replace (length l - n)%nat with 0%nat by lia.
Qed.

Lemma commits_undos rs : forall s f,
  activeFile s = Some f -> id f <> "" -> rootsShaped s ->
  Forall (fun r => shaped r = true) rs ->
  (length (undoStack f) + length rs <= 50)%nat ->
  exists s1 s2 f2,
    commits rs s = Ok s1 /\ undos (length rs) s1 = Ok s2 /\
    activeFile s2 = Some f2 /\ rootsShaped s2 /\ id f2 = id f /\
    root f2 = root f /\ undoStack f2 = undoStack f /\
    redoStack f2 = match rs with [] => redoStack f | _ => rev rs end.
Proof.
  induction rs as [|r rs IH]; intros s f Ha Hne Hs Hrs Hlen.
  - exists s, s, f. repeat split; auto.
  - apply Forall_cons in Hrs as [Hr Hrs]. cbn [length] in Hlen.
    destruct (AppProofs.commit_active s f r Ha Hne Hs) as (s0 & H0 & Ha0 & _ & Hs0).
    specialize (Hs0 Hr).
    assert (Hundo0 : undoStack (committed r f) = undoStack f ++ [root f]).
    { cbn [committed undoStack]. apply sliceLast_small.
      rewrite length_app. simpl. lia. }
    destruct (IH s0 (committed r f) Ha0 Hne Hs0 Hrs)
      as (s1 & s2 & f2 & Hc & Hu & Ha2 & Hs2 & Hid2 & Hroot2 & Hundo2 & Hredo2).
    { rewrite Hundo0, length_app. simpl. lia. }
    assert (Hredo : redoStack f2 = rev rs).
    { rewrite Hredo2. now destruct rs. }
    destruct (AppProofs.undo_active s2 f2 (root f) Ha2 Hs2) as (s3 & H3 & Ha3 & Hs3).
    { rewrite Hundo2, Hundo0. apply last_snoc. }
    assert (Hf : shaped (root f) = true).
    { destruct (AppProofs.activeFile_id s f Ha) as [_ Hin].
      unfold rootsShaped in Hs. rewrite List.Forall_forall in Hs. now apply Hs. }
    exists s1, s3, (undone f2 (root f)). split.
    { cbn [commits]. rewrite H0. exact Hc. }
    split.
    { cbn [length]. rewrite undos_last, Hu. exact H3. }
    split; [exact Ha3|]. split; [now apply Hs3|].
    cbn [undone id root undoStack redoStack].
    split; [exact Hid2|]. split; [reflexivity|].
    split; [now rewrite Hundo2, Hundo0, removelast_last|].
    rewrite Hredo, Hroot2. reflexivity.
Qed.

(** Up to the cap of 50 snapshots, a run of commits is taken back by as many
    undos: the active document has its first tree and its first undo stack
    again, and the redo stack holds the committed trees, the last one
    underneath. *)
Theorem commits_then_undos rs s f :
  activeFile s = Some f -> id f <> "" -> rootsShaped s ->
  Forall (fun r => shaped r = true) rs -> rs <> [] ->
  (length (undoStack f) + length rs <= 50)%nat ->
  exists s1 s2 f2,
    commits rs s = Ok s1 /\ undos (length rs) s1 = Ok s2 /\
    activeFile s2 = Some f2 /\
    root f2 = root f /\ undoStack f2 = undoStack f /\ redoStack f2 = rev rs.
Proof.
  intros Ha Hne Hs Hrs Hnil Hlen.
  destruct (commits_undos rs s f Ha Hne Hs Hrs Hlen)
    as (s1 & s2 & f2 & Hc & Hu & Ha2 & _ & _ & Hroot & Hundo & Hredo).
  exists s1, s2, f2. repeat (split; [assumption|]).
  rewrite Hredo. now destruct rs.
Qed.

(** ** The tabs *)

Lemma activeIsOpen_ids s :
  activeIsOpen s <->
  match activeFileId s with
  | Some a => In a (map id (files s))
  | None => map id (files s) = []
  end.
Proof.
  unfold activeIsOpen. destruct (activeFileId s) as [a|].
  - rewrite in_map_iff. split; intros (f & H1 & H2); exists f; auto.
  - split; [now intros ->|]. now destruct (files s).
Qed.

Lemma activeIsOpen_same s s' :
  activeFileId s' = activeFileId s -> map id (files s') = map id (files s) ->
  activeIsOpen s -> activeIsOpen s'.
Proof. rewrite !activeIsOpen_ids. now intros -> ->. Qed.

Lemma edits_ids s s' :
  (exists r, updateActiveFileRoot r s = Ok s') \/ handleUndo s = Ok s' \/
  handleRedo s = Ok s' \/ (exists c, deleteSelected c s = Ok s') ->
  activeFileId s' = activeFileId s /\ map id (files s') = map id (files s).
Proof.
  assert (Hcommit : forall r t, updateActiveFileRoot r s = Ok t ->
    activeFileId t = activeFileId s /\ map id (files t) = map id (files s)).
  { intros r t H. unfold updateActiveFileRoot in H.
    destruct (activeFileId s) as [fid|] eqn:Hid; [|injection H as Ht; subst t; auto].
    destruct (noActiveFileId (Some fid)); [injection H as Ht; subst t; auto|].
    destruct (pushHistory fid r (files s)) as [fs|e] eqn:E; [|discriminate].
    cbn [bind] in H. injection H as <-. apply AppProofs.pushHistory_inv in E. subst fs.
    cbn [files activeFileId]. split; [reflexivity|].
    rewrite map_map. apply map_ext. intros g.
    now destruct (negb (String.eqb (id g) fid)). }
  assert (Hmap : forall (U : NBTFile -> NBTFile) fid l,
    (forall g, id (U g) = id g) ->
    map id (map (fun h => if String.eqb (id h) fid then U h else h) l) = map id l).
  { intros U fid l HU. rewrite map_map. apply map_ext. intros g.
    destruct (String.eqb (id g) fid); auto. }
  intros [[r H]|[H|[H|[c H]]]].
  - exact (Hcommit r s' H).
  - unfold handleUndo in H.
    destruct (activeFile s) as [f|]; [|injection H as Ht; subst s'; auto].
    destruct (last (undoStack f)); [|injection H as Ht; subst s'; auto].
    destruct (cloneTag (root f)); [|discriminate]. cbn [bind] in H.
    injection H as <-. cbn [files activeFileId]. split; [reflexivity|].
    now apply Hmap.
  - unfold handleRedo in H.
    destruct (activeFile s) as [f|]; [|injection H as Ht; subst s'; auto].
    destruct (last (redoStack f)); [|injection H as Ht; subst s'; auto].
    destruct (cloneTag (root f)); [|discriminate]. cbn [bind] in H.
    injection H as <-. cbn [files activeFileId]. split; [reflexivity|].
    now apply Hmap.
  - unfold deleteSelected in H.
    destruct (activeFile s) as [f|]; [|injection H as Ht; subst s'; auto].
    destruct (size (selectedPaths s) =? 0)%nat; [injection H as Ht; subst s'; auto|].
    destruct c; cbn [negb] in H; [|injection H as Ht; subst s'; auto].
    destruct (deleteNodesByPaths (root f) (selectedPaths s)) as [r|e]; [|discriminate].
    cbn [bind] in H.
    destruct (updateActiveFileRoot r s) as [t|e] eqn:E; [|discriminate].
    cbn [bind] in H. injection H as <-. cbn [files activeFileId].
    exact (Hcommit r t E).
Qed.

Lemma classic_FilesRead e : (exists k, e = FilesRead k) \/ (forall k, e <> FilesRead k).
Proof. destruct e; try (right; discriminate). left. eauto. Qed.

Lemma classic_ChooseFiles e :
  (exists uploads, e = ChooseFiles uploads) \/ (forall uploads, e <> ChooseFiles uploads).
Proof. destruct e; try (right; discriminate). left. eauto. Qed.

Lemma activeIsOpen_weaker s : activeIsOpen s -> activeAmongOpen s.
Proof.
  unfold activeIsOpen, activeAmongOpen. intros H a Ha. now rewrite Ha in H.
Qed.

Lemma activeAmongOpen_same s s' :
  activeFileId s' = activeFileId s -> map id (files s') = map id (files s) ->
  activeAmongOpen s -> activeAmongOpen s'.
Proof.
  unfold activeAmongOpen. intros Ha Hf H a Hs'. rewrite Ha in Hs'.
  destruct (H a Hs') as (f & Hin & Hid).
  assert (Hi : In a (map id (files s'))).
  { rewrite Hf. apply in_map_iff. eauto. }
  apply in_map_iff in Hi as (g & Hg & Hing). eauto.
Qed.

(** What an event other than the end of an upload does to the tabs: it
    leaves their ids and the active one alone, or closes a tab, or makes an
    open tab the active one. *)
Lemma handle_tabs P fuel e r r' :
  handle P fuel e r = Ok r' -> (forall k, e <> FilesRead k) ->
  pending r' = pending r
               ++ match e with
                  | ChooseFiles uploads => [(activeFileId (app (session r)), uploads)]
                  | _ => []
                  end /\
  ((activeFileId (app (session r')) = activeFileId (app (session r)) /\
    map id (files (app (session r'))) = map id (files (app (session r)))) \/
   (exists file, In file (files (app (session r))) /\
                 app (session r') = closeFile (id file) (app (session r))) \/
   (exists file, In file (files (app (session r))) /\
                 files (app (session r')) = files (app (session r)) /\
                 activeFileId (app (session r')) = Some (id file))).
Proof.
  intros H Hne.
  assert (Hgo : forall (m : result Session),
    rmap (fun s' => mkRunning s' (pending r)) m = Ok r' ->
    exists t, m = Ok t /\ session r' = t /\ pending r' = pending r).
  { intros [t|e0] Hm; [|discriminate]. injection Hm as <-. eauto. }
  assert (Hrmap : forall (m : result State) t,
    rmap (withApp (session r)) m = Ok t -> exists a, m = Ok a /\ app t = a).
  { intros [a|e0] t Hm; [|discriminate]. injection Hm as <-. eauto. }
  assert (Hsame : pending r' = pending r -> session r' = session r ->
    pending r' = pending r ++ [] /\
    ((activeFileId (app (session r')) = activeFileId (app (session r)) /\
      map id (files (app (session r'))) = map id (files (app (session r)))) \/
     (exists file, In file (files (app (session r))) /\
                   app (session r') = closeFile (id file) (app (session r))) \/
     (exists file, In file (files (app (session r))) /\
                   files (app (session r')) = files (app (session r)) /\
                   activeFileId (app (session r')) = Some (id file)))).
  { intros -> ->. rewrite app_nil_r. auto. }
  destruct e as [uploads|k| |tab|tab|path ty| | |newRoot|c| |]; cbn [handle] in H.
  - (* the files are chosen *)
    injection H as <-. cbn [pending session]. auto.
  - now destruct (Hne k).
  - (* save *)
    destruct (activeFile (app (session r))) as [file|];
      [|injection H as <-; now apply Hsame].
    apply Hgo in H as (t & [= <-] & -> & ->). rewrite app_nil_r.
    split; [reflexivity|]. left. cbn [withApp app]. unfold handleSaveFile.
    destruct (write P (root file) (isCompressed file)); cbn [snd]; [|auto].
    cbn [files activeFileId]. split; [reflexivity|].
    rewrite map_map. apply map_ext. intros g.
    now destruct (String.eqb (id g) (id file)).
  - (* close a tab *)
    destruct (files (app (session r)) !! tab) as [file|] eqn:E;
      [|injection H as <-; now apply Hsame].
    apply Hgo in H as (t & [= <-] & -> & ->). rewrite app_nil_r.
    split; [reflexivity|]. right. left. exists file. split; [|reflexivity].
    apply list_elem_of_In. eapply list_elem_of_lookup_2; eauto.
  - (* click a tab *)
    destruct (files (app (session r)) !! tab) as [file|] eqn:E;
      [|injection H as <-; now apply Hsame].
    apply Hgo in H as (t & [= <-] & -> & ->). rewrite app_nil_r.
    split; [reflexivity|]. right. right. exists file.
    split; [|split; reflexivity].
    apply list_elem_of_In. eapply list_elem_of_lookup_2; eauto.
  - (* click a row *)
    apply Hgo in H as (t & Ht & -> & ->). rewrite app_nil_r.
    split; [reflexivity|]. left.
    unfold handleSelect in Ht. destruct ty.
    + injection Ht as <-. auto.
    + injection Ht as <-. auto.
    + destruct (activeFile (app (session r))) as [af|]; [|injection Ht as <-; auto].
      destruct (lastClickedPath (session r)) as [l|]; [|injection Ht as <-; auto].
      destruct (String.eqb l ""); [injection Ht as <-; auto|].
      destruct (flattenTree (root af) "root") as [ps|e]; [|discriminate].
      cbn [bind] in Ht.
      destruct (indexOf ps l); [|injection Ht as <-; auto].
      destruct (indexOf ps path); injection Ht as <-; auto.
  - (* invert *)
    apply Hgo in H as (t & Ht & -> & ->). rewrite app_nil_r.
    split; [reflexivity|]. left.
    apply Hrmap in Ht as (a & Ha & ->). unfold invertSelection in Ha.
    destruct (activeFile (app (session r))) as [af|]; [|injection Ha as <-; auto].
    destruct (flattenTree (root af) "root"); [|discriminate].
    injection Ha as <-. auto.
  - apply Hgo in H as (t & [= <-] & -> & ->). rewrite app_nil_r. auto.
  - apply Hgo in H as (t & Ht & -> & ->). rewrite app_nil_r.
    split; [reflexivity|]. left.
    apply Hrmap in Ht as (a & Ha & ->). apply edits_ids. eauto.
  - apply Hgo in H as (t & Ht & -> & ->). rewrite app_nil_r.
    split; [reflexivity|]. left.
    apply Hrmap in Ht as (a & Ha & ->). apply edits_ids. eauto 6.
  - apply Hgo in H as (t & Ht & -> & ->). rewrite app_nil_r.
    split; [reflexivity|]. left.
    apply Hrmap in Ht as (a & Ha & ->). apply edits_ids. eauto.
  - apply Hgo in H as (t & Ht & -> & ->). rewrite app_nil_r.
    split; [reflexivity|]. left.
    apply Hrmap in Ht as (a & Ha & ->). apply edits_ids. eauto.
Qed.

Lemma closeFile_activeAmongOpen fid s :
  activeAmongOpen s -> activeAmongOpen (closeFile fid s).
Proof.
  unfold activeAmongOpen, closeFile. cbn [files activeFileId]. intros HI a Ha.
  destruct (activeFileId s) as [b|]; [|discriminate].
  destruct (HI b eq_refl) as (f & Hin & Hid).
  destruct (String.eqb_spec b fid) as [E|N].
  - destruct (last (List.filter (fun f0 => negb (String.eqb (id f0) fid)) (files s)))
      as [g|] eqn:El; cbn [option_map] in Ha; [|discriminate].
    injection Ha as <-. exists g. split; [|reflexivity].
    apply last_Some in El as [l' El]. rewrite El. apply in_or_app. right. now left.
  - injection Ha as <-. exists f. split; [|exact Hid]. apply filter_In.
    split; [exact Hin|]. apply negb_true_iff, String.eqb_neq. congruence.
Qed.

Lemma closeFile_activeIsOpen fid s : activeIsOpen s -> activeIsOpen (closeFile fid s).
Proof.
  intros HI. pose proof (closeFile_activeAmongOpen fid s (activeIsOpen_weaker s HI)) as Hw.
  unfold activeIsOpen, activeAmongOpen in *.
  destruct (activeFileId (closeFile fid s)) as [a|] eqn:Ea; [now apply Hw|].
  unfold closeFile in *. cbn [files activeFileId] in *.
  destruct (activeFileId s) as [b|]; [|now rewrite HI].
  destruct (String.eqb b fid); [|discriminate].
  destruct (last (List.filter (fun f0 => negb (String.eqb (id f0) fid)) (files s)))
    as [g|] eqn:El; [discriminate|].
  now apply last_None in El.
Qed.

(** The end of an upload, whatever active id its closure holds. *)
Lemma upload_activeAmongOpen P fuel uploads chosenWith s :
  activeAmongOpen s -> activeAmongOpen (handleFileUpload P fuel uploads chosenWith s).
Proof.
  unfold activeAmongOpen, handleFileUpload. cbn [files activeFileId].
  set (newFiles := map _ (omap _ uploads)). intros HI a Ha.
  assert (Hold : activeFileId s = Some a -> exists f, In f (files s ++ newFiles) /\ id f = a).
  { intros Hs. destruct (HI a Hs) as (f & Hin & Hid). exists f.
    split; [apply in_or_app; now left|exact Hid]. }
  destruct newFiles as [|f0 fs]; [now apply Hold|].
  destruct (noActiveFileId chosenWith); [|now apply Hold].
  injection Ha as <-. exists f0. split; [|reflexivity].
  apply in_or_app. right. now left.
Qed.

(** The end of an upload during which nothing else has happened. *)
Lemma upload_activeIsOpen P fuel uploads s :
  activeIsOpen s -> activeIsOpen (handleFileUpload P fuel uploads (activeFileId s) s).
Proof.
  intros HI. rewrite activeIsOpen_ids in *.
  unfold handleFileUpload. cbn [files activeFileId].
  set (newFiles := map _ (omap _ uploads)). rewrite map_app.
  destruct newFiles as [|f0 fs].
  - rewrite app_nil_r. exact HI.
  - destruct (activeFileId s) as [a|]; cbn [noActiveFileId].
    + destruct (String.eqb a "").
      * apply in_or_app. right. now left.
      * apply in_or_app. now left.
    + apply in_or_app. right. now left.
Qed.

Lemma handle_activeAmongOpen P fuel e r r' :
  handle P fuel e r = Ok r' ->
  activeAmongOpen (app (session r)) -> activeAmongOpen (app (session r')).
Proof.
  intros H HI.
  destruct (classic_FilesRead e) as [[k ->]|Hne].
  - cbn [handle] in H.
    destruct (pending r !! k) as [[chosenWith uploads]|]; injection H as <-; [|exact HI].
    cbn [session withApp app]. now apply upload_activeAmongOpen.
  - destruct (handle_tabs P fuel e r r' H Hne) as [_ [[Ha Hf]|[(file & _ & ->)|(file & Hin & Hf & Ha)]]].
    + now apply (activeAmongOpen_same (app (session r))).
    + now apply closeFile_activeAmongOpen.
    + unfold activeAmongOpen. rewrite Ha, Hf. intros a [= <-]. eauto.
Qed.

Lemma handle_activeIsOpen P fuel e r r' :
  handle P fuel e r = Ok r' -> (forall k, e <> FilesRead k) ->
  activeIsOpen (app (session r)) -> activeIsOpen (app (session r')).
Proof.
  intros H Hne HI.
  destruct (handle_tabs P fuel e r r' H Hne) as [_ [[Ha Hf]|[(file & _ & ->)|(file & Hin & Hf & Ha)]]].
  - now apply (activeIsOpen_same (app (session r))).
  - now apply closeFile_activeIsOpen.
  - unfold activeIsOpen. rewrite Ha, Hf. eauto.
Qed.

(** A run whose uploads read their files at once keeps [activeIsOpen] and
    leaves no upload waiting. *)
Lemma run_uploadsAtOnce P fuel n : forall events r r',
  (length events <= n)%nat -> uploadsAtOnce events = true ->
  pending r = [] -> activeIsOpen (app (session r)) ->
  run P fuel events r = Ok r' ->
  pending r' = [] /\ activeIsOpen (app (session r')).
Proof.
  induction n as [|n IH]; intros events r r' Hlen Hat Hp HI H.
  - destruct events; [|cbn in Hlen; lia]. now injection H as <-.
  - destruct events as [|e rest]; [now injection H as <-|].
    cbn [length] in Hlen. cbn [run] in H.
    destruct (handle P fuel e r) as [r1|err] eqn:E1; [|discriminate]. cbn [bind] in H.
    destruct (classic_ChooseFiles e) as [[uploads ->]|Hnc].
    + (* the files are chosen, and read at once *)
      cbn [uploadsAtOnce] in Hat.
      destruct rest as [|[u|[|k]| | | | | | | | | |] rest']; try discriminate Hat.
      cbn [handle] in E1. injection E1 as <-.
      cbn [run handle pending session] in H. rewrite Hp in H. cbn [app lookup] in H.
      change ([] ++ [(activeFileId (app (session r)), uploads)])
        with [(activeFileId (app (session r)), uploads)] in H.
      cbn [lookup list_lookup bind] in H.
      refine (IH rest' _ r' _ Hat _ _ H).
      * cbn [length] in Hlen. lia.
      * reflexivity.
      * cbn [session withApp app]. now apply upload_activeIsOpen.
    + assert (Hne : forall k, e <> FilesRead k).
      { intros k ->. discriminate Hat. }
      destruct (handle_tabs P fuel e r r1 E1 Hne) as [Hpend _].
      assert (Hat' : uploadsAtOnce rest = true).
      { destruct e as [u|k| |tab|tab|path ty| | |newRoot|c| |];
          first [exact Hat | now destruct (Hnc u) | now destruct (Hne k)]. }
      apply (IH rest r1 r'); [lia|exact Hat'| | |exact H].
      * rewrite Hpend, Hp.
        destruct e as [u|k| |tab|tab|path ty| | |newRoot|c| |];
          first [reflexivity | now destruct (Hnc u)].
      * now apply (handle_activeIsOpen P fuel e r r1).
Qed.

(** Through every run of events from the empty editor, with uploads that
    end whenever their files have been read, an active id is the id of an
    open tab.  When moreover nothing happens while an upload reads its files,
    no tab is active only when none is open: whenever a document is open, the
    editor shows one. *)
Theorem active_tab_is_open P fuel events r :
  run P fuel events start = Ok r ->
  activeAmongOpen (app (session r)) /\
  (uploadsAtOnce events = true ->
   activeIsOpen (app (session r)) /\
   (files (app (session r)) <> [] ->
    exists f, activeFile (app (session r)) = Some f /\ In f (files (app (session r))))).
Proof.
  assert (Hrun : forall es r0 r1,
    run P fuel es r0 = Ok r1 ->
    activeAmongOpen (app (session r0)) -> activeAmongOpen (app (session r1))).
  { induction es as [|e es IH]; intros r0 r1 H HI; cbn [run] in H.
    - now injection H as <-.
    - destruct (handle P fuel e r0) as [r'|err] eqn:E; [|discriminate].
      cbn [bind] in H. eapply IH; [exact H|].
      eapply handle_activeAmongOpen; eauto. }
  intros H. split.
  { apply (Hrun events start r H). intros a Ha. discriminate Ha. }
  intros Hat.
  destruct (run_uploadsAtOnce P fuel (length events) events start r
              (Nat.le_refl _) Hat eq_refl eq_refl H) as [_ HI].
  split; [exact HI|]. intros Hne. unfold activeIsOpen, activeFile in *.
  destruct (activeFileId (app (session r))) as [a|]; [|contradiction].
  destruct HI as (f & Hin & Hid).
  destruct (find (fun f0 => String.eqb (id f0) a) (files (app (session r)))) as [g|] eqn:Ef.
  - exists g. split; [reflexivity|]. now apply find_some in Ef.
  - pose proof (find_none _ _ Ef f Hin) as Hf. cbn in Hf.
    apply String.eqb_neq in Hf. contradiction.
Qed.

(** The end of the upload of one file that parses. *)
Lemma upload_one P fuel fid fname bytes r c chosenWith s :
  parse P fuel bytes = Ok (r, c) ->
  handleFileUpload P fuel [(fid, fname, bytes)] chosenWith s
  = {| files := files s ++ [newFile fid fname r c];
       activeFileId := if noActiveFileId chosenWith then Some fid else activeFileId s;
       selectedPaths := selectedPaths s |}.
Proof. intros H. unfold handleFileUpload. cbn -[parse]. rewrite H. reflexivity. Qed.

(** An upload that ends after the active tab has been closed leaves the
    editor with a document and no active tab.  One document is open and
    active; a second file is chosen; while it is read the tab of the first is
    closed; when the upload ends it adds the second document, but it tests the
    active id of the moment the file was chosen, which was set, and so makes
    no tab active: no tree is shown although a document is open. *)
Theorem late_upload_leaves_no_active_tab P fuel
    (id1 name1 : string) (bytes1 : list byte) (id2 name2 : string) (bytes2 : list byte)
    root1 c1 root2 c2 :
  parse P fuel bytes1 = Ok (root1, c1) -> parse P fuel bytes2 = Ok (root2, c2) ->
  id1 <> "" ->
  exists r,
    run P fuel [ChooseFiles [(id1, name1, bytes1)]; FilesRead 0;
                ChooseFiles [(id2, name2, bytes2)]; CloseTab 0; FilesRead 0] start
    = Ok r /\
    files (app (session r)) = [newFile id2 name2 root2 c2] /\
    activeFileId (app (session r)) = None /\
    activeFile (app (session r)) = None /\
    pending r = [].
Proof.
  intros H1 H2 Hne. apply String.eqb_neq in Hne.
  eexists. split.
  - cbn -[handleFileUpload].
    rewrite (upload_one P fuel id1 name1 bytes1 root1 c1 _ _ H1).
    cbn -[handleFileUpload closeFile].
    rewrite (upload_one P fuel id2 name2 bytes2 root2 c2 _ _ H2).
    reflexivity.
  - cbn [session app withApp files activeFileId pending noActiveFileId].
    rewrite Hne. unfold closeFile, activeFile.
    cbn [files activeFileId List.filter newFile id selectedPaths].
    rewrite String.eqb_refl. cbn [negb last option_map List.app].
    repeat split; reflexivity.
Qed.

(** ** Saving and opening again *)

Lemma write_then_parse P root c :
  wf_root P root = true ->
  (c = true -> (forall bs, hasGzipMagic (pako_gzip P bs) = true) /\
               (forall bs, pako_ungzip P (pako_gzip P bs) = Some bs)) ->
  exists bytes,
    write P root c = Ok bytes /\
    forall fuel, (tagFuel root <= fuel)%nat -> parse P fuel bytes = Ok (root, c).
Proof.
  intros Hwf Hgz.
  destruct (write_read_root P root Hwf) as (bytes & n & Hw & Hraw & Hrd).
  unfold write in *. destruct (writeTag P root true false []) as [buffer|e];
    [|discriminate].
  cbn [bind] in *. injection Hw as <-. destruct c.
  - destruct (Hgz eq_refl) as [Hmagic Hinflate]. eexists. split; [reflexivity|].
    intros fuel Hf. unfold parse. rewrite Hmagic, Hinflate. cbn [bind].
    now rewrite (Hrd fuel Hf).
  - eexists. split; [reflexivity|]. intros fuel Hf.
    now rewrite (parse_raw P fuel _ Hraw), (Hrd fuel Hf).
Qed.

(** Saving a document whose tree is representable hands out bytes, marks the
    document as unmodified and leaves the rest of it alone; uploading those
    bytes opens a document with the same tree and the same compression
    flag, which becomes the active one when the upload was started without
    an active document; an upload during which nothing else happens is
    [filesOpened].  (For a compressed document the platform's gzip must give a
    stream that carries the magic number and inflates to its input.) *)
Theorem save_then_reopen P s f :
  In f (files s) -> wf_root P (root f) = true ->
  (isCompressed f = true ->
     (forall bs, hasGzipMagic (pako_gzip P bs) = true) /\
     (forall bs, pako_ungzip P (pako_gzip P bs) = Some bs)) ->
  exists bytes s',
    handleSaveFile P f s = (Some bytes, s') /\
    Forall2 (fun g g' =>
               id g' = id g /\ root g' = root g /\ undoStack g' = undoStack g /\
               redoStack g' = redoStack g /\
               isModified g' = (if String.eqb (id g) (id f) then false else isModified g))
            (files s) (files s') /\
    forall fuel fid fname t, (tagFuel (root f) <= fuel)%nat ->
      (forall chosenWith,
         handleFileUpload P fuel [(fid, fname, bytes)] chosenWith t
         = {| files := files t ++ [newFile fid fname (root f) (isCompressed f)];
              activeFileId := if noActiveFileId chosenWith then Some fid
                              else activeFileId t;
              selectedPaths := selectedPaths t |}) /\
      handleFileUpload P fuel [(fid, fname, bytes)] (activeFileId t) t
      = filesOpened [(fid, fname, root f, isCompressed f)] t.
Proof.
  intros Hin Hwf Hgz.
  destruct (write_then_parse P (root f) (isCompressed f) Hwf Hgz) as (bytes & Hw & Hp).
  unfold handleSaveFile. rewrite Hw. do 2 eexists. split; [reflexivity|]. split.
  - cbn [files]. clear. induction (files s) as [|g l IH]; cbn [map]; constructor; [|exact IH].
    now destruct (String.eqb (id g) (id f)).
  - intros fuel fid fname t Hf. split.
    + intros chosenWith. unfold handleFileUpload.
      cbn -[parse]. now rewrite (Hp fuel Hf).
    + unfold handleFileUpload, filesOpened.
      cbn -[parse]. now rewrite (Hp fuel Hf).
Qed.

End EditorProofs.

Lemma range_select_player :
  exists s',
    Editor.handleSelect "root.Inventory[0]" Editor.range
      (Editor.mkSession (session player ∅) (Some "root.XpLevel")) = Ok s' /\
    ("root.XpLevel" ∈ App.selectedPaths (Editor.app s')) /\
    ("root.Inventory" ∈ App.selectedPaths (Editor.app s')) /\
    ("root.Inventory[0]" ∈ App.selectedPaths (Editor.app s')) /\
    ("root" ∉ App.selectedPaths (Editor.app s')).
Proof.
  destruct (EditorProofs.range_select
              (Editor.mkSession (session player ∅) (Some "root.XpLevel"))
              (App.newFile "1" "level.dat" player false)
              "root.XpLevel" "root.Inventory[0]"
              ["root"; "root.XpLevel"; "root.Inventory"; "root.Inventory[0]";
               "root.Inventory[0].id"; "root.Inventory[0].Count";
               "root.Inventory[0].Slot"]
              eq_refl eq_refl ltac:(discriminate) ltac:(vm_compute; reflexivity))
    as [Hrange _].
  destruct (Hrange 1%nat 3%nat eq_refl eq_refl) as (s' & Hs' & _ & Hiff & Hlast & Hpath).
  exists s'. split; [exact Hs'|]. split; [exact Hlast|].
  split; [|split; [exact Hpath|]].
  - apply Hiff. right. exists 2%nat. split; [simpl; lia|reflexivity].
  - intros H. apply Hiff in H as [H|(k & Hk & Hq)].
    + cbn in H. now apply not_elem_of_empty in H.
    + simpl in Hk. destruct k as [|[|[|[|k]]]]; try lia; discriminate.
Defined.

Lemma invert_selection_player :
  exists s',
    Editor.invertSelection (session player {[ "root.XpLevel" ]}) = Ok s' /\
    ("root" ∉ App.selectedPaths s') /\
    ("root.Inventory" ∈ App.selectedPaths s') /\
    ("root.XpLevel" ∉ App.selectedPaths s').
Proof.
  destruct (EditorProofs.invert_selection (session player {[ "root.XpLevel" ]})
              (App.newFile "1" "level.dat" player false)
              ["root"; "root.XpLevel"; "root.Inventory"; "root.Inventory[0]";
               "root.Inventory[0].id"; "root.Inventory[0].Count";
               "root.Inventory[0].Slot"]
              eq_refl ltac:(vm_compute; reflexivity))
    as (s' & s'' & Hs' & _ & _ & Hiff & Hroot & _).
  exists s'. split; [exact Hs'|]. split; [exact Hroot|]. split.
  - apply Hiff. split; [simpl; tauto|]. split; [discriminate|].
    cbn. rewrite elem_of_singleton. discriminate.
  - intros H. apply Hiff in H as (_ & _ & H). apply H. cbn.
    now apply elem_of_singleton.
Defined.

Lemma undo_redo_cancel_edited :
  exists s1 s2 f2,
    App.handleUndo edited = Ok s1 /\ App.handleRedo s1 = Ok s2 /\
    App.activeFile s2 = Some f2 /\ App.root f2 = twins /\
    App.undoStack f2 = [xpLevel] /\ App.redoStack f2 = [player].
Proof.
  apply (proj1 (EditorProofs.undo_redo_cancel edited
                  {| App.id := "1"; App.filename := "level.dat"; App.root := twins;
                     App.isCompressed := false; App.isModified := true;
                     App.undoStack := [xpLevel]; App.redoStack := [player] |}
                  eq_refl ltac:(repeat constructor)) xpLevel eq_refl eq_refl).
Defined.

Lemma other_documents_untouched_edited :
  exists s',
    App.handleUndo edited = Ok s' /\
    App.files s' !! 1%nat = Some (App.newFile "2" "map.dat" player false) /\
    App.activeFileId s' = Some "1"%string.
Proof.
  eexists. split; [reflexivity|].
  match goal with
  | |- App.files ?s' !! _ = _ /\ _ =>
      destruct (EditorProofs.other_documents_untouched edited s'
                  {| App.id := "1"; App.filename := "level.dat"; App.root := twins;
                     App.isCompressed := false; App.isModified := true;
                     App.undoStack := [xpLevel]; App.redoStack := [player] |}
                  eq_refl (or_intror (or_introl eq_refl))) as (_ & Hid & Hother)
  end.
  split; [|exact Hid].
  apply Hother; [reflexivity|discriminate].
Defined.

Lemma commits_then_undos_session :
  exists s1 s2 f2,
    App.commits [twins; player] (session xpLevel ∅) = Ok s1 /\
    Editor.undos 2 s1 = Ok s2 /\ App.activeFile s2 = Some f2 /\
    App.root f2 = xpLevel /\ App.undoStack f2 = [] /\
    App.redoStack f2 = [player; twins].
Proof.
  apply (EditorProofs.commits_then_undos [twins; player] (session xpLevel ∅)
           (App.newFile "1" "level.dat" xpLevel false));
    [reflexivity | discriminate | repeat constructor | repeat constructor
    | discriminate | simpl; lia].
Defined.

Lemma active_tab_is_open_run :
  exists r,
    Editor.run ascii_platform 3
      [Editor.ChooseFiles [("1", "level.dat", xpLevelBytes); ("2", "empty.dat", []);
                           ("3", "copy.dat", xpLevelBytes)];
       Editor.FilesRead 0; Editor.Commit twins; Editor.CloseTab 0] Editor.start = Ok r /\
    map App.id (App.files (Editor.app (Editor.session r))) = ["3"] /\
    exists f, App.activeFile (Editor.app (Editor.session r)) = Some f /\ App.id f = "3".
Proof.
  eexists. split; [reflexivity|]. split; [reflexivity|].
  match goal with
  | |- exists f, App.activeFile (Editor.app (Editor.session ?r)) = _ /\ _ =>
      destruct (EditorProofs.active_tab_is_open ascii_platform 3
                  [Editor.ChooseFiles [("1", "level.dat", xpLevelBytes);
                                       ("2", "empty.dat", []);
                                       ("3", "copy.dat", xpLevelBytes)];
                   Editor.FilesRead 0; Editor.Commit twins; Editor.CloseTab 0]
                  r eq_refl) as [_ Hopen]
  end.
  destruct (Hopen eq_refl) as [_ Hshown].
  destruct (Hshown ltac:(discriminate)) as (f & Hf & _).
  exists f. split; [exact Hf|]. cbn in Hf. now injection Hf as <-.
Defined.

Lemma late_upload_leaves_no_active_tab_run :
  exists r,
    Editor.run ascii_platform 3
      [Editor.ChooseFiles [("1", "level.dat", xpLevelBytes)]; Editor.FilesRead 0;
       Editor.ChooseFiles [("2", "copy.dat", xpLevelBytes)]; Editor.CloseTab 0;
       Editor.FilesRead 0] Editor.start = Ok r /\
    App.files (Editor.app (Editor.session r)) = [App.newFile "2" "copy.dat" xpLevel false] /\
    App.activeFile (Editor.app (Editor.session r)) = None.
Proof.
  destruct (EditorProofs.late_upload_leaves_no_active_tab ascii_platform 3
              "1" "level.dat" xpLevelBytes "2" "copy.dat" xpLevelBytes
              xpLevel false xpLevel false eq_refl eq_refl ltac:(discriminate))
    as (r & Hrun & Hfiles & _ & Hactive & _).
  exists r. auto.
Defined.

Lemma save_then_reopen_session :
  exists bytes s',
    Editor.handleSaveFile framing_platform
      (App.newFile "1" "level.dat" xpLevel true)
      {| App.files := [App.newFile "1" "level.dat" xpLevel true];
         App.activeFileId := Some "1"; App.selectedPaths := ∅ |} = (Some bytes, s') /\
    bytes = x1f :: x8b :: xpLevelBytes /\
    Editor.handleFileUpload framing_platform 4 [("2", "copy.dat", bytes)]
      (App.activeFileId s') s'
    = App.filesOpened [("2", "copy.dat", xpLevel, true)] s'.
Proof.
  destruct (EditorProofs.save_then_reopen framing_platform
              {| App.files := [App.newFile "1" "level.dat" xpLevel true];
                 App.activeFileId := Some "1"; App.selectedPaths := ∅ |}
              (App.newFile "1" "level.dat" xpLevel true)
              ltac:(now left) eq_refl
              ltac:(intros _; split; intros bs; reflexivity))
    as (bytes & s' & Hsave & _ & Hopen).
  exists bytes, s'. split; [exact Hsave|]. split.
  - cbv in Hsave. now injection Hsave as <- _.
  - refine (proj2 (Hopen 4%nat "2"%string "copy.dat"%string s' _)). simpl. lia.
Defined.

(** ** The player preview *)

Module PreviewProofs.
Import PlayerPreview.

Lemma find_snoc {A} (p : A -> bool) l x :
  List.find p (l ++ [x])
  = match List.find p l with
    | Some y => Some y
    | None => if p x then Some x else None
    end.
Proof.
  induction l as [|y l IH]; cbn [app List.find]; [reflexivity|].
  destruct (p y); [reflexivity|exact IH].
Qed.

Lemma placeItem_cells cells item cells' :
  placeItem cells item = Ok cells' ->
  length (c_hotbar cells') = length (c_hotbar cells) /\
  length (c_inventory cells') = length (c_inventory cells) /\
  (forall k, 0 <= k <= 8 -> (Z.to_nat k < length (c_hotbar cells))%nat ->
     c_hotbar cells' !! Z.to_nat k
     = if slotIs k item then Some (Some item) else c_hotbar cells !! Z.to_nat k) /\
  (forall k, 9 <= k <= 35 -> (Z.to_nat (k - 9) < length (c_inventory cells))%nat ->
     c_inventory cells' !! Z.to_nat (k - 9)
     = if slotIs k item then Some (Some item) else c_inventory cells !! Z.to_nat (k - 9)) /\
  (forall k, 100 <= k <= 103 ->
     c_armor cells' !! k = if slotIs k item then Some item else c_armor cells !! k) /\
  (forall k, ~ 100 <= k <= 103 -> c_armor cells' !! k = c_armor cells !! k) /\
  c_offhand cells' = if slotIsNumber (-106) item then Some item else c_offhand cells.
Proof.
  unfold placeItem, slotIs, slotIsNumber. intros H.
  destruct (slot item) as [| |n|n| | | | | | |]; try discriminate H.
  - injection H as <-. repeat split; auto.
  - slot_cases H; injection H as <-;
      cbn [c_hotbar c_inventory c_armor c_offhand];
      rewrite ?length_insert;
      (split; [reflexivity|]); (split; [reflexivity|]);
      (split; [intros k Hk Hlt; destruct (Z.eqb_spec n k) as [->|Hnk];
               [first [now rewrite list_lookup_insert_eq by exact Hlt | lia]
               |first [rewrite list_lookup_insert_ne by lia; reflexivity | reflexivity]]|]);
      (split; [intros k Hk Hlt; destruct (Z.eqb_spec n k) as [->|Hnk];
               [first [now rewrite list_lookup_insert_eq by exact Hlt | lia]
               |first [rewrite list_lookup_insert_ne by lia; reflexivity | reflexivity]]|]);
      (split; [intros k Hk; destruct (Z.eqb_spec n k) as [->|Hnk];
               [first [now rewrite lookup_insert_eq | lia]
               |first [now rewrite lookup_insert_ne by exact Hnk | reflexivity]]|]);
      (split; [intros k Hk;
               first [rewrite lookup_insert_ne by (intros ->; lia); reflexivity
                     | reflexivity]|]);
      first [reflexivity | destruct (Z.eqb_spec n (-106)); first [reflexivity | lia]].
  - slot_cases H; try discriminate H; injection H as <-;
      cbn [c_hotbar c_inventory c_armor c_offhand];
      rewrite ?length_insert;
      (split; [reflexivity|]); (split; [reflexivity|]);
      (split; [intros k Hk Hlt; destruct (Z.eqb_spec n k) as [->|Hnk];
               [first [now rewrite list_lookup_insert_eq by exact Hlt | lia]
               |first [rewrite list_lookup_insert_ne by lia; reflexivity | reflexivity]]|]);
      (split; [intros k Hk Hlt; destruct (Z.eqb_spec n k) as [->|Hnk];
               [first [now rewrite list_lookup_insert_eq by exact Hlt | lia]
               |first [rewrite list_lookup_insert_ne by lia; reflexivity | reflexivity]]|]);
      (split; [intros k Hk; destruct (Z.eqb_spec n k) as [->|Hnk];
               [first [now rewrite lookup_insert_eq | lia]
               |first [now rewrite lookup_insert_ne by exact Hnk | reflexivity]]|]);
      (split; [intros k Hk;
               first [rewrite lookup_insert_ne by (intros ->; lia); reflexivity
                     | reflexivity]|]);
      reflexivity.
Qed.

Lemma placeItems_cells items : forall cells cells',
  forEachM placeItem items cells = Ok cells' ->
  length (c_hotbar cells') = length (c_hotbar cells) /\
  length (c_inventory cells') = length (c_inventory cells) /\
  (forall k, 0 <= k <= 8 -> (Z.to_nat k < length (c_hotbar cells))%nat ->
     c_hotbar cells' !! Z.to_nat k
     = lastOr (List.find (slotIs k) (rev items)) (fun item => Some (Some item))
              (c_hotbar cells !! Z.to_nat k)) /\
  (forall k, 9 <= k <= 35 -> (Z.to_nat (k - 9) < length (c_inventory cells))%nat ->
     c_inventory cells' !! Z.to_nat (k - 9)
     = lastOr (List.find (slotIs k) (rev items)) (fun item => Some (Some item))
              (c_inventory cells !! Z.to_nat (k - 9))) /\
  (forall k, 100 <= k <= 103 ->
     c_armor cells' !! k
     = lastOr (List.find (slotIs k) (rev items)) Some (c_armor cells !! k)) /\
  (forall k, ~ 100 <= k <= 103 -> c_armor cells' !! k = c_armor cells !! k) /\
  c_offhand cells'
  = lastOr (List.find (slotIsNumber (-106)) (rev items)) Some (c_offhand cells).
Proof.
  induction items as [|x items IH]; intros cells cells' H; cbn [forEachM] in H.
  - injection H as <-. cbn [rev List.find lastOr]. repeat split; auto.
  - destruct (placeItem cells x) as [cells1|] eqn:E1; [|discriminate].
    cbn [bind] in H.
    destruct (placeItem_cells _ _ _ E1) as (L1 & L2 & Hh & Hi & Ha & Hn & Ho).
    destruct (IH _ _ H) as (M1 & M2 & Kh & Ki & Ka & Kn & Ko).
    cbn [rev]. split; [congruence|]. split; [congruence|].
    split; [|split; [|split; [|split]]].
    + intros k Hk Hlt. rewrite find_snoc, Kh by (auto; lia).
      destruct (List.find (slotIs k) (rev items)); cbn [lastOr]; [reflexivity|].
      rewrite Hh by auto. now destruct (slotIs k x).
    + intros k Hk Hlt. rewrite find_snoc, Ki by (auto; lia).
      destruct (List.find (slotIs k) (rev items)); cbn [lastOr]; [reflexivity|].
      rewrite Hi by auto. now destruct (slotIs k x).
    + intros k Hk. rewrite find_snoc, Ka by auto.
      destruct (List.find (slotIs k) (rev items)); cbn [lastOr]; [reflexivity|].
      rewrite Ha by auto. now destruct (slotIs k x).
    + intros k Hk. now rewrite Kn, Hn.
    + rewrite find_snoc, Ko.
      destruct (List.find (slotIsNumber (-106)) (rev items)); cbn [lastOr]; [reflexivity|].
      rewrite Ho. now destruct (slotIsNumber (-106) x).
Qed.

(** The cells of the preview.  When the preview is computed, each cell of
    the hotbar (slots 0..8), of the backpack (slots 9..35, shown at 0..26)
    and of the armour (slots 100..103) shows the last item of the [Inventory]
    list that carries the cell's slot number, and is empty when there is
    none; the off hand shows the last item with the slot [-106].  The hotbar
    keeps its 9 cells and the backpack its 27, and an item with any other
    slot number is shown nowhere. *)
Theorem preview_cells root d :
  parsedData root = Ok d ->
  exists inventoryTag allItems,
    findTag root "Inventory" = Ok inventoryTag /\
    parseItems inventoryTag = Ok allItems /\
    length (hotbar d) = 9%nat /\ length (inventory d) = 27%nat /\
    (forall k, 0 <= k <= 8 ->
       hotbar d !! Z.to_nat k = Some (List.find (slotIs k) (rev allItems))) /\
    (forall k, 9 <= k <= 35 ->
       inventory d !! Z.to_nat (k - 9) = Some (List.find (slotIs k) (rev allItems))) /\
    (forall k, armor d !! k
               = if (100 <=? k) && (k <=? 103)
                 then List.find (slotIs k) (rev allItems) else None) /\
    offhand d = List.find (slotIsNumber (-106)) (rev allItems).
Proof.
  intros H. unfold parsedData in H.
  stage H healthTag E1. stage H health0 E2. stage H foodLevel E3.
  stage H xpLevel0 E4. stage H attributes E5. stage H maxHealth0 E6.
  stage H inventoryTag E7. stage H allItems E8. stage H cells E9.
  stage H forgeCaps E10. stage H curios E11.
  injection H as <-. cbn [hotbar inventory armor offhand].
  exists inventoryTag, allItems. split; [reflexivity|]. split; [exact E8|].
  destruct (placeItems_cells _ _ _ E9) as (L1 & L2 & Hh & Hi & Ha & Hn & Ho).
  cbn [c_hotbar c_inventory c_armor c_offhand] in *.
  rewrite length_replicate in L1, L2.
  split; [exact L1|]. split; [exact L2|].
  split; [|split; [|split]].
  - intros k Hk. rewrite Hh by (rewrite ?length_replicate; lia).
    rewrite lookup_replicate_2 by lia.
    now destruct (List.find (slotIs k) (rev allItems)).
  - intros k Hk. rewrite Hi by (rewrite ?length_replicate; lia).
    rewrite lookup_replicate_2 by lia.
    now destruct (List.find (slotIs k) (rev allItems)).
  - intros k. destruct (Z.leb_spec 100 k); destruct (Z.leb_spec k 103); cbn [andb].
    + rewrite Ha by lia. rewrite lookup_empty.
      now destruct (List.find (slotIs k) (rev allItems)).
    + rewrite Hn by lia. apply lookup_empty.
    + rewrite Hn by lia. apply lookup_empty.
    + rewrite Hn by lia. apply lookup_empty.
  - rewrite Ho. now destruct (List.find (slotIsNumber (-106)) (rev allItems)).
Qed.

(** A stored zero is shown as the default.  The preview reads its figures
    with [value || default]: a food level of 0 is shown as 20, and a health of
    0 (with no [HealF] either) as 20. *)
Theorem zero_shown_as_default root d :
  parsedData root = Ok d ->
  (forall t, findTag root "foodLevel" = Ok (Some t) -> value t = VNumber 0 ->
             food d = VNumber 20) /\
  (forall t, findTag root "Health" = Ok (Some t) -> value t = VFloat 0 ->
             findTag root "HealF" = Ok None -> health d = VNumber 20).
Proof.
  intros H. unfold parsedData in H.
  stage H healthTag E1. stage H health0 E2. stage H foodLevel E3.
  stage H xpLevel0 E4. stage H attributes E5. stage H maxHealth0 E6.
  stage H inventoryTag E7. stage H allItems E8. stage H cells E9.
  stage H forgeCaps E10. stage H curios E11.
  injection H as <-. cbn [food health]. split.
  - intros t [= ->] Hv. cbn [valueOf]. now rewrite Hv.
  - intros t [= ->] Hv Hf. cbn [valueOf] in E2. rewrite Hv, Hf in E2.
    cbn in E2. now injection E2 as <-.
Qed.

End PreviewProofs.

Lemma preview_cells_starving :
  exists d stone dirt,
    PlayerPreview.parsedData starving = Ok d /\
    PlayerPreview.parseItems
      (Some (mkTag TagType.List (Some "Inventory")
                   (VList TagType.Compound [stoneStack; dirtStack])))
      = Ok [stone; dirt] /\
    PlayerPreview.hotbar d !! 0%nat = Some (Some dirt) /\
    PlayerPreview.hotbar d !! 1%nat = Some None.
Proof.
  destruct (PlayerPreview.parsedData starving) as [d|] eqn:E; [|discriminate E].
  destruct (PreviewProofs.preview_cells starving d E)
    as (tg & items & Ht & Hi & _ & _ & Hh & _).
  vm_compute in Ht. injection Ht as <-.
  vm_compute in Hi. injection Hi as <-.
  do 3 eexists. split; [reflexivity|]. split; [reflexivity|].
  split; [exact (Hh 0 ltac:(lia))|exact (Hh 1 ltac:(lia))].
Defined.

Lemma zero_shown_as_default_starving :
  exists d, PlayerPreview.parsedData starving = Ok d /\
            PlayerPreview.food d = VNumber 20.
Proof.
  destruct (PlayerPreview.parsedData starving) as [d|] eqn:E; [|discriminate E].
  exists d. split; [reflexivity|].
  apply (proj1 (PreviewProofs.zero_shown_as_default starving d E)
           (mkTag TagType.Int (Some "foodLevel") (VNumber 0))); reflexivity.
Defined.

(** ** The search *)

Lemma someM_total {A} (p : A -> result bool) l :
  (forall x, In x l -> exists b, p x = Ok b) -> exists b, someM p l = Ok b.
Proof.
  induction l as [|x l IH]; intros H; cbn [someM]; [eauto|].
  destruct (H x (or_introl eq_refl)) as [b ->]. cbn [bind].
  destruct b; [eauto|]. apply IH. intros y Hy. apply H. now right.
Qed.

Lemma someM_true {A} (p : A -> result bool) l : forall idx x,
  (forall y, In y l -> exists b, p y = Ok b) ->
  l !! idx = Some x -> p x = Ok true -> someM p l = Ok true.
Proof.
  induction l as [|y l IH]; intros idx x H Hx Hp; [discriminate|].
  cbn [someM]. destruct idx as [|idx].
  - injection Hx as ->. now rewrite Hp.
  - destruct (H y (or_introl eq_refl)) as [b ->]. cbn [bind].
    destruct b; [reflexivity|].
    apply (IH idx x); auto. intros z Hz. apply H. now right.
Qed.

Lemma someM_inv {A} (p : A -> result bool) l :
  someM p l = Ok true -> exists idx x, l !! idx = Some x /\ p x = Ok true.
Proof.
  induction l as [|y l IH]; intros H; [discriminate|].
  cbn [someM] in H. destruct (p y) as [[|]|] eqn:E; cbn [bind] in H.
  - exists 0%nat, y. auto.
  - destruct (IH H) as (idx & x & Hx & Hp). exists (S idx), x. auto.
  - discriminate.
Qed.

Lemma includes_empty sub : includes EmptyString sub = true -> sub = EmptyString.
Proof. destruct sub; [reflexivity|discriminate]. Qed.

Section Search.

Variable T : Texts.
Hypothesis lower_empty : toLowerCase T EmptyString = EmptyString.
Hypothesis lower_nonempty : forall s, s <> EmptyString -> toLowerCase T s <> EmptyString.

(** On a well-shaped tree [checkMatch] does not throw. *)
Lemma checkMatch_total term t : shaped t = true -> exists b, checkMatch T t term = Ok b.
Proof.
  induction t as [ty nm v IH] using NBTTag_ind'. intros Hs.
  destruct (shaped_children _ _ _ Hs) as [Hc Hl].
  rewrite List.Forall_forall in IH.
  cbn [checkMatch].
  destruct (String.eqb term EmptyString); [eauto|].
  destruct (match nm with Some _ => _ | None => _ end); [eauto|].
  destruct (valueMatches T v (toLowerCase T term)); [eauto|].
  destruct (Z.eqb_spec ty 9) as [->|N9].
  - destruct (Hl eq_refl) as (it & l & -> & Hall). rewrite forallb_forall in Hall.
    apply someM_total. intros c Hin. apply IH; [exact Hin|now apply Hall].
  - destruct (Z.eqb_spec ty 10) as [->|N10]; [|eauto].
    destruct (Hc eq_refl) as (cs & -> & Hall). rewrite forallb_forall in Hall.
    apply someM_total. intros c Hin. apply IH; [exact Hin|now apply Hall].
Qed.

(** The two direct tests of [checkMatch] are those of [isDirectMatch]. *)
Lemma direct_tests ty nm v term :
  term <> EmptyString ->
  isDirectMatch T (mkTag ty nm v) term
  = match nm with
    | Some n => negb (String.eqb n EmptyString)
                && includes (toLowerCase T n) (toLowerCase T term)
    | None => false
    end
    || valueMatches T v (toLowerCase T term).
Proof.
  intros Hne. unfold isDirectMatch. cbn [name value].
  destruct (String.eqb_spec term EmptyString) as [E|_]; [contradiction|].
  f_equal. destruct nm as [n|]; [|reflexivity].
  destruct (String.eqb_spec n EmptyString) as [->|_]; [|reflexivity].
  rewrite lower_empty. cbn [negb andb].
  destruct (includes EmptyString (toLowerCase T term)) eqn:E; [|reflexivity].
  apply includes_empty in E. now apply lower_nonempty in E.
Qed.

Lemma checkMatch_down term t :
  shaped t = true -> checkMatch T t term = Ok true ->
  exists indices target,
    nodeAt t indices = Some target /\ isDirectMatch T target term = true.
Proof.
  induction t as [ty nm v IH] using NBTTag_ind'. intros Hs H.
  destruct (shaped_children _ _ _ Hs) as [Hc Hl].
  rewrite List.Forall_forall in IH.
  cbn [checkMatch] in H.
  destruct (String.eqb_spec term EmptyString) as [E|Hne]; [discriminate|].
  pose proof (direct_tests ty nm v term Hne) as Hd.
  destruct (match nm with Some _ => _ | None => _ end).
  { exists [], (mkTag ty nm v). split; [reflexivity|]. now rewrite Hd. }
  destruct (valueMatches T v (toLowerCase T term)).
  { exists [], (mkTag ty nm v). split; [reflexivity|]. now rewrite Hd. }
  clear Hd.
  destruct (Z.eqb_spec ty 9) as [->|N9].
  - destruct (Hl eq_refl) as (it & l & -> & Hall). rewrite forallb_forall in Hall.
    apply someM_inv in H as (idx & c & Hidx & Hm).
    pose proof (In_lookup _ _ _ Hidx) as Hin.
    destruct (IH c Hin (Hall c Hin) Hm) as (indices & target & Hat & Hdm).
    exists (idx :: indices), target. split; [|exact Hdm].
    cbn [nodeAt]. unfold childAt, renderedChildren. cbn [type value Z.eqb Pos.eqb].
    now rewrite Hidx.
  - destruct (Z.eqb_spec ty 10) as [->|N10]; [|discriminate].
    destruct (Hc eq_refl) as (cs & -> & Hall). rewrite forallb_forall in Hall.
    apply someM_inv in H as (idx & c & Hidx & Hm).
    pose proof (In_lookup _ _ _ Hidx) as Hin.
    destruct (IH c Hin (Hall c Hin) Hm) as (indices & target & Hat & Hdm).
    exists (idx :: indices), target. split; [|exact Hdm].
    cbn [nodeAt]. unfold childAt, renderedChildren. cbn [type value Z.eqb Pos.eqb].
    now rewrite Hidx.
Qed.

Lemma checkMatch_up term indices : forall t target,
  shaped t = true -> nodeAt t indices = Some target ->
  isDirectMatch T target term = true -> checkMatch T t term = Ok true.
Proof.
  induction indices as [|idx rest IH]; intros t target Hs Hat Hdm.
  - injection Hat as <-. destruct t as [ty nm v].
    assert (Hne : term <> EmptyString).
    { intros ->. discriminate Hdm. }
    rewrite (direct_tests ty nm v term Hne) in Hdm.
    cbn [checkMatch].
    destruct (String.eqb_spec term EmptyString) as [E|_]; [contradiction|].
    destruct (match nm with Some _ => _ | None => _ end); [reflexivity|].
    cbn [orb] in Hdm. now rewrite Hdm.
  - cbn [nodeAt] in Hat.
    destruct (childAt t idx) as [child|] eqn:Hc; [|discriminate].
    pose proof (childAt_shaped t idx child Hs Hc) as Hsc.
    pose proof (IH child target Hsc Hat Hdm) as Hm.
    assert (Hne : term <> EmptyString).
    { intros ->. destruct target; discriminate Hdm. }
    destruct t as [ty nm v].
    destruct (shaped_children _ _ _ Hs) as [H10 H9].
    unfold childAt, renderedChildren in Hc. cbn [type value] in Hc.
    cbn [checkMatch].
    destruct (String.eqb_spec term EmptyString) as [E|_]; [contradiction|].
    destruct (match nm with Some _ => _ | None => _ end); [reflexivity|].
    destruct (valueMatches T v (toLowerCase T term)); [reflexivity|].
    destruct (Z.eqb_spec ty 10) as [->|N10].
    + destruct (H10 eq_refl) as (cs & -> & Hall). rewrite forallb_forall in Hall.
      cbn [Z.eqb Pos.eqb].
      apply (someM_true _ cs idx child); [|exact Hc|exact Hm].
      intros y Hy. apply checkMatch_total. now apply Hall.
    + destruct (Z.eqb_spec ty 9) as [->|N9]; [|discriminate].
      destruct (H9 eq_refl) as (it & l & -> & Hall). rewrite forallb_forall in Hall.
      apply (someM_true _ l idx child); [|exact Hc|exact Hm].
      intros y Hy. apply checkMatch_total. now apply Hall.
Qed.

(** The search opens the way to every match, and nothing else.  On a
    well-shaped tree, [checkMatch] (on which a container expands itself while
    a search term is set) holds for a node exactly when the node itself or
    some node rendered below it is a direct match, that is, is drawn with the
    yellow ring: every container on the way from the root to a match expands,
    and a container with no match inside does not. *)
Theorem search_expands_to_matches tag term :
  shaped tag = true ->
  (checkMatch T tag term = Ok true <->
   exists indices target,
     nodeAt tag indices = Some target /\ isDirectMatch T target term = true) /\
  (forall indices target k ancestor,
     nodeAt tag indices = Some target -> isDirectMatch T target term = true ->
     nodeAt tag (take k indices) = Some ancestor ->
     checkMatch T ancestor term = Ok true).
Proof.
  intros Hs. split; [split|].
  - now apply checkMatch_down.
  - intros (indices & target & Hat & Hdm). now apply (checkMatch_up term indices tag target).
  - intros indices target k ancestor Hat Hdm Hanc.
    assert (Hsplit : forall indices t k a,
              shaped t = true -> nodeAt t (take k indices) = Some a ->
              shaped a = true /\ nodeAt a (drop k indices) = nodeAt t indices).
    { clear. induction indices as [|i indices IH]; intros t k a Hs Ha.
      - rewrite take_nil in Ha. injection Ha as <-. now rewrite drop_nil.
      - destruct k as [|k]; [injection Ha as <-; auto|].
        cbn [take drop nodeAt] in *.
        destruct (childAt t i) as [c|] eqn:Hc; [|discriminate].
        apply (IH c k a); [|exact Ha]. now apply (childAt_shaped t i c). }
    destruct (Hsplit indices tag k ancestor Hs Hanc) as [Hsa Hrest].
    apply (checkMatch_up term (drop k indices) ancestor target Hsa); [|exact Hdm].
    now rewrite Hrest.
Qed.

End Search.

Lemma search_expands_to_matches_player :
  checkMatch asciiTexts player "STONE" = Ok true /\
  nodeAt player [1%nat; 0%nat; 0%nat]
    = Some (mkTag TagType.String (Some "id") (VString "minecraft:stone")) /\
  checkMatch asciiTexts stoneStack "STONE" = Ok true.
Proof.
  assert (H0 : toLowerCase asciiTexts EmptyString = EmptyString) by reflexivity.
  assert (H1 : forall s, s <> EmptyString -> toLowerCase asciiTexts s <> EmptyString).
  { intros [|c s] Hs; [contradiction|]. discriminate. }
  destruct (search_expands_to_matches asciiTexts H0 H1 player "STONE" eq_refl)
    as [Hiff Hanc].
  split; [|split].
  - apply Hiff.
    exists [1%nat; 0%nat; 0%nat],
           (mkTag TagType.String (Some "id") (VString "minecraft:stone")).
    split; reflexivity.
  - reflexivity.
  - apply (Hanc [1%nat; 0%nat; 0%nat]
                (mkTag TagType.String (Some "id") (VString "minecraft:stone"))
                2%nat stoneStack); reflexivity.
Defined.
